(** * Multipart form-data decoder (src/multipart.js)

    A shallow embedding of [splitContentParts], [parseContent] and
    [processBody], together with the parts of the Node.js runtime they
    call ([Buffer.indexOf], [Buffer.slice], [Buffer.toString],
    [String.split], [RegExp.exec], property assignment on plain objects),
    followed by the properties of the decoder. *)

From Stdlib Require Import ZArith NArith List Lia.
From Stdlib.Strings Require Import Ascii String Byte.
From stdpp Require Import base option list strings gmap.

Local Open Scope Z_scope.

(** ** Data *)

(** A Node [Buffer] is a sequence of bytes. *)
Abbreviation Buffer := (list byte).

(** A JavaScript string is a sequence of UTF-16 code units. *)
Abbreviation jsstring := (list N).

(** String and buffer literals of the source, written as Rocq strings of
    ASCII characters. *)
Definition js (s : string) : jsstring :=
  map N_of_ascii (list_ascii_of_string s).

Definition bytes (s : string) : Buffer :=
  list_byte_of_string s.

(** The double quote, which a literal cannot hold directly. *)
Definition dquote : string := String (ascii_of_nat 34) EmptyString.

(** [const CRLF = Buffer.from([0x0D,0x0A])] and
    [const DOUBLE_CRLF = Buffer.from([0x0D,0x0A,0x0D,0x0A])]. *)
Definition CRLF : Buffer := [x0d; x0a].
Definition DOUBLE_CRLF : Buffer := [x0d; x0a; x0d; x0a].

#[global] Instance byte_eq_decision : EqDecision byte := Byte.byte_eq_dec.

(** ** Runtime: searching and slicing buffers *)

Module Runtime.

(** [starts_with pat s]: [pat] is a prefix of [s]. *)
Fixpoint starts_with {A} `{EqDecision A} (pat s : list A) : bool :=
  match pat, s with
  | [], _ => true
  | _ :: _, [] => false
  | p :: pat', c :: s' => bool_decide (p = c) && starts_with pat' s'
  end.

(** Leftmost position at which [needle] starts in [hay], counted from
    [pos]; [-1] when there is none.  Called with a non-empty needle. *)
Fixpoint search {A} `{EqDecision A} (needle hay : list A) (pos : Z) : Z :=
  match hay with
  | [] => -1
  | _ :: hay' =>
      if starts_with needle hay then pos else search needle hay' (pos + 1)
  end.

(** node_buffer.cc, [IndexOfOffset] for a forward search: where the search
    starts, or [-1] when no match is possible. *)
Definition IndexOfOffset (length offset needle_length : Z) : Z :=
  if offset <? 0 then
    if 0 <=? offset + length then length + offset else 0
  else if offset + needle_length <=? length then offset
  else if needle_length =? 0 then length
  else -1.

(** [buffer.indexOf(needle, byteOffset)] for a needle given as bytes. *)
Definition Buffer_indexOf (buffer needle : Buffer) (byteOffset : Z) : Z :=
  let haystack_length := Z.of_nat (length buffer) in
  let needle_length := Z.of_nat (length needle) in
  let opt_offset := IndexOfOffset haystack_length byteOffset needle_length in
  if needle_length =? 0 then opt_offset
  else if haystack_length =? 0 then -1
  else if opt_offset <=? -1 then -1
  else if haystack_length <? needle_length + opt_offset then -1
  else search needle (drop (Z.to_nat opt_offset) buffer) opt_offset.

(** lib/buffer.js, [adjustOffset]: negative offsets count from the end,
    and the result is clamped to [0, length]. *)
Definition adjustOffset (offset length : Z) : Z :=
  if offset =? 0 then 0
  else if offset <? 0 then
    (if 0 <? offset + length then offset + length else 0)
  else if offset <? length then offset
  else length.

(** [buffer.slice(start, end)]. *)
Definition Buffer_slice (buffer : Buffer) (start end_ : Z) : Buffer :=
  let srcLength := Z.of_nat (length buffer) in
  let start := adjustOffset start srcLength in
  let end_ := adjustOffset end_ srcLength in
  let newLength := if start <? end_ then end_ - start else 0 in
  take (Z.to_nat newLength) (drop (Z.to_nat start) buffer).

(** ** Runtime: text *)

Local Open Scope N_scope.

(** A code point as UTF-16 code units. *)
Definition utf16_units (c : N) : jsstring :=
  if c <? 0x10000 then [c]
  else [0xD800 + N.shiftr (c - 0x10000) 10; 0xDC00 + N.land (c - 0x10000) 0x3FF].

(** The decoder between two characters: what a first byte emits, and the
    sequence it opens (code point so far, bytes still needed, and the range
    allowed for the next byte). *)
Definition utf8_lead (b : N) : jsstring * option (N * N * N * N) :=
  if b <=? 0x7F then ([b], None)
  else if (0xC2 <=? b) && (b <=? 0xDF) then
    ([], Some (N.land b 0x1F, 1, 0x80, 0xBF))
  else if (0xE0 <=? b) && (b <=? 0xEF) then
    ([], Some (N.land b 0xF, 2,
               (if b =? 0xE0 then 0xA0 else 0x80),
               (if b =? 0xED then 0x9F else 0xBF)))
  else if (0xF0 <=? b) && (b <=? 0xF4) then
    ([], Some (N.land b 0x7, 3,
               (if b =? 0xF0 then 0x90 else 0x80),
               (if b =? 0xF4 then 0x8F else 0xBF)))
  else ([0xFFFD], None).

(** UTF-8 decoding as [buffer.toString()] does it: every maximal ill-formed
    subsequence becomes one U+FFFD, and the byte that ends an ill-formed
    sequence is read again as a first byte. *)
Fixpoint utf8_decode (st : option (N * N * N * N)) (bs : Buffer) : jsstring :=
  match bs with
  | [] => match st with None => [] | Some _ => [0xFFFD] end
  | x :: bs' =>
      let b := Byte.to_N x in
      match st with
      | None =>
          let '(out, st') := utf8_lead b in out ++ utf8_decode st' bs'
      | Some (c, rem, lo, hi) =>
          if (lo <=? b) && (b <=? hi) then
            let c' := N.lor (N.shiftl c 6) (N.land b 0x3F) in
            if rem =? 1 then utf16_units c' ++ utf8_decode None bs'
            else utf8_decode (Some (c', rem - 1, 0x80, 0xBF)) bs'
          else
            let '(out, st') := utf8_lead b in
            0xFFFD :: out ++ utf8_decode st' bs'
      end
  end.

(** [buffer.toString()]. *)
Definition Buffer_toString (buffer : Buffer) : jsstring :=
  utf8_decode None buffer.

Definition byte_of_N (n : N) : byte :=
  default x00 (Byte.of_N n).

(** A code point as UTF-8 bytes. *)
Definition utf8_bytes (c : N) : Buffer :=
  map byte_of_N
    (if c <? 0x80 then [c]
     else if c <? 0x800 then
       [0xC0 + N.shiftr c 6; 0x80 + N.land c 0x3F]
     else if c <? 0x10000 then
       [0xE0 + N.shiftr c 12; 0x80 + N.land (N.shiftr c 6) 0x3F;
        0x80 + N.land c 0x3F]
     else
       [0xF0 + N.shiftr c 18; 0x80 + N.land (N.shiftr c 12) 0x3F;
        0x80 + N.land (N.shiftr c 6) 0x3F; 0x80 + N.land c 0x3F]).

Definition is_high_surrogate (u : N) : bool := (0xD800 <=? u) && (u <=? 0xDBFF).
Definition is_low_surrogate (u : N) : bool := (0xDC00 <=? u) && (u <=? 0xDFFF).

(** The bytes a string argument of [buffer.indexOf] stands for: its UTF-8
    encoding.  A surrogate pair is one code point of four bytes; a
    surrogate without its partner is written as the three bytes of its own
    value. *)
Fixpoint utf8_encode (s : jsstring) : Buffer :=
  match s with
  | [] => []
  | u :: s' =>
      if is_high_surrogate u then
        match s' with
        | v :: s'' =>
            if is_low_surrogate v then
              utf8_bytes (0x10000 + (u - 0xD800) * 0x400 + (v - 0xDC00))
                ++ utf8_encode s''
            else utf8_bytes u ++ utf8_encode s'
        | [] => utf8_bytes u
        end
      else utf8_bytes u ++ utf8_encode s'
  end.

(** [string.toLowerCase()] on the letters A to Z.  Code units outside ASCII
    are kept: the two keys the parser reads, [content-disposition] and
    [content-type], hold no letter that is the lower case of a non-ASCII
    character, so what it reads does not depend on them. *)
Definition toLowerCase (s : jsstring) : jsstring :=
  map (fun c => if (65 <=? c) && (c <=? 90) then c + 32 else c) s.

(** [s.split(sep)] for a non-empty separator, the only kind the parser
    passes: [cur] is the piece being read, [skip] the number of code units
    of a separator still to pass over. *)
Fixpoint split_from (sep : jsstring) (skip : nat) (cur s : jsstring)
  : list jsstring :=
  match s with
  | [] => [cur]
  | c :: s' =>
      match skip with
      | S k => split_from sep k cur s'
      | O =>
          if starts_with sep s
          then cur :: split_from sep (length sep - 1) [] s'
          else split_from sep 0 (cur ++ [c]) s'
      end
  end.

Definition String_split (s sep : jsstring) : list jsstring :=
  split_from sep 0 [] s.

(** The character class of the two patterns: any code unit but the
    semicolon and the double quote. *)
Definition attr_char (c : N) : bool :=
  negb ((c =? 59) || (c =? 34)).

(** The longest run of such code units at the head of [s], and what
    follows it. *)
Fixpoint span_attr (s : jsstring) : jsstring * jsstring :=
  match s with
  | [] => ([], [])
  | c :: s' =>
      if attr_char c
      then let '(run, rest) := span_attr s' in (c :: run, rest)
      else ([], s)
  end.

(** One attempt at the head of [s] of the pattern: the literal [lit], a
    group of one or more code units of the class, a double quote.  The
    class excludes the quote, so only the longest run can be followed by
    one. *)
Definition match_quoted_here (lit s : jsstring) : option jsstring :=
  if starts_with lit s then
    let '(run, rest) := span_attr (drop (length lit) s) in
    match run, rest with
    | _ :: _, q :: _ => if q =? 34 then Some run else None
    | _, _ => None
    end
  else None.

(** [exec] of that pattern on [s]: the first group of the leftmost match,
    [None] for [null]. *)
Fixpoint regex_exec_quoted (lit s : jsstring) : option jsstring :=
  match match_quoted_here lit s with
  | Some group => Some group
  | None =>
      match s with
      | [] => None
      | _ :: s' => regex_exec_quoted lit s'
      end
  end.

(** [String(v)] for a value that is a string or [undefined] ([None]). *)
Definition ToString (v : option jsstring) : jsstring :=
  default (js "undefined") v.

End Runtime.

(** ** The decoder *)

Import Runtime.

(** What a part decodes to: the text of a field, or the object
    [{filename, contentType, data}] of a file. *)
Inductive FormValue :=
| Field (text : jsstring)
| File (filename contentType : jsstring) (data : Buffer).

(** The object [headers] of [parseContent]: its own properties, each
    holding a string or [undefined] ([None]). *)
Abbreviation Headers := (gmap jsstring (option jsstring)).

(** [headers[key] = value].  The key [__proto__] reaches the setter of
    [Object.prototype], which ignores a value that is no object. *)
Definition Headers_set (key : jsstring) (value : option jsstring)
    (headers : Headers) : Headers :=
  if decide (key = js "__proto__") then headers
  else <[key := value]> headers.

(** [headers[key]]: [undefined] for a key the object does not own. *)
Definition Headers_get (headers : Headers) (key : jsstring) : option jsstring :=
  default None (headers !! key).

(** The object [formData] of [processBody]: its prototype ([None] for
    [Object.prototype]) and its own properties. *)
Record FormData := {
  fd_proto : option FormValue;
  fd_own : gmap jsstring FormValue
}.

Definition FormData_empty : FormData :=
  {| fd_proto := None; fd_own := ∅ |}.

(** [formData[key] = value].  Under the key [__proto__] a file object
    becomes the prototype and a string is ignored. *)
Definition FormData_set (key : jsstring) (value : FormValue)
    (formData : FormData) : FormData :=
  if decide (key = js "__proto__") then
    match value with
    | File _ _ _ => {| fd_proto := Some value; fd_own := fd_own formData |}
    | Field _ => formData
    end
  else {| fd_proto := fd_proto formData;
          fd_own := <[key := value]> (fd_own formData) |}.

(** The body of the [forEach] over the header lines. *)
Definition header_line (headers : Headers) (line : jsstring) : Headers :=
  let parts := String_split line (js ": ") in
  let key := toLowerCase (default [] (parts !! 0%nat)) in
  let value := parts !! 1%nat in
  Headers_set key value headers.

Definition parseHeaders (head : jsstring) : Headers :=
  foldl header_line ∅ (String_split head (Buffer_toString CRLF)).

(** The one call [parseContent] makes of its callback: [callback(err)] or
    [callback(false, [name, value])]. *)
Inductive ParseResult :=
| ParseErr (err : jsstring)
| ParseOk (name : jsstring) (value : FormValue).

Definition no_name_error : jsstring :=
  js "No name in multipart content header".

(** The two patterns of [parseContent], up to the group. *)
Definition name_literal : jsstring := js ("name=" +:+ dquote).
Definition filename_literal : jsstring := js ("filename=" +:+ dquote).

(** The three slices [parseContent] takes of a part. *)
Definition part_index (buffer : Buffer) : Z :=
  Buffer_indexOf buffer DOUBLE_CRLF 0.

Definition part_head (buffer : Buffer) : jsstring :=
  Buffer_toString (Buffer_slice buffer 0 (part_index buffer)).

Definition part_body (buffer : Buffer) : Buffer :=
  Buffer_slice buffer (part_index buffer + 4) (Z.of_nat (length buffer) - 4).

Definition parseContent (buffer : Buffer) : ParseResult :=
  let head := part_head buffer in
  let body := part_body buffer in
  let headers := parseHeaders head in
  let disposition := ToString (Headers_get headers (js "content-disposition")) in
  match regex_exec_quoted name_literal disposition with
  | None => ParseErr no_name_error
  | Some name =>
      match regex_exec_quoted filename_literal disposition with
      | Some filename =>
          let contentType :=
            match Headers_get headers (js "content-type") with
            | None | Some [] => js "application/octet-stream"
            | Some contentType => contentType
            end in
          ParseOk name (File filename contentType body)
      | None => ParseOk name (Field (Buffer_toString body))
      end
  end.

(** The state of the loop of [splitContentParts]. *)
Record SplitState := {
  parts : list Buffer;
  start : Z;
  end_ : Z
}.

Section SplitContentParts.
Variable buffer : Buffer.
Variable boundary : jsstring.

(** [boundary.length] counts code units; [buffer.indexOf(boundary, _)]
    searches the bytes of its encoding. *)
Definition boundary_length : Z := Z.of_nat (length boundary).

Definition split_init : SplitState :=
  let start :=
    Buffer_indexOf buffer (utf8_encode (js "--" ++ boundary)) 0
      + boundary_length + 2 in
  {| parts := []; start := start;
     end_ := Buffer_indexOf buffer (utf8_encode boundary) start |}.

(** One turn of [while(end > start)]: [None] when the test fails. *)
Definition split_step (st : SplitState) : option SplitState :=
  if start st <? end_ st then
    let start' := end_ st + boundary_length in
    Some {| parts := parts st ++ [Buffer_slice buffer (start st) (end_ st)];
            start := start';
            end_ := Buffer_indexOf buffer (utf8_encode boundary) start' |}
  else None.

(** The loop, run for at most [fuel] tests of its condition. *)
Fixpoint split_loop (fuel : nat) (st : SplitState) : option (list Buffer) :=
  match fuel with
  | O => None
  | S fuel' =>
      match split_step st with
      | None => Some (parts st)
      | Some st' => split_loop fuel' st'
      end
  end.

Definition splitContentParts_fuel (fuel : nat) : option (list Buffer) :=
  split_loop fuel split_init.

(** [splitContentParts(buffer, boundary)]: one test of the condition per
    byte of the buffer, and one more, are enough ([split_loop_total]). *)
Definition splitContentParts : list Buffer :=
  default [] (splitContentParts_fuel (S (length buffer))).
End SplitContentParts.

(** A call of the callback of [processBody]: [callback(err)] or
    [callback(false, formData)]. *)
Inductive Callback :=
| CallErr (err : jsstring)
| CallOk (contents : FormData).

(** The body of the [forEach] over the parts: the calls made so far and
    the object [formData]. *)
Definition processPart (acc : list Callback * FormData) (content : Buffer)
  : list Callback * FormData :=
  match parseContent content with
  | ParseErr err => (acc.1 ++ [CallErr err], acc.2)
  | ParseOk name value => (acc.1, FormData_set name value acc.2)
  end.

(** [processBody(buffer, boundary, callback)]: the calls of [callback], in
    order. *)
Definition processBody (buffer : Buffer) (boundary : jsstring) : list Callback :=
  let acc := foldl processPart ([], FormData_empty)
                   (splitContentParts buffer boundary) in
  acc.1 ++ [CallOk acc.2].

(** ** Sample requests *)

Definition crlf : string :=
  String (ascii_of_nat 13) (String (ascii_of_nat 10) EmptyString).

Definition disposition_line (attrs : string) : string :=
  "Content-Disposition: form-data; " +:+ attrs.

Definition attr (name value : string) : string :=
  name +:+ "=" +:+ dquote +:+ value +:+ dquote.

(** One part as it stands in a body: the delimiter line, the header lines,
    the blank line, the body and its line end. *)
Definition sample_part (boundary headers body : string) : string :=
  "--" +:+ boundary +:+ crlf +:+ headers +:+ crlf +:+ crlf +:+ body +:+ crlf.

Definition sample_close (boundary : string) : string :=
  "--" +:+ boundary +:+ "--" +:+ crlf.

(** One field [title] with the body [Hello]. *)
Definition sample_title : Buffer :=
  bytes (sample_part "XYZ" (disposition_line (attr "name" "title")) "Hello"
         +:+ sample_close "XYZ").

(** ** More sample requests *)

(** A part as the locator hands it to [parseContent]: from the line end
    after the delimiter to the two dashes before the next token. *)
Definition raw_part (headers body : string) : Buffer :=
  bytes (crlf +:+ headers +:+ crlf +:+ crlf +:+ body +:+ crlf +:+ "--").

(** The same with one line end, and no blank line, before the body. *)
Definition raw_part_no_blank_line (headers body : string) : Buffer :=
  bytes (crlf +:+ headers +:+ crlf +:+ body +:+ crlf +:+ "--").

(** Two parts, the second with a disposition that names nothing. *)
Definition sample_second_nameless : Buffer :=
  bytes (sample_part "XYZ" (disposition_line (attr "name" "title")) "Hello"
         +:+ sample_part "XYZ" "Content-Disposition: form-data" "World"
         +:+ sample_close "XYZ").

(** A disposition with a [filename] attribute and no [name] attribute. *)
Definition sample_filename_only : Buffer :=
  raw_part (disposition_line (attr "filename" "a.txt")) "data".

(** A disposition with a name and an empty [filename]. *)
Definition sample_empty_filename : Buffer :=
  raw_part (disposition_line (attr "name" "doc" +:+ "; " +:+ attr "filename" EmptyString))
           "data".

(** Header lines without a separator and with two of them. *)
Definition sample_odd_header_lines : Buffer :=
  raw_part ("garbage" +:+ crlf +:+ "X-A: b: c" +:+ crlf
            +:+ disposition_line (attr "name" "title")) "Hello".

Definition sample_no_blank_line : Buffer :=
  raw_part_no_blank_line (disposition_line (attr "name" "title")) "Hello".

(** Two delimiters with nothing between them, then a part. *)
Definition sample_adjacent_delimiters : Buffer :=
  bytes ("--XYZ"
         +:+ sample_part "XYZ" (disposition_line (attr "name" "title")) "Hello"
         +:+ sample_close "XYZ").

(** A disposition with a name and a file name. *)
Definition sample_file_part : Buffer :=
  raw_part (disposition_line (attr "name" "doc" +:+ "; " +:+ attr "filename" "a.txt"))
           "data".

(** The sample body after a preamble. *)
Definition sample_preamble : Buffer :=
  bytes ("preamble" +:+ crlf) ++ sample_title.



(** ** Reading the calls of the callback *)

(** The caller is handed a form-data object. *)
Definition returns_form_data (calls : list Callback) : Prop :=
  ∃ formData, CallOk formData ∈ calls.

(** The decode fails: an error is reported and no form-data object is
    handed over. *)
Definition decode_fails (calls : list Callback) : Prop :=
  (∃ err, CallErr err ∈ calls) ∧ ¬ returns_form_data calls.

(** ** Predicates of the statements *)

(** [needle] stands somewhere in [hay]. *)
Definition occurs {A} (needle hay : list A) : Prop :=
  ∃ pre post, hay = pre ++ needle ++ post.

(** What the loop keeps true: [start] is not negative and [end] is the
    result of the search from [start]. *)
Definition split_inv (buffer : Buffer) (boundary : jsstring)
    (st : SplitState) : Prop :=
  0 ≤ start st
  ∧ end_ st = Buffer_indexOf buffer (utf8_encode boundary) (start st).

(** The value of the [content-disposition] header as the two patterns read
    it. *)
Definition part_disposition (buffer : Buffer) : jsstring :=
  ToString (Headers_get (parseHeaders (part_head buffer))
                        (js "content-disposition")).

(** The disposition carries a [filename] attribute with the value
    [filename]: it holds the text [filename=], a double quote, the value,
    made of one or more characters other than the semicolon and the double
    quote, and a double quote. *)
Definition has_filename_value (disposition filename : jsstring) : Prop :=
  ∃ pre post,
    disposition = pre ++ filename_literal ++ filename ++ 34%N :: post
    ∧ filename ≠ []
    ∧ Forall (λ c, c ≠ 59%N ∧ c ≠ 34%N) filename.

(** A part as it stands between two delimiters, given as its header block
    and its body: the header block, the blank line, the body and one line
    end. *)
Definition wire_part (part : Buffer * Buffer) : Buffer :=
  part.1 ++ DOUBLE_CRLF ++ part.2 ++ CRLF.

(** ** The request handler [multipart] *)

(** How a call ends: it returns, or it throws; either way with the state
    as the call left it. *)
Inductive Outcome (S : Type) :=
| Returned (s : S)
| Threw (s : S).
Arguments Returned {S} s.
Arguments Threw {S} s.

(** [processBody(buffer, boundary, callback)] with the callback as a
    function on a state: the [forEach] over the parts, each failing part
    calling the callback, then the call with the form data.  An exception
    thrown by the callback leaves the whole call. *)
Fixpoint processParts {S} (callback : Callback → S → Outcome S)
    (contents : list Buffer) (formData : FormData) (s : S) : Outcome S :=
  match contents with
  | [] => callback (CallOk formData) s
  | content :: contents' =>
      match parseContent content with
      | ParseErr err =>
          match callback (CallErr err) s with
          | Returned s' => processParts callback contents' formData s'
          | Threw s' => Threw s'
          end
      | ParseOk name value =>
          processParts callback contents' (FormData_set name value formData) s
      end
  end.

Definition processBody_with {S} (callback : Callback → S → Outcome S)
    (buffer : Buffer) (boundary : jsstring) (s : S) : Outcome S :=
  processParts callback (splitContentParts buffer boundary) FormData_empty s.

(** A callback run on a list of calls, up to the first exception. *)
Fixpoint run_calls {S} (callback : Callback → S → Outcome S)
    (calls : list Callback) (s : S) : Outcome S :=
  match calls with
  | [] => Returned s
  | call :: calls' =>
      match callback call s with
      | Returned s' => run_calls callback calls' s'
      | Threw s' => Threw s'
      end
  end.

(** A line written by [console.log] or [console.error]. *)
Inductive ConsoleLine :=
| ConsoleLog (text : jsstring)
| ConsoleError (text : jsstring).

(** What the handlers read and write of the request and the response, and
    what they leave on the console and ask of the file system:
    [req.body], [req.statusCode] and [req.statusMessage] as the handlers
    set them ([None] for not set), [res.statusCode], [res.statusMessage],
    the arguments of the calls of [res.end] ([None] for a call without
    argument), and the calls of [fs.writeFile]. *)
Record Exchange := {
  req_body : option FormData;
  req_statusCode : option Z;
  req_statusMessage : option jsstring;
  res_statusCode : Z;
  res_statusMessage : option jsstring;
  res_end : list (option jsstring);
  console : list ConsoleLine;
  fs_writeFile : list (jsstring * Buffer)
}.

(** A request as it arrives: no body attached, the status 200. *)
Definition Exchange_new : Exchange :=
  {| req_body := None; req_statusCode := None; req_statusMessage := None;
     res_statusCode := 200; res_statusMessage := None;
     res_end := []; console := []; fs_writeFile := [] |}.

Definition set_req_body (body : option FormData) (x : Exchange) : Exchange :=
  {| req_body := body; req_statusCode := req_statusCode x;
     req_statusMessage := req_statusMessage x;
     res_statusCode := res_statusCode x;
     res_statusMessage := res_statusMessage x;
     res_end := res_end x; console := console x;
     fs_writeFile := fs_writeFile x |}.

Definition set_req_status (code : Z) (message : jsstring) (x : Exchange)
  : Exchange :=
  {| req_body := req_body x; req_statusCode := Some code;
     req_statusMessage := Some message;
     res_statusCode := res_statusCode x;
     res_statusMessage := res_statusMessage x;
     res_end := res_end x; console := console x;
     fs_writeFile := fs_writeFile x |}.

Definition set_res_status (code : Z) (message : jsstring) (x : Exchange)
  : Exchange :=
  {| req_body := req_body x; req_statusCode := req_statusCode x;
     req_statusMessage := req_statusMessage x;
     res_statusCode := code; res_statusMessage := Some message;
     res_end := res_end x; console := console x;
     fs_writeFile := fs_writeFile x |}.

Definition call_res_end (data : option jsstring) (x : Exchange) : Exchange :=
  {| req_body := req_body x; req_statusCode := req_statusCode x;
     req_statusMessage := req_statusMessage x;
     res_statusCode := res_statusCode x;
     res_statusMessage := res_statusMessage x;
     res_end := res_end x ++ [data]; console := console x;
     fs_writeFile := fs_writeFile x |}.

Definition write_console (line : ConsoleLine) (x : Exchange) : Exchange :=
  {| req_body := req_body x; req_statusCode := req_statusCode x;
     req_statusMessage := req_statusMessage x;
     res_statusCode := res_statusCode x;
     res_statusMessage := res_statusMessage x;
     res_end := res_end x; console := console x ++ [line];
     fs_writeFile := fs_writeFile x |}.

Definition call_fs_writeFile (path : jsstring) (data : Buffer) (x : Exchange)
  : Exchange :=
  {| req_body := req_body x; req_statusCode := req_statusCode x;
     req_statusMessage := req_statusMessage x;
     res_statusCode := res_statusCode x;
     res_statusMessage := res_statusMessage x;
     res_end := res_end x; console := console x;
     fs_writeFile := fs_writeFile x ++ [(path, data)] |}.

(** The line terminators, which the dot of a pattern does not match. *)
Definition line_terminator (c : N) : bool :=
  ((c =? 10) || (c =? 13) || (c =? 0x2028) || (c =? 0x2029))%N.

(** The longest run without a line terminator at the head of [s]. *)
Fixpoint span_line (s : jsstring) : jsstring :=
  match s with
  | [] => []
  | c :: s' => if line_terminator c then [] else c :: span_line s'
  end.

Definition boundary_literal : jsstring := js "boundary=".

(** One attempt at the head of [s] of the pattern of [multipart]: the
    literal, a group of one or more code units that are no line
    terminators, an optional semicolon.  The group is greedy and the
    semicolon optional, so the group is the longest run. *)
Definition match_boundary_here (s : jsstring) : option jsstring :=
  if starts_with boundary_literal s then
    match span_line (drop (length boundary_literal) s) with
    | [] => None
    | group => Some group
    end
  else None.

(** [exec] of that pattern: the group of the leftmost match. *)
Fixpoint boundary_exec (s : jsstring) : option jsstring :=
  match match_boundary_here s with
  | Some group => Some group
  | None =>
      match s with
      | [] => None
      | _ :: s' => boundary_exec s'
      end
  end.

Section Multipart.
(** [next], the rest of the pipeline. *)
Variable next : Exchange → Outcome Exchange.

(** The callback [multipart] hands to [processBody]. *)
Definition multipart_callback (call : Callback) (x : Exchange)
  : Outcome Exchange :=
  match call with
  | CallErr [] => next (set_req_body None x)
  | CallErr err =>
      next (set_req_body None
             (call_res_end None
               (set_res_status 500 (js "Server error")
                 (write_console (ConsoleLog err) x))))
  | CallOk contents => next (set_req_body (Some contents) x)
  end.

(** The listener of [end]: [contentType] is
    [req.headers['content-type']]. *)
Definition multipart_on_end (contentType : option jsstring)
    (chunks : list Buffer) (x : Exchange) : Outcome Exchange :=
  let body := concat chunks in
  match boundary_exec (ToString contentType) with
  | Some (c :: boundary) =>
      processBody_with multipart_callback body (c :: boundary) x
  | _ =>
      Returned
        (call_res_end None
          (set_req_status 400 (js "Malformed multipart request")
            (write_console
               (ConsoleError (js "No multipart boundary defined.")) x)))
  end.

(** The listener of [error]. *)
Definition multipart_on_error (err : jsstring) (x : Exchange) : Exchange :=
  call_res_end (Some (js "Server err"))
    (set_res_status 500 (js "Server error")
      (write_console (ConsoleLog err) x)).

(** The events of a request stream. *)
Inductive RequestEvent :=
| OnData (chunk : Buffer)
| OnEnd
| OnError (err : jsstring).

(** [multipart(req, res, next)] on the events of the request, in order:
    [chunks] is the array the listener of [data] fills. *)
Fixpoint multipart_events (contentType : option jsstring)
    (events : list RequestEvent) (chunks : list Buffer) (x : Exchange)
  : Outcome Exchange :=
  match events with
  | [] => Returned x
  | OnData chunk :: events' =>
      multipart_events contentType events' (chunks ++ [chunk]) x
  | OnEnd :: events' =>
      match multipart_on_end contentType chunks x with
      | Returned x' => multipart_events contentType events' chunks x'
      | Threw x' => Threw x'
      end
  | OnError err :: events' =>
      multipart_events contentType events' chunks (multipart_on_error err x)
  end.

Definition multipart (contentType : option jsstring)
    (events : list RequestEvent) (x : Exchange) : Outcome Exchange :=
  multipart_events contentType events [] x.
End Multipart.

(** ** The caller [uploadPioneer] *)

(** The function [uploadPioneer] passes to [multipart] as [next], up to
    its call of [fs.writeFile].  [req.body.image] reads an own property of
    the form data: neither a file object set as its prototype nor
    [Object.prototype] has a property [image].  Reading a property of
    [undefined] throws. *)
Definition uploadPioneer_next (x : Exchange) : Outcome Exchange :=
  match req_body x with
  | None => Threw x
  | Some body =>
      match fd_own body !! js "image" with
      | None => Threw x
      | Some (File (c :: filename) contentType data) =>
          if decide (contentType = js "image/jpeg") then
            Returned (call_fs_writeFile (js "images/" ++ c :: filename) data x)
          else
            Returned
              (call_res_end (Some (js "Your image file must be a JPEG"))
                (set_res_status 400 (js "Must be type image/jpeg") x))
      | Some _ =>
          Returned
            (call_res_end (Some (js "No file specified"))
              (set_res_status 400 (js "No file specified")
                (write_console (ConsoleError (js "No file in upload")) x)))
      end
  end.

(** ** Well-formed bodies *)

(** The bytes of a text of ASCII characters. *)
Definition ascii_bytes (s : jsstring) : Buffer := map byte_of_N s.

(** Text that UTF-8 carries: code units below 2^16, every surrogate in a
    pair. *)
Fixpoint scalar_text (s : jsstring) : bool :=
  match s with
  | [] => true
  | u :: s' =>
      if is_high_surrogate u then
        match s' with
        | v :: s'' => is_low_surrogate v && scalar_text s''
        | [] => false
        end
      else negb (is_low_surrogate u) && (u <? 0x10000)%N && scalar_text s'
  end.

(** [needle] stands somewhere in [hay], as the search decides it. *)
Definition stands_in (needle hay : jsstring) : bool :=
  negb (search needle hay 0 =? -1).

(** The text of a header value: text that UTF-8 carries, without a
    carriage return, and nowhere in it a colon followed by a space, which
    separate the name of a header from its value. *)
Definition header_text (s : jsstring) : bool :=
  scalar_text s && forallb (λ c, negb (c =? 13)%N) s
  && negb (stands_in (js ": ") s).

Definition nonempty {A} (l : list A) : bool :=
  match l with [] => false | _ :: _ => true end.

(** The text of a name or a file name: such a text, not empty, without
    the semicolon and the double quote. *)
Definition attr_text (s : jsstring) : bool :=
  nonempty s && header_text s && forallb attr_char s.

(** A part to send: a field, or a file with or without a content type. *)
Inductive PartSpec :=
| FieldPart (name : jsstring) (body : Buffer)
| FilePart (name filename : jsstring) (contentType : option jsstring)
    (body : Buffer).

Definition spec_name (p : PartSpec) : jsstring :=
  match p with FieldPart name _ | FilePart name _ _ _ => name end.

Definition spec_body (p : PartSpec) : Buffer :=
  match p with FieldPart _ body | FilePart _ _ _ body => body end.

(** A well-formed part: its name and its file name are such texts, and
    its content type, when it has one, is a header text that is not
    empty.  The body is any bytes. *)
Definition wf_part (p : PartSpec) : bool :=
  match p with
  | FieldPart name _ => attr_text name
  | FilePart name filename contentType _ =>
      attr_text name && attr_text filename
      && match contentType with
         | Some type => nonempty type && header_text type
         | None => true
         end
  end.

(** The value of the [Content-Disposition] header of a part. *)
Definition spec_disposition (p : PartSpec) : jsstring :=
  match p with
  | FieldPart name _ => js "form-data; " ++ name_literal ++ name ++ [34%N]
  | FilePart name filename _ _ =>
      js "form-data; " ++ name_literal ++ name ++ [34%N]
        ++ js "; " ++ filename_literal ++ filename ++ [34%N]
  end.

(** The header lines of a part. *)
Definition spec_lines (p : PartSpec) : list jsstring :=
  (js "Content-Disposition: " ++ spec_disposition p)
  :: match p with
     | FilePart _ _ (Some type) _ => [js "Content-Type: " ++ type]
     | _ => []
     end.

(** The bytes of the header lines, each after a line end and encoded as
    UTF-8. *)
Definition header_block (lines : list jsstring) : Buffer :=
  concat (map (λ line, CRLF ++ utf8_encode line) lines).

(** A part on the wire, from the line end after its delimiter to the two
    dashes of the next one. *)
Definition encode_part (p : PartSpec) : Buffer :=
  header_block (spec_lines p) ++ DOUBLE_CRLF ++ spec_body p ++ CRLF ++ bytes "--".

(** What the part is to decode to. *)
Definition spec_value (p : PartSpec) : FormValue :=
  match p with
  | FieldPart _ body => Field (Buffer_toString body)
  | FilePart _ filename contentType body =>
      File filename (default (js "application/octet-stream") contentType) body
  end.

(** A body framed by the token: the first delimiter, each part followed by
    the token, and what comes after the last token. *)
Definition frame (boundary : jsstring) (contents : list Buffer)
    (tail : Buffer) : Buffer :=
  utf8_encode (js "--" ++ boundary)
    ++ concat (map (λ content, content ++ utf8_encode boundary) contents)
    ++ tail.

(** The contents a framed body is cut back into: none is empty, and the
    token stands nowhere in a content followed by all but the last byte of
    the token. *)
Definition framed_content (boundary : jsstring) (content : Buffer) : Prop :=
  content ≠ []
  ∧ ¬ occurs (utf8_encode boundary)
        (content ++ removelast (utf8_encode boundary)).

(** A token of ASCII characters that is not empty and stands nowhere in
    the two dashes and the line end that close a body. *)
Definition ascii_token (boundary : jsstring) : Prop :=
  boundary ≠ []
  ∧ forallb (λ c, c <? 128)%N boundary = true
  ∧ ¬ occurs (utf8_encode boundary) (bytes "--" ++ CRLF).

(** A part that can be sent under the token: well formed, and the token
    stands nowhere in its bytes followed by all but the last byte of the
    token. *)
Definition sendable (boundary : jsstring) (p : PartSpec) : Prop :=
  wf_part p = true
  ∧ ¬ occurs (utf8_encode boundary)
        (encode_part p ++ removelast (utf8_encode boundary)).

(** A whole body: the parts framed, closed by two dashes and a line end. *)
Definition encode_body (boundary : jsstring) (ps : list PartSpec) : Buffer :=
  frame boundary (map encode_part ps) (bytes "--" ++ CRLF).

(** A content that parses to an error. *)
Definition fails_to_parse (content : Buffer) : bool :=
  match parseContent content with ParseErr _ => true | ParseOk _ _ => false end.

(** The form data the parts are to decode to. *)
Definition spec_formData (ps : list PartSpec) : FormData :=
  foldl (λ formData p, FormData_set (spec_name p) (spec_value p) formData)
        FormData_empty ps.

(** ** Facts about the runtime *)

Section RuntimeFacts.
Context {A : Type} `{EqDecision A}.
Implicit Types pat needle hay s : list A.

Lemma starts_with_app pat rest : starts_with pat (pat ++ rest) = true.
Proof.
  induction pat as [|p pat IH]; simpl; [done|].
  rewrite bool_decide_true by done. exact IH.
Qed.

Lemma starts_with_inv pat s :
  starts_with pat s = true → s = pat ++ drop (length pat) s.
Proof.
  revert s. induction pat as [|p pat IH]; intros [|c s]; simpl; try done.
  intros [Hpc Hrest]%andb_prop.
  apply bool_decide_eq_true in Hpc. subst c.
  f_equal. by apply IH.
Qed.

Lemma starts_with_length pat s :
  starts_with pat s = true → (length pat ≤ length s)%nat.
Proof.
  intros Hs. rewrite (starts_with_inv _ _ Hs), length_app. lia.
Qed.

Lemma starts_with_occurs pat s k :
  starts_with pat (drop k s) = true → occurs pat s.
Proof.
  intros Hs. exists (take k s), (drop (length pat) (drop k s)).
  rewrite <- (starts_with_inv _ _ Hs). by rewrite take_drop.
Qed.

(** What [search] returns: [-1], or a position in range where the needle
    starts. *)
Lemma search_found needle hay pos :
  search needle hay pos = -1 ∨
  ∃ k : nat, search needle hay pos = pos + Z.of_nat k
             ∧ (k < length hay)%nat
             ∧ starts_with needle (drop k hay) = true.
Proof.
  revert pos. induction hay as [|c hay IH]; intros pos; simpl; [by left|].
  destruct (starts_with needle (c :: hay)) eqn:Hs.
  - right. exists 0%nat. simpl. rewrite Hs. split_and!; [lia|lia|done].
  - destruct (IH (pos + 1)) as [Hn|(k & Hk & Hlt & Hsw)]; [by left|].
    right. exists (S k). simpl. split_and!; [lia|lia|done].
Qed.

Lemma search_none needle hay pos :
  ¬ occurs needle hay → search needle hay pos = -1.
Proof.
  intros Hno. destruct (search_found needle hay pos)
    as [Hn|(k & _ & _ & Hsw)]; [done|].
  destruct Hno. by eapply starts_with_occurs.
Qed.

Lemma search_here needle hay pos :
  hay ≠ [] → starts_with needle hay = true → search needle hay pos = pos.
Proof. destruct hay; [done|]. intros _ Hs. simpl. by rewrite Hs. Qed.

Lemma occurs_drop needle hay k : occurs needle (drop k hay) → occurs needle hay.
Proof.
  intros (pre & post & Heq). exists (take k hay ++ pre), post.
  rewrite <- (take_drop k hay) at 1. rewrite Heq. by rewrite <- app_assoc.
Qed.
End RuntimeFacts.

Lemma IndexOfOffset_nonneg length offset needle_length :
  0 ≤ offset →
  IndexOfOffset length offset needle_length =
    if offset + needle_length <=? length then offset
    else if needle_length =? 0 then length else -1.
Proof.
  intros Hoff. unfold IndexOfOffset.
  destruct (Z.ltb_spec offset 0); [lia|done].
Qed.

(** From a non-negative offset, [indexOf] returns [-1] or a position at or
    after the offset where the whole needle fits. *)
Lemma Buffer_indexOf_range (buffer needle : Buffer) offset :
  needle ≠ [] → 0 ≤ offset →
  Buffer_indexOf buffer needle offset = -1 ∨
  (offset ≤ Buffer_indexOf buffer needle offset
   ∧ Buffer_indexOf buffer needle offset + Z.of_nat (length needle)
       ≤ Z.of_nat (length buffer)).
Proof.
  intros Hne Hoff. unfold Buffer_indexOf.
  rewrite IndexOfOffset_nonneg by done.
  assert (0 < Z.of_nat (length needle)) by (destruct needle; [done|simpl; lia]).
  destruct (Z.eqb_spec (Z.of_nat (length needle)) 0); [lia|].
  destruct (Z.eqb_spec (Z.of_nat (length buffer)) 0); [by left|].
  destruct (Z.leb_spec (offset + Z.of_nat (length needle)) (Z.of_nat (length buffer)));
    [|by left].
  destruct (Z.leb_spec offset (-1)); [lia|].
  destruct (Z.ltb_spec (Z.of_nat (length buffer)) (Z.of_nat (length needle) + offset));
    [lia|].
  destruct (search_found needle (drop (Z.to_nat offset) buffer) offset)
    as [Hn|(k & Hk & Hlt & Hsw)]; [by left|].
  right. rewrite Hk. apply starts_with_length in Hsw.
  rewrite !length_drop in *. lia.
Qed.

(** An empty needle is found at the offset, or at the end of the buffer. *)
Lemma Buffer_indexOf_empty (buffer : Buffer) offset :
  0 ≤ offset → Buffer_indexOf buffer [] offset ≤ offset.
Proof.
  intros Hoff. unfold Buffer_indexOf. rewrite IndexOfOffset_nonneg by done.
  simpl. rewrite Z.add_0_r.
  destruct (Z.leb_spec offset (Z.of_nat (length buffer))); lia.
Qed.

(** A result past the offset: the needle is not empty and fits. *)
Lemma Buffer_indexOf_past (buffer needle : Buffer) offset :
  0 ≤ offset → offset < Buffer_indexOf buffer needle offset →
  0 < Z.of_nat (length needle)
  ∧ Buffer_indexOf buffer needle offset + Z.of_nat (length needle)
      ≤ Z.of_nat (length buffer).
Proof.
  intros Hoff Hlt. destruct needle as [|b needle].
  - pose proof (Buffer_indexOf_empty buffer offset Hoff). lia.
  - destruct (Buffer_indexOf_range buffer (b :: needle) offset) as [Hn|[_ Hfit]];
      [done|done|lia|]. simpl in *. lia.
Qed.

Lemma Buffer_indexOf_lower (buffer needle : Buffer) offset :
  0 ≤ offset → -1 ≤ Buffer_indexOf buffer needle offset.
Proof.
  intros Hoff. destruct needle as [|b needle].
  - unfold Buffer_indexOf. rewrite IndexOfOffset_nonneg by done. simpl.
    rewrite Z.add_0_r.
    destruct (Z.leb_spec offset (Z.of_nat (length buffer))); lia.
  - destruct (Buffer_indexOf_range buffer (b :: needle) offset) as [Hn|[? _]];
      [done|done|lia|lia].
Qed.

(** A needle that stands nowhere in the buffer is not found. *)
Lemma Buffer_indexOf_none (buffer needle : Buffer) offset :
  ¬ occurs needle buffer → Buffer_indexOf buffer needle offset = -1.
Proof.
  intros Hno. unfold Buffer_indexOf.
  destruct (Z.eqb_spec (Z.of_nat (length needle)) 0) as [Hz|_].
  { destruct needle; [|simpl in Hz; lia].
    destruct Hno. by exists [], buffer. }
  repeat case_match; try done.
  apply search_none. intros Hocc. apply Hno. by eapply occurs_drop.
Qed.

Lemma adjustOffset_id offset length :
  0 ≤ offset ≤ length → adjustOffset offset length = offset.
Proof.
  intros Hr. unfold adjustOffset.
  destruct (Z.eqb_spec offset 0); [lia|].
  destruct (Z.ltb_spec offset 0); [lia|].
  destruct (Z.ltb_spec offset length); lia.
Qed.

(** A slice within the buffer. *)
Lemma Buffer_slice_inside (buffer : Buffer) s e :
  0 ≤ s ≤ e → e ≤ Z.of_nat (length buffer) →
  Buffer_slice buffer s e
    = take (Z.to_nat e - Z.to_nat s)%nat (drop (Z.to_nat s) buffer).
Proof.
  intros Hs He. unfold Buffer_slice.
  rewrite !adjustOffset_id by lia.
  destruct (Z.ltb_spec s e).
  - f_equal. lia.
  - replace (Z.to_nat e - Z.to_nat s)%nat with 0%nat by lia. done.
Qed.

Lemma Buffer_slice_length (buffer : Buffer) s e :
  0 ≤ s ≤ e → e ≤ Z.of_nat (length buffer) →
  Z.of_nat (length (Buffer_slice buffer s e)) = e - s.
Proof.
  intros Hs He. rewrite Buffer_slice_inside by done.
  rewrite length_take, length_drop. lia.
Qed.

(** ** The loop of [splitContentParts] *)

Section SplitFacts.
Variable buffer : Buffer.
Variable boundary : jsstring.

Let needle : Buffer := utf8_encode boundary.
Let len : Z := Z.of_nat (length buffer).

Lemma boundary_length_nonneg : 0 ≤ boundary_length boundary.
Proof. unfold boundary_length. lia. Qed.

Lemma split_init_inv : split_inv buffer boundary (split_init buffer boundary).
Proof.
  split; [|done]. unfold split_init. cbn [start].
  pose proof (Buffer_indexOf_lower buffer
                (utf8_encode (js "--" ++ boundary)) 0 ltac:(lia)).
  pose proof boundary_length_nonneg. lia.
Qed.

Lemma split_step_Some st st' :
  split_step buffer boundary st = Some st' →
  start st < end_ st
  ∧ parts st' = parts st ++ [Buffer_slice buffer (start st) (end_ st)]
  ∧ start st' = end_ st + boundary_length boundary
  ∧ end_ st' = Buffer_indexOf buffer needle (start st').
Proof.
  unfold split_step. destruct (Z.ltb_spec (start st) (end_ st)); [|done].
  intros [= <-]. done.
Qed.

Lemma split_step_None st :
  split_step buffer boundary st = None ↔ end_ st ≤ start st.
Proof.
  unfold split_step. destruct (Z.ltb_spec (start st) (end_ st)).
  - split; [done|lia].
  - split; [lia|done].
Qed.

Lemma split_step_inv st st' :
  split_inv buffer boundary st → split_step buffer boundary st = Some st' → split_inv buffer boundary st'.
Proof.
  intros [Hs _] (Hlt & _ & Hs' & He')%split_step_Some.
  pose proof boundary_length_nonneg. split; [lia|done].
Qed.

(** Where a part is emitted, the token was found past [start] and fits in
    the buffer. *)
Lemma split_step_found st :
  split_inv buffer boundary st → start st < end_ st →
  0 < Z.of_nat (length needle) ∧ end_ st + Z.of_nat (length needle) ≤ len.
Proof.
  intros [Hs He] Hlt. rewrite He in *.
  by apply Buffer_indexOf_past.
Qed.

(** A token that encodes to at least one byte has at least one code
    unit. *)
Lemma needle_boundary :
  0 < Z.of_nat (length needle) → 0 < boundary_length boundary.
Proof.
  unfold boundary_length.
  destruct (length boundary) eqn:Hlen; [|lia].
  apply nil_length_inv in Hlen. subst needle. rewrite Hlen. simpl. lia.
Qed.

(** Enough fuel: one test when the loop is about to stop, and otherwise
    one per byte from [end] to the end of the buffer. *)
Lemma split_loop_enough fuel st :
  split_inv buffer boundary st →
  (end_ st ≤ start st → 1 ≤ Z.of_nat fuel) →
  (start st < end_ st → len - end_ st < Z.of_nat fuel) →
  is_Some (split_loop buffer boundary fuel st).
Proof.
  revert st. induction fuel as [|fuel IH]; intros st Hinv Hstop Hrun.
  - destruct (Z.le_gt_cases (end_ st) (start st)) as [Hle|Hlt]; [lia|].
    destruct (split_step_found st Hinv Hlt). lia.
  - simpl. destruct (split_step buffer boundary st) as [st'|] eqn:Hstep; [|done].
    pose proof (split_step_inv _ _ Hinv Hstep) as Hinv'.
    apply split_step_Some in Hstep as (Hlt & _ & Hs' & _).
    destruct (split_step_found st Hinv Hlt) as [Hn Hfit].
    pose proof (needle_boundary Hn) as Hb.
    apply IH; [done|lia|].
    intros Hlt'. lia.
Qed.

Lemma split_loop_S fuel st :
  split_loop buffer boundary (S fuel) st =
    match split_step buffer boundary st with
    | None => Some (parts st)
    | Some st' => split_loop buffer boundary fuel st'
    end.
Proof. done. Qed.

Lemma split_loop_total :
  is_Some (splitContentParts_fuel buffer boundary (S (length buffer))).
Proof.
  apply split_loop_enough; [apply split_init_inv|lia|].
  destruct split_init_inv as [Hs _]. fold len. lia.
Qed.

Lemma split_loop_more fuel fuel' st ps :
  split_loop buffer boundary fuel st = Some ps → (fuel ≤ fuel')%nat →
  split_loop buffer boundary fuel' st = Some ps.
Proof.
  revert fuel' st. induction fuel as [|fuel IH]; intros fuel' st; [done|].
  intros Hloop Hle. destruct fuel' as [|fuel']; [lia|]. simpl in *.
  destruct (split_step buffer boundary st); [|done].
  apply IH; [done|lia].
Qed.

(** The parts already emitted stay, in order, at the head of the
    result. *)
Lemma split_loop_prefix fuel st ps :
  split_loop buffer boundary fuel st = Some ps → ∃ more, ps = parts st ++ more.
Proof.
  revert st. induction fuel as [|fuel IH]; intros st; [done|]. simpl.
  destruct (split_step buffer boundary st) as [st'|] eqn:Hstep.
  - intros [more ->]%IH.
    apply split_step_Some in Hstep as (_ & -> & _).
    eexists. by rewrite <- app_assoc.
  - intros [= <-]. exists []. by rewrite app_nil_r.
Qed.

Lemma splitContentParts_eq :
  splitContentParts_fuel buffer boundary (S (length buffer))
    = Some (splitContentParts buffer boundary).
Proof.
  unfold splitContentParts. by destruct split_loop_total as [ps ->].
Qed.
End SplitFacts.

(** ** Facts about [parseContent] *)

(** Without a blank line [indexOf] gives [-1], and the two slices are taken
    from that index all the same. *)
Lemma Buffer_slice_no_index_head (buffer : Buffer) :
  Buffer_slice buffer 0 (-1) = take (length buffer - 1) buffer.
Proof.
  unfold Buffer_slice, adjustOffset. simpl.
  destruct (Z.ltb_spec 0 (-1 + Z.of_nat (length buffer))) as [Hlt|Hge].
  - rewrite (proj2 (Z.ltb_lt _ _) Hlt). rewrite drop_0. f_equal. lia.
  - simpl. rewrite drop_0. replace (length buffer - 1)%nat with 0%nat by lia. done.
Qed.

Lemma Buffer_slice_no_index_body (buffer : Buffer) :
  Buffer_slice buffer 3 (Z.of_nat (length buffer) - 4)
    = drop 3 (take (length buffer - 4) buffer).
Proof.
  destruct (le_lt_dec 7 (length buffer)) as [Hlong|Hshort].
  - rewrite Buffer_slice_inside by lia.
    rewrite take_drop_commute. do 2 f_equal. lia.
  - rewrite (drop_ge (take _ _)) by (rewrite length_take; lia).
    unfold Buffer_slice, adjustOffset.
    repeat match goal with
    | |- context [Z.eqb ?a ?b] => destruct (Z.eqb_spec a b)
    | |- context [Z.ltb ?a ?b] => destruct (Z.ltb_spec a b)
    end; try lia; try done.
    all: apply nil_length_inv; rewrite length_take, length_drop; lia.
Qed.

(** With the blank line at [index], the body is what stands between it and
    the last four bytes of the part. *)
Lemma part_body_between (head body tail : Buffer) :
  part_index (head ++ DOUBLE_CRLF ++ body ++ tail) = Z.of_nat (length head) →
  length tail = 4%nat →
  part_body (head ++ DOUBLE_CRLF ++ body ++ tail) = body.
Proof.
  intros Hindex Htail. unfold part_body. rewrite Hindex.
  rewrite Buffer_slice_inside by (rewrite ?length_app; simpl; lia).
  rewrite (app_assoc head).
  rewrite drop_app_length' by (rewrite length_app; simpl; lia).
  apply take_app_length'. rewrite !length_app. simpl. lia.
Qed.

Lemma starts_with_app_drop {A} `{EqDecision A} (a b s : list A) :
  starts_with (a ++ b) s = true → starts_with b (drop (length a) s) = true.
Proof.
  revert s. induction a as [|x a IH]; intros s; simpl; [by rewrite drop_0|].
  destruct s as [|c s]; [done|]. intros [_ Hrest]%andb_prop. by apply IH.
Qed.

(** A pattern that ends with the literal of another matches only where
    the other matches, with the same group. *)
Lemma match_quoted_here_suffix (a lit s group : jsstring) :
  match_quoted_here (a ++ lit) s = Some group →
  match_quoted_here lit (drop (length a) s) = Some group.
Proof.
  unfold match_quoted_here.
  destruct (starts_with (a ++ lit) s) eqn:Hs; [|done].
  rewrite (starts_with_app_drop _ _ _ Hs).
  by rewrite drop_drop, length_app.
Qed.

Lemma regex_exec_quoted_nil lit :
  regex_exec_quoted lit [] = match_quoted_here lit [].
Proof. simpl. by destruct (match_quoted_here lit []). Qed.

Lemma regex_exec_quoted_cons lit c s :
  regex_exec_quoted lit (c :: s) =
    match match_quoted_here lit (c :: s) with
    | Some group => Some group
    | None => regex_exec_quoted lit s
    end.
Proof. done. Qed.

(** A match at any position makes [exec] succeed. *)
Lemma regex_exec_quoted_later lit s k group :
  match_quoted_here lit (drop k s) = Some group →
  is_Some (regex_exec_quoted lit s).
Proof.
  revert k. induction s as [|c s IH]; intros k Hm.
  - rewrite drop_nil in Hm. rewrite regex_exec_quoted_nil, Hm. eauto.
  - rewrite regex_exec_quoted_cons. destruct k as [|k].
    + rewrite drop_0 in Hm. rewrite Hm. eauto.
    + destruct (match_quoted_here lit (c :: s)); [eauto|]. by eapply IH.
Qed.

Lemma regex_exec_quoted_here lit s group :
  regex_exec_quoted lit s = Some group →
  ∃ k, match_quoted_here lit (drop k s) = Some group.
Proof.
  induction s as [|c s IH].
  - rewrite regex_exec_quoted_nil. by exists 0%nat.
  - rewrite regex_exec_quoted_cons.
    destruct (match_quoted_here lit (c :: s)) eqn:Hm.
    + intros [= ->]. by exists 0%nat.
    + intros [k Hk]%IH. by exists (S k).
Qed.

(** The pattern for [name] matches inside every match of the pattern for
    [filename]. *)
Lemma filename_match_name_match (s filename : jsstring) :
  regex_exec_quoted filename_literal s = Some filename →
  is_Some (regex_exec_quoted name_literal s).
Proof.
  intros [k Hk]%regex_exec_quoted_here.
  change filename_literal with (js "file" ++ name_literal) in Hk.
  apply match_quoted_here_suffix in Hk. rewrite drop_drop in Hk.
  by eapply regex_exec_quoted_later.
Qed.

(** A string in which the separator stands nowhere is one piece. *)
Lemma split_from_no_sep (sep cur s : jsstring) :
  ¬ occurs sep s → split_from sep 0 cur s = [cur ++ s].
Proof.
  revert cur. induction s as [|c s IH]; intros cur Hno; simpl.
  - by rewrite app_nil_r.
  - destruct (starts_with sep (c :: s)) eqn:Hs.
    + destruct Hno. by apply (starts_with_occurs _ _ 0%nat).
    + rewrite IH; [by rewrite <- app_assoc|].
      intros Hocc. apply Hno. by apply (occurs_drop _ _ 1%nat).
Qed.

Lemma header_line_no_separator (headers : Headers) (line : jsstring) :
  ¬ occurs (js ": ") line →
  header_line headers line = Headers_set (toLowerCase line) None headers.
Proof.
  intros Hno. unfold header_line, String_split.
  by rewrite split_from_no_sep.
Qed.

(** Up to the first separator of a header line: a piece in which the
    separator stands nowhere, followed by the separator, is the first
    piece. *)
Lemma split_from_first_piece (cur piece rest : jsstring) :
  ¬ occurs (js ": ") piece →
  split_from (js ": ") 0 cur (piece ++ js ": " ++ rest)
    = (cur ++ piece) :: split_from (js ": ") 0 [] rest.
Proof.
  revert cur. induction piece as [|c piece IH]; intros cur Hno.
  - rewrite app_nil_l, app_nil_r. reflexivity.
  - change ((c :: piece) ++ js ": " ++ rest)
      with (c :: (piece ++ js ": " ++ rest)).
    cbn [split_from].
    destruct (starts_with (js ": ") (c :: piece ++ js ": " ++ rest)) eqn:Hs.
    + exfalso. apply Hno.
      change (js ": ") with [58%N; 32%N] in *.
      destruct piece as [|d piece]; simpl in Hs.
      * apply andb_prop in Hs as [_ Hs]. discriminate Hs.
      * apply andb_prop in Hs as [Hc Hd].
        apply andb_prop in Hd as [Hd _].
        apply bool_decide_eq_true in Hc, Hd. subst c d.
        by exists [], piece.
    + rewrite IH; [by rewrite <- app_assoc|].
      intros Hocc. apply Hno. by apply (occurs_drop _ (c :: piece) 1%nat).
Qed.

Lemma String_split_two_pieces (key value : jsstring) :
  ¬ occurs (js ": ") key → ¬ occurs (js ": ") value →
  String_split (key ++ js ": " ++ value) (js ": ") = [key; value].
Proof.
  intros Hkey Hvalue. unfold String_split.
  rewrite split_from_first_piece by done.
  by rewrite split_from_no_sep.
Qed.

Lemma String_split_more_pieces (key value rest : jsstring) :
  ¬ occurs (js ": ") key → ¬ occurs (js ": ") value →
  ∃ others,
    String_split (key ++ js ": " ++ value ++ js ": " ++ rest) (js ": ")
      = key :: value :: others.
Proof.
  intros Hkey Hvalue. unfold String_split.
  rewrite split_from_first_piece by done.
  rewrite split_from_first_piece by done. eauto.
Qed.

(** The filter of the patterns: a literal that stands nowhere in the
    string gives no match. *)
Lemma regex_exec_quoted_absent (lit s : jsstring) :
  ¬ occurs lit s → regex_exec_quoted lit s = None.
Proof.
  intros Hno. destruct (regex_exec_quoted lit s) as [group|] eqn:Hexec; [|done].
  apply regex_exec_quoted_here in Hexec as [k Hk].
  unfold match_quoted_here in Hk.
  destruct (starts_with lit (drop k s)) eqn:Hs; [|done].
  destruct Hno. by eapply starts_with_occurs.
Qed.

(** A disposition in which the text [name=] and a quote stand nowhere is
    rejected. *)
Lemma parseContent_no_name_text (buffer : Buffer) :
  ¬ occurs name_literal (part_disposition buffer) →
  parseContent buffer = ParseErr no_name_error.
Proof.
  intros Hno. unfold parseContent. fold (part_disposition buffer).
  by rewrite regex_exec_quoted_absent.
Qed.

(** [parseContent] has one error to report. *)
Lemma parseContent_error (buffer : Buffer) err :
  parseContent buffer = ParseErr err → err = no_name_error.
Proof.
  unfold parseContent. repeat case_match; congruence.
Qed.

(** ** Facts about [processBody] *)

Lemma processPart_calls (contents : list Buffer) calls formData :
  ∃ errs formData',
    foldl processPart (calls, formData) contents
      = (calls ++ map CallErr errs, formData').
Proof.
  revert calls formData.
  induction contents as [|content contents IH]; intros calls formData; simpl.
  - exists [], formData. by rewrite app_nil_r.
  - unfold processPart at 2. destruct (parseContent content) as [err|name value]; simpl.
    + destruct (IH (calls ++ [CallErr err]) formData) as (errs & fd' & ->).
      exists (err :: errs), fd'. by rewrite <- app_assoc.
    + apply IH.
Qed.

(** Whatever the parts, the last call of the callback is
    [callback(false, formData)], and the calls before it report errors. *)
Lemma processBody_calls (buffer : Buffer) (boundary : jsstring) :
  ∃ errs formData,
    processBody buffer boundary = map CallErr errs ++ [CallOk formData].
Proof.
  unfold processBody.
  destruct (processPart_calls (splitContentParts buffer boundary) [] FormData_empty)
    as (errs & fd & ->).
  by exists errs, fd.
Qed.

(** ** Deciding occurrences on given buffers *)

Lemma search_occurs {A} `{EqDecision A} (needle hay : list A) pos :
  needle ≠ [] → occurs needle hay → 0 ≤ pos → search needle hay pos ≠ -1.
Proof.
  intros Hne (pre & post & ->). revert pos.
  induction pre as [|c pre IH]; intros pos Hpos.
  - destruct needle as [|b needle]; [done|]. rewrite app_nil_l.
    rewrite search_here; [lia|done|apply starts_with_app].
  - simpl. destruct (starts_with needle (c :: pre ++ needle ++ post)); [lia|].
    apply IH. lia.
Qed.

Lemma search_not_occurs {A} `{EqDecision A} (needle hay : list A) :
  needle ≠ [] → search needle hay 0 = -1 → ¬ occurs needle hay.
Proof.
  intros Hne Hs Hocc. by apply (search_occurs needle hay 0 Hne Hocc).
Qed.

(** Settles that a given needle stands nowhere in a given buffer or string
    by running the search. *)
Ltac absent_by_search :=
  apply search_not_occurs; [done | vm_compute; reflexivity].

Lemma splitContentParts_token_absent (buffer : Buffer) (boundary : jsstring) :
  ¬ occurs (utf8_encode boundary) buffer → splitContentParts buffer boundary = [].
Proof.
  intros Hno. pose proof (splitContentParts_eq buffer boundary) as Heq.
  unfold splitContentParts_fuel in Heq. rewrite split_loop_S in Heq.
  destruct (split_step buffer boundary (split_init buffer boundary))
    as [st|] eqn:Hstep.
  - apply split_step_Some in Hstep as (Hlt & _).
    destruct (split_init_inv buffer boundary) as [Hs He].
    rewrite He, (Buffer_indexOf_none _ _ _ Hno) in Hlt. lia.
  - by injection Heq as <-.
Qed.

(** ** First occurrences *)

Section FirstOccurrence.
Context {A : Type} `{EqDecision A}.
Implicit Types lit pre rest s : list A.

Lemma starts_with_app_l lit s rest :
  starts_with lit (s ++ rest) = true → (length lit ≤ length s)%nat →
  starts_with lit s = true.
Proof.
  revert s. induction lit as [|p lit IH]; intros s; [done|].
  destruct s as [|c s]; simpl; [lia|].
  intros [Hp Hrest]%andb_prop Hlen. rewrite Hp. simpl.
  apply IH; [done|lia].
Qed.

(** A string that holds the first unit of the needle nowhere holds the
    needle nowhere. *)
Lemma not_occurs_first_unit a lit s :
  Forall (λ c, c ≠ a) s → ¬ occurs (a :: lit) s.
Proof.
  intros Hall (pre & post & ->).
  apply Forall_app in Hall as [_ Hall].
  by inversion Hall.
Qed.

(** Before the first occurrence of the needle, nothing starts with it. *)
Lemma starts_with_before lit pre rest :
  lit ≠ [] → ¬ occurs lit (pre ++ removelast lit) → pre ≠ [] →
  starts_with lit (pre ++ lit ++ rest) = false.
Proof.
  intros Hlit Hno Hpre.
  destruct (starts_with lit (pre ++ lit ++ rest)) eqn:Hs; [|done].
  destruct Hno. apply (starts_with_occurs _ _ 0%nat). rewrite drop_0.
  destruct (exists_last Hlit) as (lit' & x & ->).
  rewrite removelast_last.
  rewrite <- !app_assoc, (app_assoc pre) in Hs.
  apply starts_with_app_l in Hs; [done|].
  rewrite !length_app. destruct pre; [done|]. simpl. lia.
Qed.

Lemma not_occurs_tail lit c pre :
  ¬ occurs lit (c :: pre) → ¬ occurs lit pre.
Proof. intros Hno Hocc. apply Hno. by apply (occurs_drop _ (c :: pre) 1%nat). Qed.

Lemma search_first lit pre rest pos :
  lit ≠ [] → ¬ occurs lit (pre ++ removelast lit) →
  search lit (pre ++ lit ++ rest) pos = pos + Z.of_nat (length pre).
Proof.
  intros Hlit. revert pos. induction pre as [|c pre IH]; intros pos Hno.
  - rewrite app_nil_l, search_here; [simpl; lia| |apply starts_with_app].
    destruct lit; done.
  - pose proof (starts_with_before lit (c :: pre) rest Hlit Hno) as Hs.
    simpl in *. rewrite Hs by done.
    rewrite IH by (by eapply not_occurs_tail). lia.
Qed.
End FirstOccurrence.

(** From an offset at which the needle still fits, [indexOf] is the
    search from there; from a later one it finds nothing. *)
Lemma Buffer_indexOf_search (buffer needle : Buffer) offset :
  needle ≠ [] → 0 ≤ offset →
  offset + Z.of_nat (length needle) ≤ Z.of_nat (length buffer) →
  Buffer_indexOf buffer needle offset
    = search needle (drop (Z.to_nat offset) buffer) offset.
Proof.
  intros Hne Hoff Hfit. unfold Buffer_indexOf.
  assert (0 < Z.of_nat (length needle)) by (destruct needle; [done|simpl; lia]).
  rewrite IndexOfOffset_nonneg by done.
  rewrite (proj2 (Z.leb_le _ _) Hfit).
  rewrite (proj2 (Z.eqb_neq _ _)) by lia.
  rewrite (proj2 (Z.eqb_neq _ _)) by lia.
  rewrite (proj2 (Z.leb_gt _ _)) by lia.
  rewrite (proj2 (Z.ltb_ge _ _)) by lia. done.
Qed.

Lemma Buffer_indexOf_short (buffer needle : Buffer) offset :
  needle ≠ [] → 0 ≤ offset →
  Z.of_nat (length buffer) < offset + Z.of_nat (length needle) →
  Buffer_indexOf buffer needle offset = -1.
Proof.
  intros Hne Hoff Hshort. unfold Buffer_indexOf.
  assert (0 < Z.of_nat (length needle)) by (destruct needle; [done|simpl; lia]).
  rewrite IndexOfOffset_nonneg by done.
  rewrite (proj2 (Z.leb_gt _ _)) by lia.
  rewrite (proj2 (Z.eqb_neq _ _)) by lia.
  destruct (Z.of_nat (length buffer) =? 0); done.
Qed.

Lemma Buffer_indexOf_first (done p needle rest : Buffer) :
  needle ≠ [] → ¬ occurs needle (p ++ removelast needle) →
  Buffer_indexOf (done ++ p ++ needle ++ rest) needle (Z.of_nat (length done))
    = Z.of_nat (length done) + Z.of_nat (length p).
Proof.
  intros Hne Hno.
  rewrite Buffer_indexOf_search; [|done|lia|rewrite !length_app; lia].
  rewrite Nat2Z.id, drop_app_length. by apply search_first.
Qed.

Lemma Buffer_indexOf_absent_from (done tail needle : Buffer) :
  needle ≠ [] → ¬ occurs needle tail →
  Buffer_indexOf (done ++ tail) needle (Z.of_nat (length done)) = -1.
Proof.
  intros Hne Hno.
  destruct (Z.le_gt_cases (Z.of_nat (length done) + Z.of_nat (length needle))
              (Z.of_nat (length (done ++ tail)))).
  - rewrite Buffer_indexOf_search; [|done|lia|lia].
    rewrite Nat2Z.id, drop_app_length. by apply search_none.
  - apply Buffer_indexOf_short; [done|lia|lia].
Qed.

Lemma Buffer_slice_middle (done p rest : Buffer) :
  Buffer_slice (done ++ p ++ rest) (Z.of_nat (length done))
    (Z.of_nat (length done) + Z.of_nat (length p)) = p.
Proof.
  rewrite Buffer_slice_inside by (rewrite ?length_app; lia).
  rewrite Nat2Z.id, drop_app_length.
  apply take_app_length'. lia.
Qed.

Lemma occurs_length {A} (needle hay : list A) :
  occurs needle hay → (length needle ≤ length hay)%nat.
Proof. intros (pre & post & ->). rewrite !length_app. lia. Qed.

Lemma removelast_shorter {A} (l : list A) :
  l ≠ [] → (length (removelast l) < length l)%nat.
Proof.
  intros Hl. destruct (exists_last Hl) as (l' & x & ->).
  rewrite removelast_last, length_app. simpl. lia.
Qed.

(** ** The locator on a framed body *)

Lemma frame_contents_length (token : Buffer) (contents : list Buffer) :
  Forall (λ c, c ≠ []) contents →
  (length contents
   ≤ length (concat (map (λ content, content ++ token) contents)))%nat.
Proof.
  induction 1 as [|c cs Hc _ IH]; simpl; [lia|].
  rewrite !length_app. destruct c; [done|]. simpl. lia.
Qed.

Lemma split_loop_frame (boundary : jsstring) (tail : Buffer) :
  utf8_encode boundary ≠ [] →
  length (utf8_encode boundary) = length boundary →
  ¬ occurs (utf8_encode boundary) tail →
  ∀ contents done buffer fuel st,
    Forall (framed_content boundary) contents →
    buffer
      = done ++ concat (map (λ c, c ++ utf8_encode boundary) contents) ++ tail →
    (length contents < fuel)%nat →
    start st = Z.of_nat (length done) →
    end_ st = Buffer_indexOf buffer (utf8_encode boundary) (start st) →
    split_loop buffer boundary fuel st = Some (parts st ++ contents).
Proof.
  intros Htoken Hascii Htail.
  induction contents as [|c cs IH];
    intros done buffer fuel st Hall -> Hfuel Hstart Hend;
    (destruct fuel as [|fuel]; [simpl in Hfuel; lia|]);
    rewrite split_loop_S; unfold split_step.
  - simpl in Hend. rewrite Hstart in Hend.
    rewrite Buffer_indexOf_absent_from in Hend by done.
    rewrite (proj2 (Z.ltb_ge _ _)) by lia. by rewrite app_nil_r.
  - apply Forall_cons in Hall as [[Hc Hno] Hall].
    cbn [map concat] in *. rewrite <- !app_assoc in *.
    rewrite Hstart in Hend. rewrite Buffer_indexOf_first in Hend by done.
    assert (0 < length c)%nat by (destruct c; [done|simpl; lia]).
    rewrite (proj2 (Z.ltb_lt _ _)) by lia.
    erewrite (IH (done ++ c ++ utf8_encode boundary)); cbn [parts start end_].
    + rewrite Hstart, Hend, Buffer_slice_middle. by rewrite <- app_assoc.
    + done.
    + by rewrite <- !app_assoc.
    + simpl in Hfuel. lia.
    + rewrite Hend. unfold boundary_length. rewrite !length_app, Hascii. lia.
    + done.
Qed.

Lemma utf8_encode_delimiter (boundary : jsstring) :
  utf8_encode (js "--" ++ boundary) = bytes "--" ++ utf8_encode boundary.
Proof. reflexivity. Qed.

(** The first delimiter stands at the head of a framed body. *)
Lemma frame_first_delimiter (boundary : jsstring) contents tail :
  Buffer_indexOf (frame boundary contents tail)
    (utf8_encode (js "--" ++ boundary)) 0 = 0.
Proof.
  unfold frame. rewrite utf8_encode_delimiter.
  assert (bytes "--" ++ utf8_encode boundary ≠ []) as Hne by done.
  pose proof (Buffer_indexOf_first [] [] (bytes "--" ++ utf8_encode boundary)
    (concat (map (λ c, c ++ utf8_encode boundary) contents) ++ tail)) as Hfirst.
  rewrite !app_nil_l in Hfirst. apply Hfirst; [done|].
  intros Hocc%occurs_length.
  pose proof (removelast_shorter _ Hne). lia.
Qed.

Lemma splitContentParts_frame (boundary : jsstring)
    (contents : list Buffer) (tail : Buffer) :
  boundary ≠ [] →
  length (utf8_encode boundary) = length boundary →
  Forall (framed_content boundary) contents →
  ¬ occurs (utf8_encode boundary) tail →
  splitContentParts (frame boundary contents tail) boundary = contents.
Proof.
  intros Hne Hascii Hall Htail.
  assert (utf8_encode boundary ≠ []) as Htoken.
  { intros Hnil. rewrite Hnil in Hascii. by destruct boundary. }
  pose proof (splitContentParts_eq (frame boundary contents tail) boundary) as Heq.
  assert (splitContentParts_fuel (frame boundary contents tail) boundary
            (S (length (frame boundary contents tail))) = Some contents) as Hrun.
  { unfold splitContentParts_fuel.
    erewrite (split_loop_frame boundary tail Htoken Hascii Htail contents
                (utf8_encode (js "--" ++ boundary))); [done|done|done| | |done].
    - unfold frame. rewrite !length_app.
      assert (Forall (λ c : Buffer, c ≠ []) contents) as Hcs.
      { eapply Forall_impl; [exact Hall|]. by intros c [Hc _]. }
      pose proof (frame_contents_length (utf8_encode boundary) contents Hcs).
      lia.
    - unfold split_init. cbn [start]. rewrite frame_first_delimiter.
      rewrite utf8_encode_delimiter, length_app, Hascii.
      unfold boundary_length. simpl. lia. }
  rewrite Hrun in Heq. by injection Heq.
Qed.

(** The search stops at or before any place where the needle starts. *)
Lemma search_minimal {A} `{EqDecision A} (needle hay : list A) pos (j : nat) :
  0 ≤ pos →
  starts_with needle (drop j hay) = true → (j < length hay)%nat →
  0 ≤ search needle hay pos ≤ pos + Z.of_nat j.
Proof.
  revert pos j. induction hay as [|c hay IH]; intros pos j Hpos Hs Hj;
    [simpl in Hj; lia|].
  change (search needle (c :: hay) pos)
    with (if starts_with needle (c :: hay) then pos
          else search needle hay (pos + 1)).
  destruct j as [|j].
  - rewrite drop_0 in Hs. rewrite Hs. lia.
  - destruct (starts_with needle (c :: hay)); [lia|].
    cbn [drop] in Hs. simpl in Hj.
    pose proof (IH (pos + 1) j ltac:(lia) Hs ltac:(lia)). lia.
Qed.

(** ** Where a needle first stands *)

Section Occurrences.
Context {A : Type} `{EqDecision A}.
Implicit Types lit pre rest s : list A.

Lemma starts_with_prefix lit s rest :
  starts_with lit s = true → starts_with lit (s ++ rest) = true.
Proof.
  revert s. induction lit as [|p lit IH]; intros [|c s]; simpl; try done.
  intros [-> Hrest]%andb_prop. simpl. by apply IH.
Qed.

Lemma occurs_cons_inv lit c s :
  occurs lit (c :: s) → starts_with lit (c :: s) = true ∨ occurs lit s.
Proof.
  intros (pre & post & Heq). destruct pre as [|d pre].
  - left. rewrite Heq, app_nil_l. apply starts_with_app.
  - right. injection Heq as _ ->. by exists pre, post.
Qed.

Lemma not_occurs_removelast lit : lit ≠ [] → ¬ occurs lit (removelast lit).
Proof.
  intros Hlit Hocc%occurs_length.
  pose proof (removelast_shorter _ Hlit). lia.
Qed.

(** A needle that stands in a string has a first occurrence there. *)
Lemma occurs_first lit s :
  lit ≠ [] → occurs lit s →
  ∃ pre rest, s = pre ++ lit ++ rest ∧ ¬ occurs lit (pre ++ removelast lit).
Proof.
  intros Hlit. induction s as [|c s IH]; intros Hocc.
  - apply occurs_length in Hocc. destruct lit; [done|simpl in Hocc; lia].
  - destruct (starts_with lit (c :: s)) eqn:Hs.
    + exists [], (drop (length lit) (c :: s)). split.
      * by apply starts_with_inv.
      * by apply not_occurs_removelast.
    + apply occurs_cons_inv in Hocc as [Hhere|Hocc]; [congruence|].
      destruct (IH Hocc) as (pre & rest & -> & Hno).
      exists (c :: pre), rest. split; [done|].
      intros [Hhere|Hlater]%occurs_cons_inv; [|done].
      destruct (exists_last Hlit) as (lit' & x & Hx).
      assert (c :: pre ++ lit ++ rest
              = (c :: pre ++ removelast lit) ++ [x] ++ rest) as Hsplit.
      { rewrite Hx, removelast_last. cbn [app]. by rewrite <- !app_assoc. }
      rewrite Hsplit, (starts_with_prefix _ _ _ Hhere) in Hs. done.
Qed.

(** Where [search] finds the needle, it stands there, and nowhere
    before. *)
Lemma search_first_inv lit s pos (k : nat) :
  lit ≠ [] → 0 ≤ pos → search lit s pos = pos + Z.of_nat k →
  (k < length s)%nat
  ∧ ∃ rest, s = take k s ++ lit ++ rest
            ∧ ¬ occurs lit (take k s ++ removelast lit).
Proof.
  intros Hlit Hpos Hsearch.
  destruct (search_found lit s pos) as [Hn|(k' & Hk' & Hlt & Hsw)]; [lia|].
  assert (k' = k) as -> by lia.
  split; [done|].
  exists (drop (length lit) (drop k s)). split.
  - rewrite <- (starts_with_inv _ _ Hsw). by rewrite take_drop.
  - intros (pre' & post' & Heq).
    pose proof (f_equal length Heq) as Hlen.
    rewrite !length_app, length_take in Hlen.
    pose proof (removelast_shorter _ Hlit) as Hshort.
    destruct (exists_last Hlit) as (lit' & x & Hx).
    assert (starts_with lit (drop (length pre') s) = true) as Hearlier.
    { rewrite <- (take_drop k s), (starts_with_inv _ _ Hsw).
      rewrite Hx at 2. rewrite <- (removelast_last lit' x), <- Hx.
      rewrite <- !app_assoc, (app_assoc (take k s)), Heq.
      rewrite <- !app_assoc, drop_app_length. apply starts_with_app. }
    pose proof (search_minimal lit s pos (length pre') Hpos Hearlier) as Hmin.
    lia.
Qed.
End Occurrences.

(** ** Tokens of ASCII characters *)

Lemma byte_of_N_to_N (c : N) : (c < 256)%N → Byte.to_N (byte_of_N c) = c.
Proof.
  intros Hc. unfold byte_of_N.
  pose proof (Byte.to_of_N_option_map c) as Hmap.
  rewrite (proj2 (N.leb_le c 255)) in Hmap by lia.
  destruct (Byte.of_N c) as [b|]; [|done]. simpl in *. congruence.
Qed.

Lemma utf8_encode_ascii (s : jsstring) :
  forallb (λ c, c <? 128)%N s = true → utf8_encode s = ascii_bytes s.
Proof.
  induction s as [|c s IH]; [done|]. cbn [forallb].
  intros [Hc Hs]%andb_prop. apply N.ltb_lt in Hc.
  cbn [utf8_encode ascii_bytes map].
  unfold is_high_surrogate.
  rewrite (proj2 (N.leb_gt 0xD800 c)) by lia. cbn [andb].
  unfold utf8_bytes. rewrite (proj2 (N.ltb_lt c 0x80)) by lia.
  cbn [map app]. f_equal. by apply IH.
Qed.

Lemma ascii_token_length (boundary : jsstring) :
  forallb (λ c, c <? 128)%N boundary = true →
  length (utf8_encode boundary) = length boundary.
Proof.
  intros Hascii. rewrite utf8_encode_ascii by done. apply length_map.
Qed.

(** ** The first part *)

(** The first delimiter stands after [pre]: where the scan starts. *)
Lemma split_init_start (boundary : jsstring) (pre rest : Buffer) :
  length (utf8_encode boundary) = length boundary →
  ¬ occurs (utf8_encode (js "--" ++ boundary))
      (pre ++ removelast (utf8_encode (js "--" ++ boundary))) →
  start (split_init (pre ++ utf8_encode (js "--" ++ boundary) ++ rest) boundary)
  = Z.of_nat (length (pre ++ utf8_encode (js "--" ++ boundary))).
Proof.
  intros Hascii Hfirst. unfold split_init. cbn [start].
  pose proof (Buffer_indexOf_first [] pre
                (utf8_encode (js "--" ++ boundary)) rest) as Hindex.
  rewrite !app_nil_l in Hindex. cbn [length] in Hindex.
  change (Z.of_nat 0) with 0 in Hindex. rewrite Z.add_0_l in Hindex.
  rewrite Hindex; [|done|done].
  rewrite length_app, utf8_encode_delimiter, length_app, Hascii.
  unfold boundary_length. simpl. lia.
Qed.

(** The first turn of the loop, read on the buffer: with the first
    delimiter after [pre], the first part is what stands between it and the
    next token. *)
Lemma split_first_part (buffer : Buffer) (boundary : jsstring)
    (pre after p : Buffer) (ps : list Buffer) :
  length (utf8_encode boundary) = length boundary →
  buffer = pre ++ utf8_encode (js "--" ++ boundary) ++ after →
  ¬ occurs (utf8_encode (js "--" ++ boundary))
      (pre ++ removelast (utf8_encode (js "--" ++ boundary))) →
  splitContentParts buffer boundary = p :: ps →
  p ≠ []
  ∧ ∃ rest, after = p ++ utf8_encode boundary ++ rest
            ∧ ¬ occurs (utf8_encode boundary)
                  (p ++ removelast (utf8_encode boundary)).
Proof.
  intros Hascii Hbuf Hfirst Hps.
  pose proof (splitContentParts_eq buffer boundary) as Heq.
  rewrite Hps in Heq. unfold splitContentParts_fuel in Heq.
  rewrite split_loop_S in Heq.
  destruct (split_step buffer boundary (split_init buffer boundary))
    as [st|] eqn:Hstep; [|done].
  apply split_loop_prefix in Heq as [more Hmore].
  pose proof (split_init_inv buffer boundary) as Hinv.
  apply split_step_Some in Hstep as (Hlt & Hparts & _).
  destruct (split_step_found _ _ _ Hinv Hlt) as [Hn Hfit].
  destruct Hinv as [Hs He].
  rewrite Hparts in Hmore.
  change (parts (split_init buffer boundary)) with (@nil Buffer) in Hmore.
  assert (p = Buffer_slice buffer (start (split_init buffer boundary))
                (end_ (split_init buffer boundary))) as Hp.
  { cbn [app] in Hmore. injection Hmore as Hp _. exact Hp. }
  clear Hmore.
  assert (utf8_encode boundary ≠ []) as Htoken
    by (intros Hnil; rewrite Hnil in Hn; simpl in Hn; lia).
  assert (start (split_init buffer boundary)
          = Z.of_nat (length (pre ++ utf8_encode (js "--" ++ boundary))))
    as Hstart by (rewrite Hbuf; by apply split_init_start).
  rewrite Hstart in *.
  rewrite Buffer_indexOf_search in He; [|done|lia|lia].
  rewrite Nat2Z.id in He.
  assert (drop (length (pre ++ utf8_encode (js "--" ++ boundary))) buffer
          = after) as Hdrop.
  { rewrite Hbuf, app_assoc. apply drop_app_length. }
  rewrite Hdrop in He.
  set (done := pre ++ utf8_encode (js "--" ++ boundary)) in *.
  set (e := end_ (split_init buffer boundary)) in *.
  assert (∃ k : nat, e = Z.of_nat (length done) + Z.of_nat k ∧ (0 < k)%nat)
    as (k & Hk & Hpos).
  { exists (Z.to_nat (e - Z.of_nat (length done))). lia. }
  rewrite Hk in He. symmetry in He.
  apply search_first_inv in He as (Hlen & rest & Hafter & Hno); [|done|lia].
  assert (p = take k after) as ->.
  { rewrite Hp, Hk. rewrite Hbuf, app_assoc. fold done.
    rewrite Hafter at 1.
    replace (Z.of_nat k) with (Z.of_nat (length (take k after)))
      by (rewrite length_take; lia).
    apply Buffer_slice_middle. }
  split.
  - intros Hnil. apply (f_equal length) in Hnil.
    rewrite length_take in Hnil. simpl in Hnil. lia.
  - by exists rest.
Qed.

(** ** The locator after a prefix of the buffer *)

Lemma search_shift {A} `{EqDecision A} (lit s : list A) pos pos' :
  (search lit s pos = -1 ∧ search lit s pos' = -1)
  ∨ ∃ k : nat, search lit s pos = pos + Z.of_nat k
               ∧ search lit s pos' = pos' + Z.of_nat k.
Proof.
  revert pos pos'. induction s as [|c s IH]; intros pos pos'; [by left|].
  cbn [search]. destruct (starts_with lit (c :: s)).
  - right. exists 0%nat. lia.
  - destruct (IH (pos + 1) (pos' + 1)) as [?|(k & Hk & Hk')]; [by left|].
    right. exists (S k). lia.
Qed.

(** A search from an offset past a prefix of the buffer is the search in
    what follows the prefix. *)
Lemma Buffer_indexOf_shift (done buffer needle : Buffer) offset :
  needle ≠ [] → 0 ≤ offset →
  Buffer_indexOf (done ++ buffer) needle (Z.of_nat (length done) + offset)
  = if Buffer_indexOf buffer needle offset =? -1 then -1
    else Z.of_nat (length done) + Buffer_indexOf buffer needle offset.
Proof.
  intros Hne Hoff.
  destruct (Z.le_gt_cases (offset + Z.of_nat (length needle))
              (Z.of_nat (length buffer))) as [Hfit|Hshort].
  - rewrite !Buffer_indexOf_search; [|done|lia|lia|done|lia|rewrite length_app; lia].
    replace (Z.to_nat (Z.of_nat (length done) + offset))
      with (length done + Z.to_nat offset)%nat by lia.
    rewrite <- drop_drop, drop_app_length.
    destruct (search_shift needle (drop (Z.to_nat offset) buffer) offset
                (Z.of_nat (length done) + offset)) as [[-> ->]|(k & -> & ->)];
      [done|].
    rewrite (proj2 (Z.eqb_neq _ _)) by lia. lia.
  - rewrite !Buffer_indexOf_short; [done|done|lia|lia|done|lia|rewrite length_app; lia].
Qed.

Lemma Buffer_slice_shift (done buffer : Buffer) s e :
  0 ≤ s ≤ e → e ≤ Z.of_nat (length buffer) →
  Buffer_slice (done ++ buffer) (Z.of_nat (length done) + s)
    (Z.of_nat (length done) + e)
  = Buffer_slice buffer s e.
Proof.
  intros Hs He.
  rewrite !Buffer_slice_inside; [|lia|lia|lia|rewrite length_app; lia].
  replace (Z.to_nat (Z.of_nat (length done) + s))
    with (length done + Z.to_nat s)%nat by lia.
  rewrite <- drop_drop, drop_app_length. f_equal. lia.
Qed.

Section Shift.
Variable boundary : jsstring.
Variable done buffer : Buffer.
Variable extra : list Buffer.
Hypothesis Htoken : utf8_encode boundary ≠ [].

(** The loop on [done ++ buffer], from a state past [done], runs as the
    loop on [buffer]. *)
Lemma split_loop_shift fuel st st' ps :
  start st = Z.of_nat (length done) + start st' →
  split_inv buffer boundary st' →
  end_ st = Buffer_indexOf (done ++ buffer) (utf8_encode boundary) (start st) →
  parts st = extra ++ parts st' →
  split_loop buffer boundary fuel st' = Some ps →
  split_loop (done ++ buffer) boundary fuel st = Some (extra ++ ps).
Proof.
  revert st st'. induction fuel as [|fuel IH];
    intros st st' Hstart Hinv Hend Hparts; [done|].
  rewrite !split_loop_S.
  pose proof Hinv as [Hs He].
  rewrite Hstart, Buffer_indexOf_shift in Hend by done.
  unfold split_step.
  destruct (Z.ltb_spec (start st') (end_ st')) as [Hlt|Hge].
  - destruct (split_step_found _ _ _ Hinv Hlt) as [_ Hfit].
    rewrite <- He in Hend.
    rewrite (proj2 (Z.eqb_neq _ _)) in Hend by lia.
    rewrite (proj2 (Z.ltb_lt _ _)) by lia.
    apply IH; cbn [start end_ parts].
    + unfold boundary_length. lia.
    + split; [|done]. cbn [start]. unfold boundary_length. lia.
    + done.
    + rewrite Hparts, Hstart, Hend, Buffer_slice_shift by lia.
      by rewrite <- app_assoc.
  - rewrite <- He in Hend.
    assert (end_ st ≤ start st) as Hstop.
    { destruct (Z.eqb_spec (end_ st') (-1)); lia. }
    rewrite (proj2 (Z.ltb_ge _ _)) by done.
    intros [= <-]. by rewrite Hparts.
Qed.
End Shift.

Lemma split_loop_agree (buffer : Buffer) (boundary : jsstring) fuel fuel' st
    ps ps' :
  split_loop buffer boundary fuel st = Some ps →
  split_loop buffer boundary fuel' st = Some ps' → ps = ps'.
Proof.
  intros Hps Hps'.
  apply (split_loop_more _ _ _ (fuel `max` fuel')%nat) in Hps; [|lia].
  apply (split_loop_more _ _ _ (fuel `max` fuel')%nat) in Hps'; [|lia].
  congruence.
Qed.

(** The loop over framed contents, whatever follows them: each is emitted,
    and the scan goes on after the token that ends the last one. *)
Lemma split_loop_contents (boundary : jsstring) (rest : Buffer) (fuel : nat) :
  utf8_encode boundary ≠ [] →
  length (utf8_encode boundary) = length boundary →
  ∀ contents done buffer st st',
    Forall (framed_content boundary) contents →
    buffer
      = done ++ concat (map (λ c, c ++ utf8_encode boundary) contents) ++ rest →
    start st = Z.of_nat (length done) →
    end_ st = Buffer_indexOf buffer (utf8_encode boundary) (start st) →
    parts st' = parts st ++ contents →
    start st'
      = Z.of_nat (length (done ++ concat (map (λ c, c ++ utf8_encode boundary)
                                             contents))) →
    end_ st' = Buffer_indexOf buffer (utf8_encode boundary) (start st') →
    split_loop buffer boundary (length contents + fuel) st
      = split_loop buffer boundary fuel st'.
Proof.
  intros Htoken Hascii.
  induction contents as [|c cs IH];
    intros done buffer st st' Hall Hbuf Hstart Hend Hparts' Hstart' Hend'.
  - cbn [map concat length] in *. rewrite app_nil_r in *.
    replace st' with st; [done|].
    destruct st as [p s e], st' as [p' s' e']. cbn [parts start end_] in *.
    congruence.
  - apply Forall_cons in Hall as [[Hc Hno] Hall].
    cbn [map concat length] in *. rewrite <- !app_assoc in Hbuf.
    cbn [Nat.add]. rewrite split_loop_S. unfold split_step.
    rewrite Hstart, Hbuf, Buffer_indexOf_first in Hend by done.
    assert (0 < length c)%nat by (destruct c; [done|simpl; lia]).
    rewrite (proj2 (Z.ltb_lt _ _)) by lia.
    apply (IH (done ++ c ++ utf8_encode boundary)); cbn [parts start end_].
    + done.
    + by rewrite Hbuf, <- !app_assoc.
    + rewrite Hend. unfold boundary_length. rewrite !length_app, Hascii. lia.
    + done.
    + rewrite Hparts', Hstart, Hend. rewrite <- app_assoc.
      rewrite Hbuf at 1. by rewrite Buffer_slice_middle.
    + rewrite Hstart'. by rewrite <- !app_assoc.
    + done.
Qed.

(** The scan of [rest] gives the same parts wherever [rest] stands: after
    any prefix, from the end of the prefix. *)
Lemma split_loop_rest (boundary : jsstring) (rest : Buffer) :
  utf8_encode boundary ≠ [] →
  ∃ ps,
    ∀ done st,
      start st = Z.of_nat (length done) →
      end_ st
        = Buffer_indexOf (done ++ rest) (utf8_encode boundary) (start st) →
      split_loop (done ++ rest) boundary (S (length rest)) st
        = Some (parts st ++ ps).
Proof.
  intros Htoken.
  set (st0 := {| parts := []; start := 0;
                 end_ := Buffer_indexOf rest (utf8_encode boundary) 0 |}).
  assert (split_inv rest boundary st0) as Hinv by done.
  destruct (split_loop_enough rest boundary (S (length rest)) st0 Hinv)
    as [ps Hps].
  { lia. }
  { unfold st0. cbn [start end_]. lia. }
  exists ps. intros done st Hstart Hend.
  apply (split_loop_shift boundary done rest (parts st) Htoken _ st st0);
    [unfold st0; cbn [start]; lia|done|done
    |unfold st0; cbn [parts]; by rewrite app_nil_r|done].
Qed.

(** After framed contents that follow the first delimiter, the locator
    goes on as it does on what is left, taken from a delimiter. *)
Lemma splitContentParts_after (boundary : jsstring) (pre : Buffer)
    (contents : list Buffer) (rest : Buffer) :
  boundary ≠ [] →
  length (utf8_encode boundary) = length boundary →
  ¬ occurs (utf8_encode (js "--" ++ boundary))
      (pre ++ removelast (utf8_encode (js "--" ++ boundary))) →
  Forall (framed_content boundary) contents →
  splitContentParts
    (pre ++ utf8_encode (js "--" ++ boundary)
         ++ concat (map (λ c, c ++ utf8_encode boundary) contents) ++ rest)
    boundary
  = contents
      ++ splitContentParts (utf8_encode (js "--" ++ boundary) ++ rest) boundary.
Proof.
  intros Hne Hascii Hfirst Hall.
  assert (utf8_encode boundary ≠ []) as Htoken.
  { intros Hnil. rewrite Hnil in Hascii. by destruct boundary. }
  set (t := utf8_encode boundary) in *.
  set (d := utf8_encode (js "--" ++ boundary)) in *.
  set (body := concat (map (λ c, c ++ t) contents)).
  set (buffer := pre ++ d ++ body ++ rest).
  (* the scan of [rest], wherever it stands *)
  set (init' := split_init (d ++ rest) boundary).
  assert (start init' = Z.of_nat (length d)) as Hstart'.
  { pose proof (split_init_start boundary [] rest Hascii) as Hs.
    rewrite !app_nil_l in Hs. apply Hs. by apply not_occurs_removelast. }
  destruct (split_loop_rest boundary rest Htoken) as [ps Hps].
  (* the second buffer *)
  assert (splitContentParts (d ++ rest) boundary = ps) as ->.
  { pose proof (Hps d init' Hstart' eq_refl) as Hrun.
    eapply split_loop_agree; [apply splitContentParts_eq|exact Hrun]. }
  (* the first buffer *)
  set (st := {| parts := contents;
                start := Z.of_nat (length ((pre ++ d) ++ body));
                end_ := Buffer_indexOf buffer t
                          (Z.of_nat (length ((pre ++ d) ++ body))) |}).
  assert (buffer = ((pre ++ d) ++ body) ++ rest) as Hbuf
    by (unfold buffer; by rewrite <- !app_assoc).
  pose proof (Hps ((pre ++ d) ++ body) st eq_refl) as Hrun.
  rewrite <- Hbuf in Hrun. specialize (Hrun eq_refl). cbn [parts] in Hrun.
  assert (split_loop buffer boundary (length contents + S (length rest))
            (split_init buffer boundary)
          = split_loop buffer boundary (S (length rest)) st) as Hloop.
  { apply (split_loop_contents boundary rest _ Htoken Hascii contents
             (pre ++ d)); [done| | |done|done|done|done].
    - unfold buffer, body. by rewrite <- !app_assoc.
    - by apply split_init_start. }
  rewrite Hrun in Hloop.
  eapply split_loop_agree; [apply splitContentParts_eq|exact Hloop].
Qed.

(** ** A token of dashes *)

Lemma rotate_one {A} (a x : A) (l : list A) :
  a :: l = l ++ [x] → Forall (λ c, c = a) (l ++ [x]).
Proof.
  revert x. induction l as [|c l IH]; intros x Heq.
  - injection Heq as ->. by repeat constructor.
  - cbn [app] in Heq. injection Heq as -> Heq. constructor; [done|by apply IH].
Qed.

Lemma rotate_two {A} (a x y : A) (l : list A) :
  a :: a :: l = l ++ [x; y] → Forall (λ c, c = a) (l ++ [x; y]).
Proof.
  revert x y. induction l as [|c l IH]; intros x y Heq.
  - injection Heq as -> ->. by repeat constructor.
  - cbn [app] in Heq. injection Heq as -> Heq. constructor; [done|by apply IH].
Qed.

(** A token that holds a byte other than the dash does not begin in the
    two dashes before it. *)
Lemma token_not_in_dashes (token : Buffer) :
  Exists (λ b, b ≠ x2d) token →
  ¬ occurs token (bytes "--" ++ removelast token).
Proof.
  intros Hex (pre & post & Heq).
  assert (token ≠ []) as Hne by (intros ->; by apply Exists_nil in Hex).
  destruct (exists_last Hne) as (token' & x & ->).
  rewrite removelast_last in Heq.
  pose proof (f_equal length Heq) as Hlen.
  rewrite !length_app in Hlen. simpl in Hlen.
  assert (Forall (λ b, b = x2d) (token' ++ [x])) as Hall.
  { destruct pre as [|p pre].
    - destruct post as [|y [|? ?]]; [simpl in Hlen; lia| |simpl in Hlen; lia].
      rewrite app_nil_l, <- app_assoc in Heq. cbn [app] in Heq.
      apply rotate_two in Heq.
      apply Forall_app in Heq as [Ht Hxy]. apply Forall_app. split; [done|].
      apply Forall_cons in Hxy as [? _]. by repeat constructor.
    - destruct pre; [|simpl in Hlen; lia].
      destruct post; [|simpl in Hlen; lia].
      rewrite app_nil_r in Heq. cbn [app bytes list_byte_of_string] in Heq.
      injection Heq as <- Heq. by apply rotate_one. }
  apply Exists_exists in Hex as (b & Hin & Hb).
  by eapply Forall_forall in Hall.
Qed.

Lemma ascii_token_not_in_dashes (boundary : jsstring) :
  forallb (λ c, c <? 128)%N boundary = true →
  Exists (λ c, c ≠ 45%N) boundary →
  ¬ occurs (utf8_encode boundary)
      (bytes "--" ++ removelast (utf8_encode boundary)).
Proof.
  intros Hascii Hex. apply token_not_in_dashes.
  rewrite utf8_encode_ascii by done. unfold ascii_bytes.
  apply Exists_exists in Hex as (c & Hin & Hc).
  apply Exists_exists. exists (byte_of_N c). split.
  - by apply list_elem_of_fmap_2.
  - intros Hb. apply Hc.
    rewrite forallb_forall in Hascii.
    pose proof (Hascii c (proj1 (list_elem_of_In _ _) Hin)) as Hlt.
    apply N.ltb_lt in Hlt.
    rewrite <- (byte_of_N_to_N c) by lia. by rewrite Hb.
Qed.

(** ** The body of a part on the wire *)


(** ** What the two patterns match *)

Lemma attr_char_spec (c : N) : attr_char c = true ↔ c ≠ 59%N ∧ c ≠ 34%N.
Proof.
  unfold attr_char. rewrite negb_true_iff, orb_false_iff, !N.eqb_neq. done.
Qed.

Lemma span_attr_group (group rest : jsstring) :
  Forall (λ c, attr_char c = true) group →
  span_attr (group ++ 34%N :: rest) = (group, 34%N :: rest).
Proof.
  induction 1 as [|c group Hc _ IH]; [done|].
  cbn [app span_attr]. by rewrite Hc, IH.
Qed.

Lemma span_attr_app (s : jsstring) :
  s = (span_attr s).1 ++ (span_attr s).2
  ∧ Forall (λ c, attr_char c = true) (span_attr s).1.
Proof.
  induction s as [|c s [IHs IHrun]]; [done|]. cbn [span_attr].
  destruct (attr_char c) eqn:Hc; [|done].
  destruct (span_attr s) as [run rest]. cbn [fst snd] in *.
  split; [by rewrite IHs at 1|by constructor].
Qed.

(** What a match of one of the two patterns reads. *)
Lemma match_quoted_here_inv (lit s group : jsstring) :
  match_quoted_here lit s = Some group →
  ∃ post, s = lit ++ group ++ 34%N :: post
          ∧ group ≠ [] ∧ Forall (λ c, attr_char c = true) group.
Proof.
  unfold match_quoted_here.
  destruct (starts_with lit s) eqn:Hs; [|done].
  destruct (span_attr_app (drop (length lit) s)) as [Happ Hrun].
  destruct (span_attr (drop (length lit) s)) as [run rest].
  cbn [fst snd] in *.
  destruct run as [|c run]; [done|]. destruct rest as [|q rest]; [done|].
  destruct (N.eqb_spec q 34) as [->|]; [|done]. intros [= <-].
  exists rest. split_and!; [|done|done].
  rewrite (starts_with_inv _ _ Hs) at 1. by rewrite Happ.
Qed.

Lemma match_quoted_here_group (lit group post : jsstring) :
  group ≠ [] → Forall (λ c, attr_char c = true) group →
  match_quoted_here lit (lit ++ group ++ 34%N :: post) = Some group.
Proof.
  intros Hne Hall. unfold match_quoted_here.
  rewrite starts_with_app, drop_app_length, span_attr_group by done.
  by destruct group.
Qed.

(** [exec] of one of the two patterns succeeds exactly on the strings that
    hold the literal, a value of one or more characters of the class, and
    a double quote. *)
Lemma regex_exec_quoted_inv (lit s group : jsstring) :
  regex_exec_quoted lit s = Some group →
  ∃ pre post, s = pre ++ lit ++ group ++ 34%N :: post
              ∧ group ≠ [] ∧ Forall (λ c, attr_char c = true) group.
Proof.
  intros [k Hk]%regex_exec_quoted_here.
  apply match_quoted_here_inv in Hk as (post & Hdrop & Hne & Hall).
  exists (take k s), post. split_and!; [|done|done].
  by rewrite <- Hdrop, take_drop.
Qed.

Lemma regex_exec_quoted_value (lit pre value post : jsstring) :
  value ≠ [] → Forall (λ c, attr_char c = true) value →
  is_Some (regex_exec_quoted lit (pre ++ lit ++ value ++ 34%N :: post)).
Proof.
  intros Hne Hall. apply (regex_exec_quoted_later _ _ (length pre) value).
  rewrite drop_app_length. by apply match_quoted_here_group.
Qed.

Lemma has_filename_value_exec (disposition : jsstring) :
  is_Some (regex_exec_quoted filename_literal disposition)
  ↔ ∃ filename, has_filename_value disposition filename.
Proof.
  split.
  - intros [filename (pre & post & -> & Hne & Hall)%regex_exec_quoted_inv].
    exists filename, pre, post. split_and!; [done|done|].
    eapply Forall_impl; [exact Hall|]. intros c. apply attr_char_spec.
  - intros (filename & pre & post & -> & Hne & Hall).
    apply regex_exec_quoted_value; [done|].
    eapply Forall_impl; [exact Hall|]. intros c. apply attr_char_spec.
Qed.


(** * The claims *)

(** ** C1: a malformed part does not stop the decode

    C1 asks that a part which fails to parse makes the whole decode fail,
    with no form data handed to the caller.  On a body of two parts whose
    second part has a disposition without a name, [processBody] calls the
    callback with the error and then calls it again with [false] and the
    form data built from the first part. *)
Theorem processBody_error_then_partial_result :
  processBody sample_second_nameless (js "XYZ")
    = [CallErr no_name_error;
       CallOk {| fd_proto := None;
                 fd_own := {[ js "title" := Field (js "Hello") ]} |}].
Proof. vm_compute. reflexivity. Qed.

(** ** C2: a delimiter that stands nowhere in the buffer *)

(** C2 as stated fails: with a token that stands nowhere in the body, the
    decode reports no error and hands over an empty form data. *)
Lemma absent_boundary_returns_form_data :
  ¬ occurs (utf8_encode (js "--" ++ js "ABC")) sample_title
  ∧ processBody sample_title (js "ABC") = [CallOk FormData_empty]
  ∧ ¬ decode_fails (processBody sample_title (js "ABC")).
Proof.
  split_and!.
  - absent_by_search.
  - vm_compute. reflexivity.
  - intros [_ Hno]. apply Hno. exists FormData_empty.
    vm_compute. apply list_elem_of_singleton. reflexivity.
Qed.

(** C2, amended: when the delimiter (two dashes and the token) stands
    nowhere in the buffer, the decode does not fail.  The scan for the token
    starts at offset [boundary.length + 1], the calls of the callback end
    with [callback(false, formData)] after the errors of the parts, and when
    the token itself stands nowhere the only call hands over the empty
    form data. *)
Theorem absent_delimiter_still_returns (buffer : Buffer) (boundary : jsstring) :
  ¬ occurs (utf8_encode (js "--" ++ boundary)) buffer →
  start (split_init buffer boundary) = boundary_length boundary + 1
  ∧ (∃ errs formData,
       processBody buffer boundary = map CallErr errs ++ [CallOk formData])
  ∧ (¬ occurs (utf8_encode boundary) buffer →
     processBody buffer boundary = [CallOk FormData_empty]).
Proof.
  intros Hno. split_and!.
  - unfold split_init. cbn [start].
    rewrite (Buffer_indexOf_none _ _ _ Hno). lia.
  - apply processBody_calls.
  - intros Htoken. unfold processBody.
    by rewrite splitContentParts_token_absent.
Qed.

Lemma absent_delimiter_still_returns_witness :
  ¬ occurs (utf8_encode (js "--" ++ js "ABC")) sample_title
  ∧ start (split_init sample_title (js "ABC")) = boundary_length (js "ABC") + 1.
Proof.
  assert (¬ occurs (utf8_encode (js "--" ++ js "ABC")) sample_title) as Hno.
  { apply search_not_occurs; [done|]. vm_compute. reflexivity. }
  split; [exact Hno|].
  exact (proj1 (absent_delimiter_still_returns sample_title (js "ABC") Hno)).
Defined.

(** ** C3: a part without a blank line *)

(** C3 as stated fails: a part with no blank line between its header and
    its body is parsed, and yields a field. *)
Lemma no_blank_line_still_parses :
  ¬ occurs DOUBLE_CRLF sample_no_blank_line
  ∧ parseContent sample_no_blank_line
    = ParseOk (js "title")
        (Field (js ("ontent-Disposition: form-data; " +:+ attr "name" "title"
                    +:+ crlf +:+ "Hello"))).
Proof.
  split.
  - absent_by_search.
  - vm_compute. reflexivity.
Qed.

(** C3, amended: for a part that holds no blank line the splitter does not
    fail.  The index is [-1], so the header block is the part without its
    last byte, the body block is the part without its first three and its
    last four bytes, and the one error [parseContent] can then report is the
    missing name. *)
Theorem no_blank_line_slices (buffer : Buffer) :
  ¬ occurs DOUBLE_CRLF buffer →
  part_index buffer = -1
  ∧ part_head buffer = Buffer_toString (take (length buffer - 1) buffer)
  ∧ part_body buffer = drop 3 (take (length buffer - 4) buffer)
  ∧ ∀ err, parseContent buffer = ParseErr err → err = no_name_error.
Proof.
  intros Hno.
  assert (part_index buffer = -1) as Hindex by by apply Buffer_indexOf_none.
  split_and!; [done| | |apply parseContent_error].
  - unfold part_head. by rewrite Hindex, Buffer_slice_no_index_head.
  - unfold part_body. rewrite Hindex. apply Buffer_slice_no_index_body.
Qed.

Lemma no_blank_line_slices_witness :
  ¬ occurs DOUBLE_CRLF sample_no_blank_line
  ∧ part_index sample_no_blank_line = -1.
Proof.
  assert (¬ occurs DOUBLE_CRLF sample_no_blank_line) as Hno.
  { apply search_not_occurs; [done|]. vm_compute. reflexivity. }
  split; [exact Hno|].
  exact (proj1 (no_blank_line_slices sample_no_blank_line Hno)).
Defined.

(** ** C4: header lines that are not of the shape name, separator, value *)

(** C4 as stated fails: a header block with a line that has no separator
    and a line that has two is parsed; the first line is kept with the value
    [undefined] and the second with the piece between its separators. *)
Lemma odd_header_lines_still_parse :
  ¬ occurs (js ": ") (js "garbage")
  ∧ parseContent sample_odd_header_lines
    = ParseOk (js "title") (Field (js "Hello"))
  ∧ parseHeaders (part_head sample_odd_header_lines) !! js "garbage"
    = Some None
  ∧ parseHeaders (part_head sample_odd_header_lines) !! js "x-a"
    = Some (Some (js "b")).
Proof.
  split_and!.
  - absent_by_search.
  - vm_compute. reflexivity.
  - vm_compute. reflexivity.
  - vm_compute. reflexivity.
Qed.

(** C4, amended: the header parser never fails.  A line is split on the
    separator; the lower-cased first piece is the key and the second piece
    the value.  So a line in which the separator stands nowhere is stored
    with the value [undefined], a line with one separator with the text
    after it, a line with more separators with the text between the first
    two; and the one error [parseContent] reports, whatever the header
    lines, is the missing name. *)
Theorem header_lines_never_fail (headers : Headers) (key value rest : jsstring) :
  ¬ occurs (js ": ") key → ¬ occurs (js ": ") value →
  header_line headers key = Headers_set (toLowerCase key) None headers
  ∧ header_line headers (key ++ js ": " ++ value)
    = Headers_set (toLowerCase key) (Some value) headers
  ∧ header_line headers (key ++ js ": " ++ value ++ js ": " ++ rest)
    = Headers_set (toLowerCase key) (Some value) headers
  ∧ ∀ buffer err, parseContent buffer = ParseErr err → err = no_name_error.
Proof.
  intros Hkey Hvalue. split_and!.
  - by apply header_line_no_separator.
  - unfold header_line. by rewrite String_split_two_pieces.
  - unfold header_line.
    destruct (String_split_more_pieces key value rest Hkey Hvalue) as [others ->].
    done.
  - apply parseContent_error.
Qed.

Lemma header_lines_never_fail_witness :
  ¬ occurs (js ": ") (js "X-A") ∧ ¬ occurs (js ": ") (js "b")
  ∧ header_line ∅ (js "X-A" ++ js ": " ++ js "b" ++ js ": " ++ js "c")
    = Headers_set (toLowerCase (js "X-A")) (Some (js "b")) ∅.
Proof.
  assert (¬ occurs (js ": ") (js "X-A")) as Hkey.
  { apply search_not_occurs; [done|]. vm_compute. reflexivity. }
  assert (¬ occurs (js ": ") (js "b")) as Hvalue.
  { apply search_not_occurs; [done|]. vm_compute. reflexivity. }
  split; [exact Hkey|]. split; [exact Hvalue|].
  exact (proj1 (proj2 (proj2
    (header_lines_never_fail ∅ (js "X-A") (js "b") (js "c") Hkey Hvalue)))).
Defined.

(** ** C5: a disposition with a filename and no name

    C5 asks for the missing-name error whenever the disposition has no
    [name] attribute, other attributes or not.  The pattern for the name is
    not tied to the start of an attribute, so it matches inside
    [filename=...]: a part whose disposition has only a [filename]
    attribute is accepted, under the file name as its name. *)
Theorem filename_only_is_accepted :
  part_disposition sample_filename_only
    = js ("form-data; " +:+ attr "filename" "a.txt")
  ∧ parseContent sample_filename_only
    = ParseOk (js "a.txt")
        (File (js "a.txt") (js "application/octet-stream") (bytes "data")).
Proof. split; vm_compute; reflexivity. Qed.

(** ** C6: file or field *)

(** C6 as stated fails: a part whose disposition carries [filename] with
    an empty value yields a field, not a file.  Such a disposition holds no
    [filename] attribute with a value. *)
Lemma empty_filename_is_a_field :
  part_disposition sample_empty_filename
    = js ("form-data; " +:+ attr "name" "doc" +:+ "; "
          +:+ attr "filename" EmptyString)
  ∧ parseContent sample_empty_filename
    = ParseOk (js "doc") (Field (js "data"))
  ∧ ¬ ∃ filename,
        has_filename_value (part_disposition sample_empty_filename) filename.
Proof.
  split_and!; [vm_compute; reflexivity..|].
  intros [? [=]]%has_filename_value_exec.
Qed.

(** C6, amended: a part whose disposition holds the text [filename=], a
    double quote, at least one character other than the semicolon and the
    double quote, and a double quote, yields a file, with such a value as
    its file name and the body bytes as they are; any other part, a part
    with an empty [filename] among them, yields a field with the decoded
    body, or the missing-name error. *)
Theorem file_iff_filename_value (buffer : Buffer) :
  ((∃ filename, has_filename_value (part_disposition buffer) filename) →
   ∃ name filename contentType,
     has_filename_value (part_disposition buffer) filename
     ∧ parseContent buffer
       = ParseOk name (File filename contentType (part_body buffer)))
  ∧ (¬ (∃ filename, has_filename_value (part_disposition buffer) filename) →
     parseContent buffer = ParseErr no_name_error
     ∨ ∃ name,
         parseContent buffer
           = ParseOk name (Field (Buffer_toString (part_body buffer)))).
Proof.
  unfold parseContent. fold (part_disposition buffer).
  rewrite <- has_filename_value_exec.
  destruct (regex_exec_quoted filename_literal (part_disposition buffer))
    as [filename|] eqn:Hfile; split.
  - intros _. destruct (filename_match_name_match _ _ Hfile) as [name ->].
    apply regex_exec_quoted_inv in Hfile as (pre & post & Hd & Hne & Hall).
    eexists name, filename, _. split; [|done].
    exists pre, post. split_and!; [done|done|].
    eapply Forall_impl; [exact Hall|]. intros c. apply attr_char_spec.
  - intros Hno. destruct Hno. eauto.
  - by intros [? [=]].
  - intros _.
    destruct (regex_exec_quoted name_literal (part_disposition buffer));
      [right; eauto|by left].
Qed.

Lemma file_iff_filename_value_witness :
  has_filename_value (part_disposition sample_file_part) (js "a.txt")
  ∧ ∃ name filename contentType,
      parseContent sample_file_part
        = ParseOk name (File filename contentType (part_body sample_file_part)).
Proof.
  assert (has_filename_value (part_disposition sample_file_part) (js "a.txt"))
    as Hvalue.
  { exists (js ("form-data; " +:+ attr "name" "doc" +:+ "; ")), [].
    split_and!; [vm_compute; reflexivity|done|].
    repeat constructor; done. }
  split; [exact Hvalue|].
  destruct (proj1 (file_iff_filename_value sample_file_part)
              (ex_intro _ (js "a.txt") Hvalue))
    as (name & filename & contentType & _ & Hparse).
  exists name, filename, contentType. exact Hparse.
Defined.

(** ** C7: the bytes left out of the body *)



(** ** C8: where the first part begins *)

(** C8 as stated fails: the first part of the sample body begins at
    offset 5, right after the delimiter, and its first two bytes are the
    line end that follows the delimiter; a range that skipped the line end
    would begin at offset 7. *)
Lemma first_part_keeps_line_end :
  Buffer_indexOf sample_title (utf8_encode (js "--" ++ js "XYZ")) 0 = 0
  ∧ splitContentParts sample_title (js "XYZ") = [Buffer_slice sample_title 5 64]
  ∧ take 2 (Buffer_slice sample_title 5 64) = CRLF
  ∧ Buffer_slice sample_title 5 64 ≠ Buffer_slice sample_title 7 64.
Proof. split_and!; vm_compute; done. Qed.

(** C8, amended: for a token of ASCII characters and a buffer in which
    the delimiter (two dashes and the token) stands, the first part the
    locator emits begins right after the first occurrence of the delimiter
    and ends where the token next stands: the buffer is what stands before
    that delimiter, the delimiter, the part, the token and a rest.  The
    line end after the delimiter is not skipped: the byte that follows the
    delimiter is the first byte of the part. *)
Theorem first_part_begins_after_delimiter (buffer : Buffer)
    (boundary : jsstring) (p : Buffer) (ps : list Buffer) :
  forallb (λ c, c <? 128)%N boundary = true →
  occurs (utf8_encode (js "--" ++ boundary)) buffer →
  splitContentParts buffer boundary = p :: ps →
  ∃ pre rest,
    buffer = pre ++ utf8_encode (js "--" ++ boundary)
                 ++ p ++ utf8_encode boundary ++ rest
    ∧ ¬ occurs (utf8_encode (js "--" ++ boundary))
          (pre ++ removelast (utf8_encode (js "--" ++ boundary)))
    ∧ p ≠ []
    ∧ ¬ occurs (utf8_encode boundary) (p ++ removelast (utf8_encode boundary))
    ∧ ∀ b after,
        buffer = pre ++ utf8_encode (js "--" ++ boundary) ++ b :: after →
        p !! 0%nat = Some b.
Proof.
  intros Hascii Hocc Hps.
  apply occurs_first in Hocc as (pre & after & Hbuf & Hfirst); [|done].
  destruct (split_first_part buffer boundary pre after p ps) as
    (Hne & rest & Hafter & Hno); [by apply ascii_token_length|done|done|done|].
  exists pre, rest. rewrite Hbuf, Hafter. split_and!; [done|done|done|done|].
  intros b after' Heq. apply app_inv_head, app_inv_head in Heq.
  destruct p as [|b' p]; [done|]. by injection Heq as ->.
Qed.

Lemma first_part_begins_after_delimiter_witness :
  forallb (λ c, c <? 128)%N (js "XYZ") = true
  ∧ occurs (utf8_encode (js "--" ++ js "XYZ")) sample_preamble
  ∧ splitContentParts sample_preamble (js "XYZ")
    = [raw_part (disposition_line (attr "name" "title")) "Hello"]
  ∧ ∃ pre rest,
      sample_preamble
        = pre ++ utf8_encode (js "--" ++ js "XYZ")
              ++ raw_part (disposition_line (attr "name" "title")) "Hello"
              ++ utf8_encode (js "XYZ") ++ rest
      ∧ ¬ occurs (utf8_encode (js "--" ++ js "XYZ"))
            (pre ++ removelast (utf8_encode (js "--" ++ js "XYZ"))).
Proof.
  assert (occurs (utf8_encode (js "--" ++ js "XYZ")) sample_preamble) as Hocc.
  { exists (bytes ("preamble" +:+ crlf)), (drop 15 sample_preamble).
    vm_compute. reflexivity. }
  assert (splitContentParts sample_preamble (js "XYZ")
          = [raw_part (disposition_line (attr "name" "title")) "Hello"]) as Hps
    by (vm_compute; reflexivity).
  split; [reflexivity|]. split; [exact Hocc|]. split; [exact Hps|].
  destruct (first_part_begins_after_delimiter sample_preamble (js "XYZ") _ _
              eq_refl Hocc Hps) as (pre & rest & Hbuf & Hfirst & _).
  exists pre, rest. split; [exact Hbuf|exact Hfirst].
Defined.

(** ** C9: nothing between two delimiters *)

(** C9 as stated fails: for two delimiters with no byte between them the
    locator emits no empty part.  The part it emits for that range holds
    two bytes, the dashes of the second delimiter. *)
Lemma gap_part_holds_two_dashes :
  sample_adjacent_delimiters
    = utf8_encode (js "--" ++ js "XYZ") ++ utf8_encode (js "--" ++ js "XYZ")
        ++ drop 10 sample_adjacent_delimiters
  ∧ splitContentParts sample_adjacent_delimiters (js "XYZ")
    = [bytes "--"; raw_part (disposition_line (attr "name" "title")) "Hello"]
  ∧ ([] ∉ splitContentParts sample_adjacent_delimiters (js "XYZ")).
Proof.
  assert (splitContentParts sample_adjacent_delimiters (js "XYZ")
          = [bytes "--"; raw_part (disposition_line (attr "name" "title")) "Hello"])
    as Hps by (vm_compute; reflexivity).
  split_and!; [vm_compute; reflexivity|exact Hps|].
  rewrite Hps. intros Hin.
  apply elem_of_cons in Hin as [Hp|Hin]; [discriminate|].
  apply elem_of_cons in Hin as [Hp|Hin]; [discriminate|].
  by apply elem_of_nil in Hin.
Qed.

(** C9, amended: where two delimiters stand with no byte between them,
    after any parts the locator cuts as they were sent, the locator emits
    a part for the range between them and goes on scanning: its result is
    the parts before, that part, and the parts it gives on the buffer from
    the second delimiter on.  The part is rejected by [parseContent], with
    the missing-name error.  It is not an empty range: it is the two dashes
    of the second delimiter, which the locator, cutting at the token,
    leaves at the end of every part.  The token holds ASCII characters, one
    of them not a dash, and the first of the delimiters is the first in the
    buffer. *)
Theorem gap_between_delimiters_is_a_part (boundary : jsstring)
    (pre : Buffer) (before : list Buffer) (rest : Buffer) :
  forallb (λ c, c <? 128)%N boundary = true →
  Exists (λ c, c ≠ 45%N) boundary →
  ¬ occurs (utf8_encode (js "--" ++ boundary))
      (pre ++ removelast (utf8_encode (js "--" ++ boundary))) →
  Forall (λ part, ¬ occurs (utf8_encode boundary)
                      ((part ++ bytes "--")
                         ++ removelast (utf8_encode boundary))) before →
  splitContentParts
    (pre ++ utf8_encode (js "--" ++ boundary)
         ++ concat (map (λ part, part ++ utf8_encode (js "--" ++ boundary))
                        before)
         ++ utf8_encode (js "--" ++ boundary) ++ rest)
    boundary
  = map (λ part, part ++ bytes "--") before
      ++ bytes "--"
      :: splitContentParts (utf8_encode (js "--" ++ boundary) ++ rest) boundary
  ∧ parseContent (bytes "--") = ParseErr no_name_error.
Proof.
  intros Hascii Hdash Hfirst Hbefore. split; [|vm_compute; reflexivity].
  assert (boundary ≠ []) as Hne by (intros ->; by apply Exists_nil in Hdash).
  pose proof (splitContentParts_after boundary pre
                (map (λ part, part ++ bytes "--") before ++ [bytes "--"])
                rest Hne (ascii_token_length _ Hascii) Hfirst) as Hafter.
  rewrite <- app_assoc in Hafter. cbn [app] in Hafter.
  rewrite <- Hafter.
  - do 3 f_equal. rewrite map_app, concat_app, map_map. cbn [map concat].
    rewrite app_nil_r, <- !app_assoc, utf8_encode_delimiter.
    do 2 f_equal. apply map_ext. intros part. by rewrite <- app_assoc.
  - apply Forall_app. split.
    + apply Forall_map. eapply Forall_impl; [exact Hbefore|].
      intros part Hno. split; [by destruct part|done].
    + apply Forall_singleton. split; [done|].
      by apply ascii_token_not_in_dashes.
Qed.

Lemma gap_between_delimiters_is_a_part_witness :
  forallb (λ c, c <? 128)%N (js "XYZ") = true
  ∧ Exists (λ c, c ≠ 45%N) (js "XYZ")
  ∧ ¬ occurs (utf8_encode (js "--" ++ js "XYZ"))
        ([] ++ removelast (utf8_encode (js "--" ++ js "XYZ")))
  ∧ Forall (λ part, ¬ occurs (utf8_encode (js "XYZ"))
                      ((part ++ bytes "--")
                         ++ removelast (utf8_encode (js "XYZ"))))
      [wire_part (bytes crlf, bytes "x")]
  ∧ splitContentParts
      ([] ++ utf8_encode (js "--" ++ js "XYZ")
          ++ concat (map (λ part, part ++ utf8_encode (js "--" ++ js "XYZ"))
                         [wire_part (bytes crlf, bytes "x")])
          ++ utf8_encode (js "--" ++ js "XYZ")
          ++ drop 10 sample_adjacent_delimiters)
      (js "XYZ")
    = map (λ part, part ++ bytes "--") [wire_part (bytes crlf, bytes "x")]
        ++ bytes "--"
        :: splitContentParts
             (utf8_encode (js "--" ++ js "XYZ")
                ++ drop 10 sample_adjacent_delimiters) (js "XYZ").
Proof.
  assert (Exists (λ c, c ≠ 45%N) (js "XYZ")) as Hdash
    by (by apply Exists_cons_hd).
  assert (¬ occurs (utf8_encode (js "--" ++ js "XYZ"))
            ([] ++ removelast (utf8_encode (js "--" ++ js "XYZ")))) as Hfirst
    by absent_by_search.
  assert (Forall (λ part, ¬ occurs (utf8_encode (js "XYZ"))
                            ((part ++ bytes "--")
                               ++ removelast (utf8_encode (js "XYZ"))))
            [wire_part (bytes crlf, bytes "x")]) as Hbefore
    by (repeat constructor; absent_by_search).
  split; [reflexivity|]. split; [exact Hdash|]. split; [exact Hfirst|].
  split; [exact Hbefore|].
  exact (proj1 (gap_between_delimiters_is_a_part (js "XYZ") []
                  [wire_part (bytes crlf, bytes "x")]
                  (drop 10 sample_adjacent_delimiters)
                  eq_refl Hdash Hfirst Hbefore)).
Defined.

(** ** C10: the loop of the locator terminates *)

(** C10: for every buffer and every token that is not empty, the loop
    returns a list of parts after at most one test of its condition per
    byte of the buffer and one more, more fuel changing nothing; and every
    turn that emits a part moves the scan forward: the new [start] is the
    previous [end] plus [boundary.length], above the previous [end], which
    is above the previous [start]. *)
Theorem splitContentParts_terminates (buffer : Buffer) (boundary : jsstring) :
  boundary ≠ [] →
  (∃ ps,
     splitContentParts_fuel buffer boundary (S (length buffer)) = Some ps
     ∧ ∀ fuel, (S (length buffer) ≤ fuel)%nat →
               splitContentParts_fuel buffer boundary fuel = Some ps)
  ∧ ∀ st st',
      split_step buffer boundary st = Some st' →
      start st' = end_ st + boundary_length boundary
      ∧ end_ st < start st'
      ∧ start st < end_ st.
Proof.
  intros Hne. split.
  - destruct (split_loop_total buffer boundary) as [ps Hps].
    exists ps. split; [done|]. intros fuel Hfuel.
    by eapply split_loop_more.
  - intros st st' (Hlt & _ & Hs' & _)%split_step_Some.
    assert (0 < boundary_length boundary)
      by (unfold boundary_length; destruct boundary; [done|simpl; lia]).
    lia.
Qed.

Lemma splitContentParts_terminates_witness :
  js "XYZ" ≠ []
  ∧ ∃ ps, splitContentParts_fuel sample_title (js "XYZ")
            (S (length sample_title)) = Some ps.
Proof.
  assert (js "XYZ" ≠ []) as Hne by (vm_compute; discriminate).
  split; [exact Hne|].
  destruct (proj1 (splitContentParts_terminates sample_title (js "XYZ") Hne))
    as [ps [Hps _]].
  exists ps. exact Hps.
Defined.

(** * Further properties *)

(** ** Text as UTF-8 *)

Section Utf8.
Local Open Scope N_scope.

Ltac euclid c d :=
  let q := fresh "q" in
  let r := fresh "r" in
  pose proof (N.div_mod c d ltac:(discriminate));
  pose proof (N.mod_lt c d ltac:(discriminate));
  set (q := c / d) in *; set (r := c mod d) in *; clearbody q r.

Lemma lor_shiftl_6 (x y : N) : y < 64 → N.lor (N.shiftl x 6) y = x * 64 + y.
Proof.
  intros Hy. rewrite N.shiftl_mul_pow2. change (2 ^ 6) with 64.
  rewrite <- N.lxor_lor, <- N.add_nocarry_lxor; [reflexivity| |].
  all: apply N.bits_inj_0; intros n; rewrite N.land_spec;
    destruct (N.lt_ge_cases n 6) as [Hn|Hn].
  all: try (change 64 with (2 ^ 6);
            rewrite N.mul_pow2_bits_low by assumption; reflexivity).
  all: rewrite (N.bits_above_log2 y n), Bool.andb_false_r; try reflexivity.
  all: destruct (N.eq_dec y 0) as [->|Hy0]; [simpl; lia|];
    apply N.lt_le_trans with 6; [|exact Hn];
    apply N.log2_lt_pow2; [lia|exact Hy].
Qed.

Lemma shiftr_6 c : N.shiftr c 6 = c / 64.
Proof. apply (N.shiftr_div_pow2 c 6). Qed.
Lemma shiftr_12 c : N.shiftr c 12 = c / 4096.
Proof. apply (N.shiftr_div_pow2 c 12). Qed.
Lemma shiftr_18 c : N.shiftr c 18 = c / 262144.
Proof. apply (N.shiftr_div_pow2 c 18). Qed.
Lemma shiftr_10 c : N.shiftr c 10 = c / 1024.
Proof. apply (N.shiftr_div_pow2 c 10). Qed.
Lemma land_3F c : N.land c 0x3F = c mod 64.
Proof. apply (N.land_ones c 6). Qed.
Lemma land_1F c : N.land c 0x1F = c mod 32.
Proof. apply (N.land_ones c 5). Qed.
Lemma land_F c : N.land c 0xF = c mod 16.
Proof. apply (N.land_ones c 4). Qed.
Lemma land_7 c : N.land c 0x7 = c mod 8.
Proof. apply (N.land_ones c 3). Qed.
Lemma land_3FF c : N.land c 0x3FF = c mod 1024.
Proof. apply (N.land_ones c 10). Qed.

(** What the decoder does on a first byte and on a byte that continues a
    sequence. *)
Lemma utf8_decode_first (x : byte) (bs : Buffer) :
  utf8_decode None (x :: bs)
  = (utf8_lead (Byte.to_N x)).1 ++ utf8_decode (utf8_lead (Byte.to_N x)).2 bs.
Proof. cbn [utf8_decode]. by destruct (utf8_lead (Byte.to_N x)). Qed.

Lemma utf8_decode_next (c rem lo hi : N) (x : byte) (bs : Buffer) :
  lo <= Byte.to_N x → Byte.to_N x <= hi →
  utf8_decode (Some (c, rem, lo, hi)) (x :: bs)
  = if rem =? 1
    then utf16_units (N.lor (N.shiftl c 6) (N.land (Byte.to_N x) 0x3F))
           ++ utf8_decode None bs
    else utf8_decode
           (Some (N.lor (N.shiftl c 6) (N.land (Byte.to_N x) 0x3F),
                  rem - 1, 0x80, 0xBF)) bs.
Proof.
  intros Hlo Hhi. cbn [utf8_decode].
  by rewrite (proj2 (N.leb_le _ _) Hlo), (proj2 (N.leb_le _ _) Hhi).
Qed.

Lemma utf8_lead_1 b : b <= 0x7F → utf8_lead b = ([b], None).
Proof. intros Hb. unfold utf8_lead. by rewrite (proj2 (N.leb_le _ _) Hb). Qed.

Lemma utf8_lead_2 b :
  0xC2 <= b <= 0xDF → utf8_lead b = ([], Some (N.land b 0x1F, 1, 0x80, 0xBF)).
Proof.
  intros Hb. unfold utf8_lead.
  rewrite (proj2 (N.leb_gt _ _)) by lia.
  rewrite (proj2 (N.leb_le 0xC2 b)), (proj2 (N.leb_le b 0xDF)) by lia. done.
Qed.

Lemma utf8_lead_3 b :
  0xE0 <= b <= 0xEF →
  utf8_lead b
  = ([], Some (N.land b 0xF, 2, (if b =? 0xE0 then 0xA0 else 0x80),
               (if b =? 0xED then 0x9F else 0xBF))).
Proof.
  intros Hb. unfold utf8_lead.
  rewrite (proj2 (N.leb_gt b 0x7F)) by lia.
  rewrite (proj2 (N.leb_gt b 0xDF)), Bool.andb_false_r by lia.
  rewrite (proj2 (N.leb_le 0xE0 b)), (proj2 (N.leb_le b 0xEF)) by lia. done.
Qed.

Lemma utf8_lead_4 b :
  0xF0 <= b <= 0xF4 →
  utf8_lead b
  = ([], Some (N.land b 0x7, 3, (if b =? 0xF0 then 0x90 else 0x80),
               (if b =? 0xF4 then 0x8F else 0xBF))).
Proof.
  intros Hb. unfold utf8_lead.
  rewrite (proj2 (N.leb_gt b 0x7F)) by lia.
  rewrite (proj2 (N.leb_gt b 0xDF)), Bool.andb_false_r by lia.
  rewrite (proj2 (N.leb_gt b 0xEF)), Bool.andb_false_r by lia.
  rewrite (proj2 (N.leb_le 0xF0 b)), (proj2 (N.leb_le b 0xF4)) by lia. done.
Qed.

(** A code point that is no surrogate, encoded and decoded. *)
Lemma utf8_decode_bytes (c : N) (bs : Buffer) :
  c < 0x110000 → ¬ (0xD800 <= c <= 0xDFFF) →
  utf8_decode None (utf8_bytes c ++ bs) = utf16_units c ++ utf8_decode None bs.
Proof.
  intros Hmax Hsur. unfold utf8_bytes.
  destruct (N.ltb_spec c 0x80) as [H1|H1].
  { cbn [map app]. rewrite utf8_decode_first, byte_of_N_to_N by lia.
    rewrite utf8_lead_1 by lia. cbn [fst snd app].
    unfold utf16_units. by rewrite (proj2 (N.ltb_lt c 0x10000)) by lia. }
  destruct (N.ltb_spec c 0x800) as [H2|H2].
  { cbn [map app]. rewrite shiftr_6, land_3F.
    euclid c 64.
    rewrite utf8_decode_first, byte_of_N_to_N by lia.
    rewrite utf8_lead_2 by lia. cbn [fst snd app].
    rewrite utf8_decode_next; rewrite byte_of_N_to_N by lia; [|lia|lia].
    cbn [N.eqb Pos.eqb]. rewrite land_1F, land_3F.
    replace ((192 + q) mod 32) with q
      by (apply (N.mod_unique _ 32 6); lia).
    replace ((128 + r) mod 64) with r
      by (apply (N.mod_unique _ 64 2); lia).
    rewrite lor_shiftl_6 by lia. by replace (q * 64 + r) with c by lia. }
  destruct (N.ltb_spec c 0x10000) as [H3|H3].
  { cbn [map app]. rewrite shiftr_12, shiftr_6, !land_3F.
    assert (c / 64 = 64 * (c / 4096) + (c / 64) mod 64 ∧ (c / 64) mod 64 < 64)
      as [Hq Hqr].
    { pose proof (N.div_mod (c / 64) 64 ltac:(discriminate)) as Hd.
      rewrite N.Div0.div_div in Hd. change (64 * 64) with 4096 in Hd.
      split; [exact Hd|by apply N.mod_lt]. }
    euclid c 64. set (m := q mod 64) in *. set (h := c / 4096) in *.
    clearbody m h.
    rewrite utf8_decode_first, byte_of_N_to_N by lia.
    rewrite utf8_lead_3 by lia. cbn [fst snd app].
    rewrite land_F.
    replace ((224 + h) mod 16) with h
      by (apply (N.mod_unique _ 16 14); lia).
    rewrite utf8_decode_next; rewrite byte_of_N_to_N by lia.
    2:{ destruct (N.eqb_spec (224 + h) 224); lia. }
    2:{ destruct (N.eqb_spec (224 + h) 237); lia. }
    cbn [N.eqb Pos.eqb N.sub Pos.sub Pos.sub_mask Pos.double_mask
         Pos.succ_double_mask Pos.pred_double Pos.double_pred_mask].
    rewrite land_3F.
    replace ((128 + m) mod 64) with m
      by (apply (N.mod_unique _ 64 2); lia).
    rewrite lor_shiftl_6 by lia.
    rewrite utf8_decode_next; rewrite byte_of_N_to_N by lia; [|lia|lia].
    cbn [N.eqb Pos.eqb]. rewrite land_3F.
    replace ((128 + r) mod 64) with r
      by (apply (N.mod_unique _ 64 2); lia).
    rewrite lor_shiftl_6 by lia.
    by replace ((h * 64 + m) * 64 + r) with c by lia. }
  cbn [map app]. rewrite shiftr_18, shiftr_12, shiftr_6, !land_3F.
  assert (c / 64 = 64 * (c / 4096) + (c / 64) mod 64 ∧ (c / 64) mod 64 < 64)
    as [Hq Hqr].
  { pose proof (N.div_mod (c / 64) 64 ltac:(discriminate)) as Hd.
    rewrite N.Div0.div_div in Hd. change (64 * 64) with 4096 in Hd.
    split; [exact Hd|by apply N.mod_lt]. }
  assert (c / 4096 = 64 * (c / 262144) + (c / 4096) mod 64
          ∧ (c / 4096) mod 64 < 64) as [Hp Hpr].
  { pose proof (N.div_mod (c / 4096) 64 ltac:(discriminate)) as Hd.
    rewrite N.Div0.div_div in Hd. change (4096 * 64) with 262144 in Hd.
    split; [exact Hd|by apply N.mod_lt]. }
  euclid c 64. set (m := q mod 64) in *. set (p := c / 4096) in *.
  set (n := p mod 64) in *. set (h := c / 262144) in *.
  clearbody m n h p.
  rewrite utf8_decode_first, byte_of_N_to_N by lia.
  rewrite utf8_lead_4 by lia. cbn [fst snd app].
  rewrite land_7.
  replace ((240 + h) mod 8) with h
    by (apply (N.mod_unique _ 8 30); lia).
  rewrite utf8_decode_next; rewrite byte_of_N_to_N by lia.
  2:{ destruct (N.eqb_spec (240 + h) 240); lia. }
  2:{ destruct (N.eqb_spec (240 + h) 244); lia. }
  cbn [N.eqb Pos.eqb N.sub Pos.sub Pos.sub_mask Pos.double_mask
       Pos.succ_double_mask Pos.pred_double Pos.double_pred_mask].
  rewrite land_3F.
  replace ((128 + n) mod 64) with n
    by (apply (N.mod_unique _ 64 2); lia).
  rewrite lor_shiftl_6 by lia.
  rewrite utf8_decode_next; rewrite byte_of_N_to_N by lia; [|lia|lia].
  cbn [N.eqb Pos.eqb N.sub Pos.sub Pos.sub_mask Pos.double_mask
       Pos.succ_double_mask Pos.pred_double Pos.double_pred_mask].
  rewrite land_3F.
  replace ((128 + m) mod 64) with m
    by (apply (N.mod_unique _ 64 2); lia).
  rewrite lor_shiftl_6 by lia.
  rewrite utf8_decode_next; rewrite byte_of_N_to_N by lia; [|lia|lia].
  cbn [N.eqb Pos.eqb]. rewrite land_3F.
  replace ((128 + r) mod 64) with r
    by (apply (N.mod_unique _ 64 2); lia).
  rewrite lor_shiftl_6 by lia.
  by replace (((h * 64 + n) * 64 + m) * 64 + r) with c by lia.
Qed.

Lemma utf16_units_pair (u v : N) :
  is_high_surrogate u = true → is_low_surrogate v = true →
  0x10000 + (u - 0xD800) * 0x400 + (v - 0xDC00) < 0x110000
  ∧ ¬ (0xD800 <= 0x10000 + (u - 0xD800) * 0x400 + (v - 0xDC00) <= 0xDFFF)
  ∧ utf16_units (0x10000 + (u - 0xD800) * 0x400 + (v - 0xDC00)) = [u; v].
Proof.
  unfold is_high_surrogate, is_low_surrogate.
  intros [Hu1 Hu2]%andb_prop [Hv1 Hv2]%andb_prop.
  apply N.leb_le in Hu1, Hu2, Hv1, Hv2.
  split_and!; [lia|lia|].
  unfold utf16_units. rewrite (proj2 (N.ltb_ge _ _)) by lia.
  replace (0x10000 + (u - 0xD800) * 0x400 + (v - 0xDC00) - 0x10000)
    with ((u - 0xD800) * 0x400 + (v - 0xDC00)) by lia.
  rewrite (N.shiftr_div_pow2 _ 10), (N.land_ones _ 10).
  change (2 ^ 10) with 1024.
  replace (((u - 0xD800) * 0x400 + (v - 0xDC00)) / 1024) with (u - 0xD800)
    by (apply (N.div_unique _ 1024 _ (v - 0xDC00)); lia).
  replace (((u - 0xD800) * 0x400 + (v - 0xDC00)) mod 1024) with (v - 0xDC00)
    by (apply (N.mod_unique _ 1024 (u - 0xD800)); lia).
  f_equal; [lia|f_equal; lia].
Qed.

(** Encoding such a text and decoding the bytes gives the text back,
    whatever bytes follow. *)
Lemma utf8_decode_encode (s : jsstring) (bs : Buffer) :
  scalar_text s = true →
  utf8_decode None (utf8_encode s ++ bs) = s ++ utf8_decode None bs.
Proof.
  remember (length s) as n eqn:Hn. revert s Hn.
  induction n as [n IH] using lt_wf_ind. intros s -> Hs.
  destruct s as [|u s]; [done|].
  cbn [scalar_text utf8_encode] in *.
  destruct (is_high_surrogate u) eqn:Hu.
  - destruct s as [|v s]; [done|].
    apply andb_prop in Hs as [Hv Hs]. rewrite Hv.
    destruct (utf16_units_pair u v Hu Hv) as (Hmax & Hsur & Hunits).
    rewrite <- app_assoc, utf8_decode_bytes, Hunits by done.
    cbn [app]. do 2 f_equal.
    apply (IH (length s)); [simpl; lia|done|done].
  - apply andb_prop in Hs as [[Hlow Hmax]%andb_prop Hs].
    apply negb_true_iff in Hlow. apply N.ltb_lt in Hmax.
    unfold is_high_surrogate, is_low_surrogate in Hu, Hlow.
    rewrite <- app_assoc, utf8_decode_bytes.
    + unfold utf16_units. rewrite (proj2 (N.ltb_lt _ _) Hmax).
      cbn [app]. f_equal. apply (IH (length s)); [simpl; lia|done|done].
    + lia.
    + intros [H1 H2].
      destruct (N.leb_spec 0xDC00 u).
      * rewrite (proj2 (N.leb_le u 0xDFFF)) in Hlow by done. done.
      * rewrite (proj2 (N.leb_le 0xD800 u)), (proj2 (N.leb_le u 0xDBFF)) in Hu
          by lia. done.
Qed.

Lemma byte_of_N_CR (n : N) : byte_of_N n = x0d → n = 13.
Proof.
  unfold byte_of_N. destruct (Byte.of_N n) as [b|] eqn:Hb; [|done].
  intros Heq. change (b = x0d) in Heq. subst b.
  apply Byte.to_of_N in Hb. by rewrite <- Hb.
Qed.

Lemma utf8_bytes_not_CR (c : N) : c ≠ 13 → Forall (λ b, b ≠ x0d) (utf8_bytes c).
Proof.
  intros Hc. unfold utf8_bytes.
  repeat case_match; repeat constructor; intros Hb%byte_of_N_CR; lia.
Qed.

Lemma utf8_bytes_nonempty (c : N) : utf8_bytes c ≠ [].
Proof. unfold utf8_bytes. by repeat case_match. Qed.

(** The bytes of a text without carriage return hold no carriage
    return. *)
Lemma utf8_encode_not_CR (s : jsstring) :
  Forall (λ c, c ≠ 13) s → Forall (λ b, b ≠ x0d) (utf8_encode s).
Proof.
  remember (length s) as n eqn:Hn. revert s Hn.
  induction n as [n IH] using lt_wf_ind. intros s -> Hs.
  destruct s as [|u s]; [constructor|].
  apply Forall_cons in Hs as [Hu Hs]. cbn [utf8_encode].
  destruct (is_high_surrogate u) eqn:Hhigh.
  - destruct s as [|v s]; [by apply utf8_bytes_not_CR|].
    destruct (is_low_surrogate v) eqn:Hlow.
    + apply Forall_cons in Hs as [Hv Hs]. apply Forall_app. split.
      * apply utf8_bytes_not_CR.
        unfold is_high_surrogate in Hhigh.
        apply andb_prop in Hhigh as [H1%N.leb_le H2%N.leb_le]. lia.
      * apply (IH (length s)); [simpl; lia|done|done].
    + apply Forall_app. split; [by apply utf8_bytes_not_CR|].
      apply (IH (length (v :: s))); [simpl; lia|done|done].
  - apply Forall_app. split; [by apply utf8_bytes_not_CR|].
    apply (IH (length s)); [simpl; lia|done|done].
Qed.

Lemma utf8_encode_nonempty (s : jsstring) : s ≠ [] → utf8_encode s ≠ [].
Proof.
  destruct s as [|u s]; [done|]. intros _. cbn [utf8_encode].
  repeat case_match; try apply utf8_bytes_nonempty;
    intros [Hnil _]%app_eq_nil; by apply utf8_bytes_nonempty in Hnil.
Qed.
End Utf8.

Lemma scalar_text_app (s t : jsstring) :
  scalar_text s = true → scalar_text t = true → scalar_text (s ++ t) = true.
Proof.
  remember (length s) as n eqn:Hn. revert s Hn.
  induction n as [n IH] using lt_wf_ind. intros s -> Hs Ht.
  destruct s as [|u s]; [done|]. cbn [app scalar_text] in *.
  destruct (is_high_surrogate u).
  - destruct s as [|v s]; [done|]. cbn [app].
    apply andb_prop in Hs as [-> Hs]. cbn [andb].
    apply (IH (length s)); [simpl; lia|done|done|done].
  - apply andb_prop in Hs as [-> Hs]. cbn [andb].
    apply (IH (length s)); [simpl; lia|done|done|done].
Qed.

(** ** Searching and splitting past units that cannot start a match *)

Section FirstUnit.
Context {A : Type} `{EqDecision A}.
Implicit Types lit pre rest s : list A.

Lemma starts_with_first_unit a lit c s :
  c ≠ a → starts_with (a :: lit) (c :: s) = false.
Proof. intros Hc. simpl. by rewrite bool_decide_false by done. Qed.

Lemma starts_with_third_unit a b lit c s :
  c ≠ a → starts_with (a :: b :: a :: lit) (a :: b :: c :: s) = false.
Proof.
  intros Hc. simpl. rewrite (bool_decide_false (a = c)) by done.
  by rewrite !andb_false_r.
Qed.

Lemma search_cons lit c s pos :
  search lit (c :: s) pos
    = if starts_with lit (c :: s) then pos else search lit s (pos + 1).
Proof. done. Qed.

Lemma search_past a lit pre rest pos :
  Forall (λ c, c ≠ a) pre →
  search (a :: lit) (pre ++ rest) pos
    = search (a :: lit) rest (pos + Z.of_nat (length pre)).
Proof.
  intros Hall. revert pos.
  induction Hall as [|c pre Hc _ IH]; intros pos.
  - simpl. f_equal. lia.
  - cbn [app search]. rewrite starts_with_first_unit by done.
    rewrite IH. f_equal. simpl. lia.
Qed.
End FirstUnit.

Lemma split_from_skip (sep cur s rest : jsstring) :
  split_from sep (length s) cur (s ++ rest) = split_from sep 0 cur rest.
Proof. induction s as [|c s IH]; [done|]. exact IH. Qed.

(** A piece without the first unit of the separator, then the separator:
    the piece is cut there. *)
Lemma split_from_piece (a : N) (sep piece rest cur : jsstring) :
  Forall (λ c, c ≠ a) piece →
  split_from (a :: sep) 0 cur (piece ++ (a :: sep) ++ rest)
    = (cur ++ piece) :: split_from (a :: sep) 0 [] rest.
Proof.
  intros Hall. revert cur.
  induction Hall as [|c piece Hc _ IH]; intros cur.
  - rewrite app_nil_l, app_nil_r.
    change ((a :: sep) ++ rest) with (a :: (sep ++ rest)).
    cbn [split_from].
    change (a :: sep ++ rest) with ((a :: sep) ++ rest).
    rewrite starts_with_app. f_equal.
    replace (length (a :: sep) - 1)%nat with (length sep) by (simpl; lia).
    apply split_from_skip.
  - change ((c :: piece) ++ (a :: sep) ++ rest)
      with (c :: (piece ++ (a :: sep) ++ rest)).
    cbn [split_from]. rewrite starts_with_first_unit by done.
    rewrite IH. by rewrite <- app_assoc.
Qed.

Lemma split_from_lines_from (a : N) (sep line : jsstring)
    (lines : list jsstring) :
  Forall (λ c, c ≠ a) line → Forall (Forall (λ c, c ≠ a)) lines →
  split_from (a :: sep) 0 []
    (line ++ concat (map (λ l, (a :: sep) ++ l) lines))
    = line :: lines.
Proof.
  intros Hline Hall. revert line Hline.
  induction Hall as [|l lines Hl _ IH]; intros line Hline.
  - simpl. rewrite app_nil_r, split_from_no_sep; [done|].
    by apply not_occurs_first_unit.
  - cbn [map concat]. rewrite <- app_assoc.
    rewrite split_from_piece by done. rewrite IH by done. done.
Qed.

(** Lines, each after a separator whose first unit they do not hold: the
    pieces are an empty piece and the lines. *)
Lemma String_split_lines (a : N) (sep : jsstring) (lines : list jsstring) :
  Forall (Forall (λ c, c ≠ a)) lines →
  String_split (concat (map (λ l, (a :: sep) ++ l) lines)) (a :: sep)
    = [] :: lines.
Proof.
  intros Hall. unfold String_split. destruct Hall as [|l lines Hl Hall]; [done|].
  cbn [map concat]. rewrite <- app_assoc.
  rewrite <- (app_nil_l ((a :: sep) ++ _)).
  rewrite split_from_piece by constructor.
  by rewrite split_from_lines_from.
Qed.

(** ** The blank line of an encoded part *)

Lemma search_blank_line_past (line rest : Buffer) pos :
  line ≠ [] → Forall (λ b, b ≠ x0d) line →
  search DOUBLE_CRLF (CRLF ++ line ++ rest) pos
    = search DOUBLE_CRLF rest (pos + 2 + Z.of_nat (length line)).
Proof.
  intros Hne Hall. destruct Hall as [|b line Hb Hall]; [done|].
  unfold DOUBLE_CRLF, CRLF. cbn [app].
  rewrite search_cons, starts_with_third_unit by done.
  rewrite search_cons, starts_with_first_unit by done.
  rewrite search_cons, starts_with_first_unit by done.
  rewrite search_past by done. f_equal. simpl. lia.
Qed.

Lemma search_blank_line (lines : list Buffer) (rest : Buffer) pos :
  Forall (λ line, line ≠ [] ∧ Forall (λ b, b ≠ x0d) line) lines →
  search DOUBLE_CRLF
    (concat (map (λ line, CRLF ++ line) lines) ++ DOUBLE_CRLF ++ rest) pos
    = pos + Z.of_nat (length (concat (map (λ line, CRLF ++ line) lines))).
Proof.
  intros Hall. revert pos.
  induction Hall as [|line lines [Hne Hline] _ IH]; intros pos.
  - simpl. rewrite Z.add_0_r. reflexivity.
  - cbn [map concat]. rewrite <- !app_assoc.
    rewrite search_blank_line_past by done. rewrite IH.
    rewrite !length_app. simpl. lia.
Qed.

Lemma part_index_header_block (lines : list jsstring) (rest : Buffer) :
  Forall (λ line, line ≠ [] ∧ Forall (λ c, c ≠ 13%N) line) lines →
  part_index (header_block lines ++ DOUBLE_CRLF ++ rest)
    = Z.of_nat (length (header_block lines)).
Proof.
  intros Hall. unfold part_index.
  rewrite Buffer_indexOf_search; [|done|lia|rewrite !length_app; simpl; lia].
  rewrite drop_0. unfold header_block.
  rewrite <- (map_map utf8_encode (λ line, CRLF ++ line)).
  rewrite search_blank_line; [simpl; lia|].
  apply Forall_map. eapply Forall_impl; [exact Hall|].
  intros line [Hne Hline]. split; [by apply utf8_encode_nonempty|].
  by apply utf8_encode_not_CR.
Qed.

(** ** The two patterns on an encoded disposition *)

Lemma Forall_neq_compute (a : N) (l : jsstring) :
  forallb (λ c, negb (c =? a)%N) l = true → Forall (λ c, c ≠ a) l.
Proof.
  induction l as [|c l IH]; simpl; [constructor|].
  intros [Hc Hl]%andb_prop. constructor; [|by apply IH].
  apply negb_true_iff, N.eqb_neq in Hc. done.
Qed.

Lemma forallb_Forall_true {A} (f : A → bool) (l : list A) :
  forallb f l = true → Forall (λ c, f c = true) l.
Proof.
  induction l as [|c l IH]; simpl; [constructor|].
  intros [Hc Hl]%andb_prop. constructor; [done|by apply IH].
Qed.

Lemma app_cons_unique {A} (x : A) (a a' b b' : list A) :
  Forall (λ c, c ≠ x) a → Forall (λ c, c ≠ x) a' →
  a ++ x :: b = a' ++ x :: b' → a = a' ∧ b = b'.
Proof.
  intros Ha. revert a'. induction Ha as [|c a Hc _ IH]; intros a' Ha' Heq.
  - destruct Ha' as [|c' a' Hc' _]; simpl in Heq.
    + by injection Heq.
    + injection Heq as Hx _. by destruct Hc'.
  - destruct Ha' as [|c' a' Hc' Ha']; simpl in Heq.
    + injection Heq as Hx _. by destruct Hc.
    + injection Heq as -> Heq. destruct (IH a' Ha' Heq) as [-> ->]. done.
Qed.

Lemma starts_with_second_unit {A} `{EqDecision A} (a b c : A) (lit s : list A) :
  c ≠ b → starts_with (a :: b :: lit) (a :: c :: s) = false.
Proof.
  intros Hc. simpl. rewrite (bool_decide_false (b = c)) by done.
  by rewrite andb_false_r.
Qed.

Lemma regex_exec_quoted_found (lit s group : jsstring) :
  match_quoted_here lit s = Some group → regex_exec_quoted lit s = Some group.
Proof. intros Hm. destruct s; simpl; by rewrite Hm. Qed.

Lemma regex_exec_quoted_next (lit : jsstring) c s :
  match_quoted_here lit (c :: s) = None →
  regex_exec_quoted lit (c :: s) = regex_exec_quoted lit s.
Proof. intros Hm. by rewrite regex_exec_quoted_cons, Hm. Qed.

Lemma match_quoted_here_first_unit (a : N) (lit : jsstring) c s :
  c ≠ a → match_quoted_here (a :: lit) (c :: s) = None.
Proof.
  intros Hc. unfold match_quoted_here.
  by rewrite starts_with_first_unit.
Qed.

(** Units that are not the first of the literal are passed over. *)
Lemma regex_exec_quoted_past (a : N) (lit pre s : jsstring) :
  Forall (λ c, c ≠ a) pre →
  regex_exec_quoted (a :: lit) (pre ++ s) = regex_exec_quoted (a :: lit) s.
Proof.
  induction 1 as [|c pre Hc _ IH]; [done|].
  cbn [app]. rewrite regex_exec_quoted_next; [done|].
  by apply match_quoted_here_first_unit.
Qed.

(** The literal, a group and the closing quote: the group is read. *)
Lemma regex_exec_quoted_group (lit group rest : jsstring) :
  group ≠ [] → Forall (λ c, attr_char c = true) group →
  regex_exec_quoted lit (lit ++ group ++ 34%N :: rest) = Some group.
Proof.
  intros Hne Hall. apply regex_exec_quoted_found. unfold match_quoted_here.
  rewrite starts_with_app, drop_app_length, span_attr_group by done.
  destruct group; [done|]. done.
Qed.

(** Inside a quoted value the literal of a pattern can only end on the
    closing quote, and then no group follows it. *)
Lemma match_quoted_here_closing (lit value after : jsstring) :
  Forall (λ c, c ≠ 34%N) lit → Forall (λ c, c ≠ 34%N) value →
  (span_attr after).1 = [] →
  match_quoted_here (lit ++ [34%N]) (value ++ 34%N :: after) = None.
Proof.
  intros Hlit Hvalue Hafter. unfold match_quoted_here.
  destruct (starts_with (lit ++ [34%N]) (value ++ 34%N :: after)) eqn:Hs;
    [|done].
  apply starts_with_inv in Hs. rewrite <- app_assoc in Hs. cbn [app] in Hs.
  apply app_cons_unique in Hs as [_ Hrest]; [|done|done].
  rewrite <- Hrest. destruct (span_attr after) as [run rest].
  simpl in Hafter. by subst run.
Qed.

Lemma regex_exec_quoted_through (lit value after : jsstring) :
  Forall (λ c, c ≠ 34%N) lit → Forall (λ c, c ≠ 34%N) value →
  (span_attr after).1 = [] →
  regex_exec_quoted (lit ++ [34%N]) (value ++ 34%N :: after)
    = regex_exec_quoted (lit ++ [34%N]) (34%N :: after).
Proof.
  intros Hlit Hvalue Hafter.
  induction Hvalue as [|c value Hc Hvalue IH]; [done|].
  cbn [app]. rewrite regex_exec_quoted_next; [done|].
  by apply (match_quoted_here_closing lit (c :: value) after);
    [|constructor|].
Qed.

Lemma regex_exec_quoted_past_head (lit pre s : jsstring) (a : N) :
  head lit = Some a → Forall (λ c, c ≠ a) pre →
  regex_exec_quoted lit (pre ++ s) = regex_exec_quoted lit s.
Proof.
  destruct lit as [|a' lit]; [done|]. intros [= ->].
  apply regex_exec_quoted_past.
Qed.

(** A pair of code units in two strings put together stands in the
    first, in the second, or across the two. *)
Lemma occurs_pair_app {A} `{EqDecision A} (a b : A) (x y : list A) :
  occurs [a; b] (x ++ y) →
  occurs [a; b] x ∨ occurs [a; b] y ∨ ∃ x' y', x = x' ++ [a] ∧ y = b :: y'.
Proof.
  induction x as [|c x IH]; [by right; left|].
  cbn [app]. intros [Hhere|Hlater]%occurs_cons_inv.
  - cbn [starts_with] in Hhere.
    apply andb_prop in Hhere as [<-%bool_decide_eq_true Hhere].
    destruct x as [|d x].
    + destruct y as [|d y]; [done|]. cbn [app starts_with] in Hhere.
      apply andb_prop in Hhere as [<-%bool_decide_eq_true _].
      right; right. by exists [], y.
    + cbn [app starts_with] in Hhere.
      apply andb_prop in Hhere as [<-%bool_decide_eq_true _].
      left. by exists [], x.
  - destruct (IH Hlater) as [(pre & post & ->)|[Hy|(x' & y' & -> & ->)]].
    + left. by exists (c :: pre), post.
    + by right; left.
    + right; right. by exists (c :: x'), y'.
Qed.

Lemma not_occurs_pair_snoc {A} `{EqDecision A} (a b c : A) (x y : list A) :
  c ≠ a → ¬ occurs [a; b] (x ++ [c]) → ¬ occurs [a; b] y →
  ¬ occurs [a; b] ((x ++ [c]) ++ y).
Proof.
  intros Hc Hx Hy [?|[?|(x' & y' & Heq & _)]]%occurs_pair_app; [done|done|].
  apply app_inj_tail in Heq as [_ ->]. done.
Qed.

Lemma not_occurs_pair_cons {A} `{EqDecision A} (a b d : A) (x y : list A) :
  d ≠ b → ¬ occurs [a; b] x → ¬ occurs [a; b] (d :: y) →
  ¬ occurs [a; b] (x ++ d :: y).
Proof.
  intros Hd Hx Hy [?|[?|(x' & y' & _ & [= ->])]]%occurs_pair_app; done.
Qed.

(** A quoted value after a literal: the separator stands nowhere in it
    when it stands neither in the literal, nor in the value, nor in what
    follows the closing quote. *)
Lemma quoted_no_separator (lit value rest : jsstring) :
  ¬ occurs (js ": ") (lit ++ [34%N]) → ¬ occurs (js ": ") value →
  ¬ occurs (js ": ") (34%N :: rest) →
  ¬ occurs (js ": ") ((lit ++ [34%N]) ++ value ++ 34%N :: rest).
Proof.
  intros Hlit Hvalue Hrest.
  apply (not_occurs_pair_snoc 58%N 32%N 34%N); [done|done|].
  by apply (not_occurs_pair_cons 58%N 32%N 34%N).
Qed.

Lemma stands_in_spec (needle s : jsstring) :
  needle ≠ [] → stands_in needle s = false → ¬ occurs needle s.
Proof.
  intros Hne Hs. apply search_not_occurs; [done|].
  unfold stands_in in Hs. apply negb_false_iff in Hs. by apply Z.eqb_eq.
Qed.

Lemma header_text_spec (s : jsstring) :
  header_text s = true →
  scalar_text s = true ∧ Forall (λ c, c ≠ 13%N) s ∧ ¬ occurs (js ": ") s.
Proof.
  unfold header_text. intros [[Hscalar Hcr]%andb_prop Hsep]%andb_prop.
  split_and!; [done| |].
  - clear -Hcr. induction s as [|c s IH]; [constructor|].
    cbn [forallb] in Hcr. apply andb_prop in Hcr as [Hc Hcr].
    apply negb_true_iff, N.eqb_neq in Hc. constructor; [done|by apply IH].
  - apply stands_in_spec; [done|]. by apply negb_true_iff.
Qed.

Lemma attr_text_spec (s : jsstring) :
  attr_text s = true →
  s ≠ [] ∧ header_text s = true ∧ forallb attr_char s = true.
Proof.
  unfold attr_text. intros [[Hne Htext]%andb_prop Hattr]%andb_prop.
  split_and!; [by destruct s|done|done].
Qed.

Lemma forallb_Forall_prop {A} (f : A → bool) (P : A → Prop) (l : list A) :
  (∀ c, f c = true → P c) → forallb f l = true → Forall P l.
Proof.
  intros HfP Hl. eapply Forall_impl; [by apply forallb_Forall_true|done].
Qed.

(** The pattern for the name reads the name of an encoded disposition. *)
Lemma regex_name_disposition (name rest : jsstring) :
  name ≠ [] → forallb attr_char name = true →
  regex_exec_quoted name_literal
    (js "form-data; " ++ name_literal ++ name ++ 34%N :: rest) = Some name.
Proof.
  intros Hne Hname.
  rewrite (regex_exec_quoted_past_head _ _ _ 110%N);
    [|done|by apply Forall_neq_compute].
  apply regex_exec_quoted_group; [done|].
  by apply forallb_Forall_true.
Qed.

Lemma name_not_quote (name : jsstring) :
  forallb attr_char name = true → Forall (λ c, c ≠ 34%N) name.
Proof.
  apply forallb_Forall_prop. by intros c [_ ?]%attr_char_spec.
Qed.

(** The pattern for the file name passes over the name of an encoded
    disposition, whatever the name. *)
Lemma regex_filename_past_name (name after : jsstring) :
  forallb attr_char name = true → (span_attr after).1 = [] →
  regex_exec_quoted filename_literal
    (js "form-data; " ++ name_literal ++ name ++ 34%N :: after)
  = regex_exec_quoted filename_literal (34%N :: after).
Proof.
  intros Hname Hafter.
  change (js "form-data; " ++ name_literal ++ name ++ 34%N :: after)
    with (102%N :: 111%N
          :: (js ("rm-data; name=" +:+ dquote) ++ name ++ 34%N :: after)).
  rewrite regex_exec_quoted_next.
  2:{ unfold match_quoted_here.
      change filename_literal
        with (102%N :: 105%N :: js ("lename=" +:+ dquote)).
      by rewrite starts_with_second_unit. }
  change (111%N :: (js ("rm-data; name=" +:+ dquote) ++ name ++ 34%N :: after))
    with (js ("orm-data; name=" +:+ dquote) ++ name ++ 34%N :: after).
  rewrite (regex_exec_quoted_past_head _ _ _ 102%N);
    [|done|by apply Forall_neq_compute].
  apply (regex_exec_quoted_through (js "filename="));
    [by apply Forall_neq_compute|by apply name_not_quote|done].
Qed.

Lemma regex_filename_field (name : jsstring) :
  forallb attr_char name = true →
  regex_exec_quoted filename_literal
    (js "form-data; " ++ name_literal ++ name ++ [34%N]) = None.
Proof.
  intros Hname. by rewrite regex_filename_past_name.
Qed.

Lemma regex_filename_file (name filename : jsstring) :
  forallb attr_char name = true →
  filename ≠ [] → forallb attr_char filename = true →
  regex_exec_quoted filename_literal
    (js "form-data; " ++ name_literal ++ name ++ 34%N
       :: js "; " ++ filename_literal ++ filename ++ [34%N]) = Some filename.
Proof.
  intros Hname Hne Hfilename.
  rewrite regex_filename_past_name by done.
  change (34%N :: js "; " ++ filename_literal ++ filename ++ [34%N])
    with ([34%N; 59%N; 32%N] ++ filename_literal ++ filename ++ [34%N]).
  rewrite (regex_exec_quoted_past_head _ _ _ 102%N);
    [|done|by apply Forall_neq_compute].
  apply regex_exec_quoted_group; [done|].
  by apply forallb_Forall_true.
Qed.

(** ** The headers of an encoded part *)

Lemma Headers_set_insert (key : jsstring) (value : option jsstring)
    (headers : Headers) :
  key ≠ js "__proto__" → Headers_set key value headers = <[key := value]> headers.
Proof. intros Hkey. unfold Headers_set. by rewrite decide_False. Qed.

Lemma header_line_pair (headers : Headers) (key value : jsstring) :
  ¬ occurs (js ": ") key → ¬ occurs (js ": ") value →
  toLowerCase key ≠ js "__proto__" →
  header_line headers (key ++ js ": " ++ value)
    = <[toLowerCase key := Some value]> headers.
Proof.
  intros Hkey Hvalue Hproto. unfold header_line.
  rewrite String_split_two_pieces by done.
  by apply Headers_set_insert.
Qed.

(** The header block of lines that UTF-8 carries decodes to the lines. *)
Lemma header_block_text (lines : list jsstring) :
  Forall (λ line, scalar_text line = true) lines →
  Buffer_toString (header_block lines)
    = concat (map (λ line, [13%N; 10%N] ++ line) lines).
Proof.
  unfold Buffer_toString, header_block.
  induction 1 as [|line lines Hline _ IH]; [done|].
  cbn [map concat]. rewrite <- !app_assoc.
  change (utf8_decode None (CRLF ++ utf8_encode line
            ++ concat (map (λ line, CRLF ++ utf8_encode line) lines)))
    with ([13%N; 10%N]
            ++ utf8_decode None (utf8_encode line
                 ++ concat (map (λ line, CRLF ++ utf8_encode line) lines))).
  by rewrite utf8_decode_encode, IH.
Qed.

(** The disposition of a well-formed part is a text that UTF-8 carries,
    without carriage return, and the separator of a header name and its
    value stands nowhere in it. *)
Lemma wf_disposition (p : PartSpec) :
  wf_part p = true →
  scalar_text (spec_disposition p) = true
  ∧ Forall (λ c, c ≠ 13%N) (spec_disposition p)
  ∧ ¬ occurs (js ": ") (spec_disposition p).
Proof.
  destruct p as [name body|name filename contentType body];
    cbn [wf_part spec_disposition].
  - intros (_ & (Hscalar & Hcr & Hsep)%header_text_spec & _)%attr_text_spec.
    split_and!.
    + repeat apply scalar_text_app; done.
    + repeat apply Forall_app_2; try done; by apply Forall_neq_compute.
    + change (js "form-data; " ++ name_literal ++ name ++ [34%N])
        with ((js "form-data; name=" ++ [34%N]) ++ name ++ 34%N :: []).
      apply quoted_no_separator; [absent_by_search|done|absent_by_search].
  - intros [[Hname Hfile]%andb_prop _]%andb_prop.
    apply attr_text_spec in Hname
      as (_ & (Hscalar & Hcr & Hsep)%header_text_spec & _).
    apply attr_text_spec in Hfile
      as (_ & (Hscalar' & Hcr' & Hsep')%header_text_spec & _).
    split_and!.
    + repeat apply scalar_text_app; done.
    + repeat apply Forall_app_2; try done; by apply Forall_neq_compute.
    + change (js "form-data; " ++ name_literal ++ name ++ [34%N]
                ++ js "; " ++ filename_literal ++ filename ++ [34%N])
        with ((js "form-data; name=" ++ [34%N]) ++ name
                ++ 34%N :: (js "; filename=" ++ [34%N]) ++ filename ++ [34%N]).
      apply quoted_no_separator; [absent_by_search|done|].
      change (34%N :: (js "; filename=" ++ [34%N]) ++ filename ++ [34%N])
        with (((34%N :: js "; filename=") ++ [34%N]) ++ filename ++ 34%N :: []).
      apply quoted_no_separator; [absent_by_search|done|absent_by_search].
Qed.

(** The content type of a well-formed file part, when it has one. *)
Lemma wf_content_type (name filename type : jsstring) (body : Buffer) :
  wf_part (FilePart name filename (Some type) body) = true →
  type ≠ [] ∧ scalar_text type = true ∧ Forall (λ c, c ≠ 13%N) type
  ∧ ¬ occurs (js ": ") type.
Proof.
  cbn [wf_part]. intros [_ [Hne Htype]%andb_prop]%andb_prop.
  apply header_text_spec in Htype as (? & ? & ?).
  split_and!; [by destruct type|done|done|done].
Qed.

(** The header lines of a well-formed part are not empty, UTF-8 carries
    them, and they hold no carriage return. *)
Lemma wf_lines (p : PartSpec) :
  wf_part p = true →
  Forall (λ line, line ≠ [] ∧ scalar_text line = true
                  ∧ Forall (λ c, c ≠ 13%N) line) (spec_lines p).
Proof.
  intros Hwf. destruct (wf_disposition p Hwf) as (Hscalar & Hcr & _).
  unfold spec_lines. constructor.
  { split_and!; [done|by apply scalar_text_app|].
    apply Forall_app_2; [by apply Forall_neq_compute|done]. }
  destruct p as [|name filename [type|] body]; [constructor| |constructor].
  destruct (wf_content_type _ _ _ _ Hwf) as (_ & Hscalar' & Hcr' & _).
  constructor; [|constructor].
  split_and!; [done|by apply scalar_text_app|].
  apply Forall_app_2; [by apply Forall_neq_compute|done].
Qed.

(** The three slices of an encoded part. *)
Lemma encode_part_index (p : PartSpec) :
  wf_part p = true →
  part_index (encode_part p) = Z.of_nat (length (header_block (spec_lines p))).
Proof.
  intros Hwf. unfold encode_part. apply part_index_header_block.
  eapply Forall_impl; [by apply wf_lines|].
  by intros line (Hne & _ & Hline).
Qed.

Lemma encode_part_body (p : PartSpec) :
  wf_part p = true → part_body (encode_part p) = spec_body p.
Proof.
  intros Hwf. unfold encode_part.
  apply part_body_between; [|done]. by apply encode_part_index.
Qed.

Lemma encode_part_head (p : PartSpec) :
  wf_part p = true →
  part_head (encode_part p)
    = concat (map (λ line, [13%N; 10%N] ++ line) (spec_lines p)).
Proof.
  intros Hwf. unfold part_head. rewrite encode_part_index by done.
  unfold encode_part.
  pose proof (Buffer_slice_middle [] (header_block (spec_lines p))
    (DOUBLE_CRLF ++ spec_body p ++ CRLF ++ bytes "--")) as Hslice.
  rewrite app_nil_l in Hslice. cbn [length] in Hslice.
  change (Z.of_nat 0) with 0 in Hslice.
  rewrite Z.add_0_l in Hslice. rewrite Hslice.
  apply header_block_text.
  eapply Forall_impl; [by apply wf_lines|]. by intros line (_ & Hline & _).
Qed.

Lemma encode_part_headers (p : PartSpec) :
  wf_part p = true →
  parseHeaders (part_head (encode_part p))
    = foldl header_line ∅ ([] :: spec_lines p).
Proof.
  intros Hwf. unfold parseHeaders. rewrite encode_part_head by done.
  change (Buffer_toString CRLF) with [13%N; 10%N].
  rewrite (String_split_lines 13%N [10%N]); [done|].
  eapply Forall_impl; [by apply wf_lines|]. by intros line (_ & _ & Hline).
Qed.

Lemma header_line_disposition (headers : Headers) (value : jsstring) :
  ¬ occurs (js ": ") value →
  header_line headers (js "Content-Disposition: " ++ value)
    = <[js "content-disposition" := Some value]> headers.
Proof.
  intros Hvalue.
  change (js "Content-Disposition: " ++ value)
    with (js "Content-Disposition" ++ js ": " ++ value).
  rewrite header_line_pair; [done| |done|done].
  apply search_not_occurs; [done|]. vm_compute. reflexivity.
Qed.

Lemma header_line_content_type (headers : Headers) (value : jsstring) :
  ¬ occurs (js ": ") value →
  header_line headers (js "Content-Type: " ++ value)
    = <[js "content-type" := Some value]> headers.
Proof.
  intros Hvalue.
  change (js "Content-Type: " ++ value)
    with (js "Content-Type" ++ js ": " ++ value).
  rewrite header_line_pair; [done| |done|done].
  apply search_not_occurs; [done|]. vm_compute. reflexivity.
Qed.

Lemma encode_part_disposition (p : PartSpec) :
  wf_part p = true → part_disposition (encode_part p) = spec_disposition p.
Proof.
  intros Hwf. unfold part_disposition. rewrite encode_part_headers by done.
  destruct (wf_disposition p Hwf) as (_ & _ & Hdisp).
  unfold spec_lines. cbn [foldl].
  change (header_line ∅ []) with (<[[] := None]> (∅ : Headers)).
  rewrite header_line_disposition by done.
  destruct p as [|name filename [type|] body]; cbn [foldl].
  - unfold Headers_get. by rewrite lookup_insert_eq.
  - rewrite header_line_content_type.
    + unfold Headers_get. rewrite lookup_insert_ne by done.
      by rewrite lookup_insert_eq.
    + by destruct (wf_content_type _ _ _ _ Hwf) as (_ & _ & _ & ?).
  - unfold Headers_get. by rewrite lookup_insert_eq.
Qed.

Lemma encode_part_content_type (p : PartSpec) :
  wf_part p = true →
  Headers_get (parseHeaders (part_head (encode_part p))) (js "content-type")
    = match p with
      | FilePart _ _ contentType _ => contentType
      | FieldPart _ _ => None
      end.
Proof.
  intros Hwf. rewrite encode_part_headers by done.
  destruct (wf_disposition p Hwf) as (_ & _ & Hdisp).
  unfold spec_lines. cbn [foldl].
  change (header_line ∅ []) with (<[[] := None]> (∅ : Headers)).
  rewrite header_line_disposition by done.
  destruct p as [|name filename [type|] body]; cbn [foldl].
  - unfold Headers_get. by rewrite !lookup_insert_ne, lookup_empty by done.
  - rewrite header_line_content_type.
    + unfold Headers_get. by rewrite lookup_insert_eq.
    + by destruct (wf_content_type _ _ _ _ Hwf) as (_ & _ & _ & ?).
  - unfold Headers_get. by rewrite !lookup_insert_ne, lookup_empty by done.
Qed.

(** ** Decoding what was encoded *)

Lemma parseContent_field_part (name : jsstring) (body : Buffer) :
  wf_part (FieldPart name body) = true →
  parseContent (encode_part (FieldPart name body))
    = ParseOk name (Field (Buffer_toString body)).
Proof.
  intros Hwf. unfold parseContent.
  fold (part_disposition (encode_part (FieldPart name body))).
  rewrite encode_part_disposition, encode_part_body by done.
  cbn [wf_part] in Hwf. cbn [spec_disposition spec_body].
  apply attr_text_spec in Hwf as (Hne & _ & Hname).
  rewrite (regex_name_disposition name []); [|done|done].
  by rewrite regex_filename_field.
Qed.

Lemma parseContent_file_part (name filename : jsstring)
    (contentType : option jsstring) (body : Buffer) :
  wf_part (FilePart name filename contentType body) = true →
  parseContent (encode_part (FilePart name filename contentType body))
    = ParseOk name
        (File filename
           (default (js "application/octet-stream") contentType) body).
Proof.
  intros Hwf. unfold parseContent.
  fold (part_disposition (encode_part (FilePart name filename contentType body))).
  rewrite encode_part_disposition, encode_part_body by done.
  rewrite encode_part_content_type by done.
  cbn [wf_part] in Hwf. cbn [spec_disposition spec_body].
  apply andb_prop in Hwf as [[Hname Hfile]%andb_prop Htype].
  apply attr_text_spec in Hname as (Hne & _ & Hname).
  apply attr_text_spec in Hfile as (Hfne & _ & Hfile).
  change ([34%N] ++ js "; " ++ filename_literal ++ filename ++ [34%N])
    with (34%N :: js "; " ++ filename_literal ++ filename ++ [34%N]).
  rewrite (regex_name_disposition name
             (js "; " ++ filename_literal ++ filename ++ [34%N]));
    [|done|done].
  rewrite (regex_filename_file name filename); [|done|done|done].
  destruct contentType as [[|c type]|]; [done|done|done].
Qed.

(** X3: a part as it stands on the wire parses to its name and its
    value: a field to the text of its body, a file to its file name, its
    content type (or the default one) and the bytes of its body as they
    are, whatever these bytes.  This holds of a part whose name and file
    name are not empty and hold no semicolon, no double quote, no carriage
    return, no colon followed by a space and no surrogate without its
    partner, and whose content type, when it has one, is not empty and
    holds no carriage return, no colon followed by a space and no
    surrogate without its partner ([wf_part]). *)
Theorem encoded_part_parses_back (p : PartSpec) :
  wf_part p = true →
  parseContent (encode_part p) = ParseOk (spec_name p) (spec_value p).
Proof.
  destruct p as [name body|name filename contentType body]; intros Hwf.
  - by apply parseContent_field_part.
  - by apply parseContent_file_part.
Qed.

Lemma encoded_part_parses_back_witness :
  wf_part (FilePart (js "image") (233%N :: js "t:1.jpg")
             (Some (js "image/jpeg")) [x00; xff; x0d; x0a]) = true
  ∧ parseContent
      (encode_part (FilePart (js "image") (233%N :: js "t:1.jpg")
                      (Some (js "image/jpeg")) [x00; xff; x0d; x0a]))
    = ParseOk (js "image")
        (File (233%N :: js "t:1.jpg") (js "image/jpeg") [x00; xff; x0d; x0a]).
Proof.
  split; [reflexivity|].
  exact (encoded_part_parses_back
           (FilePart (js "image") (233%N :: js "t:1.jpg")
              (Some (js "image/jpeg")) [x00; xff; x0d; x0a]) eq_refl).
Defined.

Lemma encode_part_nonempty (p : PartSpec) : encode_part p ≠ [].
Proof. by destruct p as [|? ? [|] ?]. Qed.

Lemma processPart_encoded (ps : list PartSpec) calls formData :
  Forall (λ p, wf_part p = true) ps →
  foldl processPart (calls, formData) (map encode_part ps)
    = (calls,
       foldl (λ formData p, FormData_set (spec_name p) (spec_value p) formData)
             formData ps).
Proof.
  intros Hall. revert formData.
  induction Hall as [|p ps Hp _ IH]; intros formData; [done|].
  cbn [map foldl]. unfold processPart at 2.
  destruct p as [name body|name filename contentType body].
  - rewrite parseContent_field_part by done. apply IH.
  - rewrite parseContent_file_part by done. apply IH.
Qed.

(** X1: the locator cuts a framed body back into its contents. *)
Theorem framed_body_is_cut_back (boundary : jsstring)
    (contents : list Buffer) (tail : Buffer) :
  boundary ≠ [] →
  forallb (λ c, c <? 128)%N boundary = true →
  Forall (framed_content boundary) contents →
  ¬ occurs (utf8_encode boundary) tail →
  splitContentParts (frame boundary contents tail) boundary = contents.
Proof.
  intros Hne Hascii Hall Htail.
  apply splitContentParts_frame; [done| |done|done].
  by apply ascii_token_length.
Qed.

Lemma processPart_encode_body (boundary : jsstring) (ps : list PartSpec) :
  ascii_token boundary → Forall (sendable boundary) ps →
  foldl processPart ([], FormData_empty)
        (splitContentParts (encode_body boundary ps) boundary)
    = ([], spec_formData ps).
Proof.
  intros (Hne & Hascii & Htail) Hall. unfold encode_body.
  rewrite splitContentParts_frame;
    [|done|by apply ascii_token_length| |done].
  - rewrite processPart_encoded; [done|].
    eapply Forall_impl; [exact Hall|]. by intros p [Hwf _].
  - apply Forall_map. eapply Forall_impl; [exact Hall|].
    intros p [_ Hno]. split; [apply encode_part_nonempty|done].
Qed.

(** X6: a body of well-formed parts decodes, with no error, to the form
    data of these parts: the names assigned to the values, in order.
    The parts are well formed ([wf_part]: names and
    file names not empty, without semicolon, double quote, carriage
    return, colon followed by a space, or surrogate without its partner;
    a content type, when sent, not empty and without the last three), and
    the token holds ASCII characters, is not empty, and stands neither in
    a part as sent nor in the two dashes and the line end that close the
    body ([ascii_token], [sendable]). *)
Theorem encoded_body_decodes_back (boundary : jsstring) (ps : list PartSpec) :
  ascii_token boundary → Forall (sendable boundary) ps →
  processBody (encode_body boundary ps) boundary = [CallOk (spec_formData ps)].
Proof.
  intros Htoken Hall. unfold processBody.
  by rewrite processPart_encode_body.
Qed.

Lemma framed_body_is_cut_back_witness :
  js "XYZ" ≠ []
  ∧ forallb (λ c, c <? 128)%N (js "XYZ") = true
  ∧ Forall (framed_content (js "XYZ")) [bytes "ab"; bytes "c"]
  ∧ ¬ occurs (utf8_encode (js "XYZ")) (bytes "--")
  ∧ splitContentParts (frame (js "XYZ") [bytes "ab"; bytes "c"] (bytes "--"))
      (js "XYZ") = [bytes "ab"; bytes "c"].
Proof.
  assert (js "XYZ" ≠ []) as Hne by done.
  assert (Forall (framed_content (js "XYZ")) [bytes "ab"; bytes "c"]) as Hall.
  { repeat constructor; try done;
      (apply search_not_occurs; [done|]; vm_compute; reflexivity). }
  assert (¬ occurs (utf8_encode (js "XYZ")) (bytes "--")) as Htail.
  { apply search_not_occurs; [done|]. vm_compute. reflexivity. }
  split; [exact Hne|]. split; [reflexivity|].
  split; [exact Hall|]. split; [exact Htail|].
  exact (framed_body_is_cut_back (js "XYZ") [bytes "ab"; bytes "c"]
           (bytes "--") Hne eq_refl Hall Htail).
Defined.

Lemma encoded_body_decodes_back_witness :
  ascii_token (js "XYZ")
  ∧ Forall (sendable (js "XYZ"))
      [FieldPart (js "caption") (bytes "Ada");
       FilePart (js "image") (js "ada.jpg") (Some (js "image/jpeg"))
         [x00; xff; x0d; x0a]]
  ∧ processBody
      (encode_body (js "XYZ")
         [FieldPart (js "caption") (bytes "Ada");
          FilePart (js "image") (js "ada.jpg") (Some (js "image/jpeg"))
            [x00; xff; x0d; x0a]])
      (js "XYZ")
    = [CallOk
         (spec_formData
            [FieldPart (js "caption") (bytes "Ada");
             FilePart (js "image") (js "ada.jpg") (Some (js "image/jpeg"))
               [x00; xff; x0d; x0a]])].
Proof.
  assert (ascii_token (js "XYZ")) as Htoken.
  { split_and!; [done|reflexivity|].
    apply search_not_occurs; [done|]. vm_compute. reflexivity. }
  assert (Forall (sendable (js "XYZ"))
            [FieldPart (js "caption") (bytes "Ada");
             FilePart (js "image") (js "ada.jpg") (Some (js "image/jpeg"))
               [x00; xff; x0d; x0a]]) as Hall.
  { repeat constructor;
      (apply search_not_occurs; [done|]; vm_compute; reflexivity). }
  split; [exact Htoken|]. split; [exact Hall|].
  exact (encoded_body_decodes_back (js "XYZ") _ Htoken Hall).
Defined.

(** ** The form data built by [processBody] *)

Lemma FormData_set_other (key other : jsstring) value formData :
  key ≠ other →
  fd_own (FormData_set key value formData) !! other = fd_own formData !! other.
Proof.
  intros Hne. unfold FormData_set. case_decide.
  - by destruct value.
  - simpl. by rewrite lookup_insert_ne.
Qed.

Lemma FormData_set_proto value formData :
  fd_own (FormData_set (js "__proto__") value formData) = fd_own formData.
Proof. unfold FormData_set. rewrite decide_True by done. by destruct value. Qed.

Lemma FormData_set_same (key : jsstring) value formData :
  key ≠ js "__proto__" →
  fd_own (FormData_set key value formData) !! key = Some value.
Proof.
  intros Hne. unfold FormData_set. rewrite decide_False by done.
  simpl. by rewrite lookup_insert_eq.
Qed.

Lemma processPart_other (contents : list Buffer) acc (name : jsstring) :
  Forall (λ content, ∀ value, parseContent content ≠ ParseOk name value)
         contents →
  fd_own (foldl processPart acc contents).2 !! name = fd_own acc.2 !! name.
Proof.
  intros Hall. revert acc.
  induction Hall as [|content contents Hc _ IH]; intros acc; [done|].
  cbn [foldl]. rewrite IH. unfold processPart.
  destruct (parseContent content) as [err|name' value] eqn:Hparse; [done|].
  cbn [snd]. apply FormData_set_other. intros ->. by eapply Hc.
Qed.

(** X8: of the parts that parse to the same name, the last one gives the
    value of the name in the form data; parts that fail, and parts of
    other names, leave it. *)
Theorem last_part_of_a_name_wins (contents rest : list Buffer) (content : Buffer)
    (name : jsstring) (value : FormValue) acc :
  parseContent content = ParseOk name value →
  name ≠ js "__proto__" →
  Forall (λ later, ∀ value', parseContent later ≠ ParseOk name value') rest →
  fd_own (foldl processPart acc (contents ++ content :: rest)).2 !! name
    = Some value.
Proof.
  intros Hparse Hname Hrest.
  rewrite foldl_app. cbn [foldl]. rewrite processPart_other by done.
  unfold processPart at 1. rewrite Hparse. cbn [snd].
  by apply FormData_set_same.
Qed.

Lemma last_part_of_a_name_wins_witness :
  parseContent
    (encode_part (FieldPart (js "title") (bytes "second")))
    = ParseOk (js "title") (Field (js "second"))
  ∧ js "title" ≠ js "__proto__"
  ∧ fd_own
      (foldl processPart ([], FormData_empty)
         ([encode_part (FieldPart (js "title") (bytes "first"))]
            ++ encode_part (FieldPart (js "title") (bytes "second"))
            :: [encode_part (FieldPart (js "other") (bytes "x"))])).2
      !! js "title"
    = Some (Field (js "second")).
Proof.
  assert (parseContent (encode_part (FieldPart (js "title") (bytes "second")))
          = ParseOk (js "title") (Field (js "second"))) as Hparse
    by (vm_compute; reflexivity).
  assert (js "title" ≠ js "__proto__") as Hname by done.
  split; [exact Hparse|]. split; [exact Hname|].
  apply (last_part_of_a_name_wins _ _ _ _ _ _ Hparse Hname).
  constructor; [|constructor]. intros value'. vm_compute. discriminate.
Defined.

Lemma processPart_proto (contents : list Buffer) acc :
  fd_own (foldl processPart acc contents).2 !! js "__proto__"
    = fd_own acc.2 !! js "__proto__".
Proof.
  revert acc. induction contents as [|content contents IH]; intros acc; [done|].
  cbn [foldl]. rewrite IH. unfold processPart.
  destruct (parseContent content) as [err|name value]; [done|]. cbn [snd].
  destruct (decide (name = js "__proto__")) as [->|Hne].
  - by rewrite FormData_set_proto.
  - by apply FormData_set_other.
Qed.

Lemma processBody_last (buffer : Buffer) (boundary : jsstring) formData :
  CallOk formData ∈ processBody buffer boundary →
  formData
    = (foldl processPart ([], FormData_empty)
             (splitContentParts buffer boundary)).2.
Proof.
  unfold processBody.
  destruct (processPart_calls (splitContentParts buffer boundary) [] FormData_empty)
    as (errs & fd & ->). cbn [fst snd app].
  intros [Hin|Hin]%elem_of_app.
  - apply list_elem_of_fmap in Hin as (err & [=] & _).
  - apply list_elem_of_singleton in Hin. by injection Hin.
Qed.

(** X9: whatever the body, the form data handed over has no entry of its
    own under the name [__proto__]: a part of that name never becomes an
    entry. *)
Theorem proto_name_is_never_an_entry (buffer : Buffer) (boundary : jsstring)
    (formData : FormData) :
  CallOk formData ∈ processBody buffer boundary →
  fd_own formData !! js "__proto__" = None.
Proof.
  intros ->%processBody_last. by rewrite processPart_proto.
Qed.

Lemma proto_name_is_never_an_entry_witness :
  CallOk (spec_formData [FieldPart (js "__proto__") (bytes "x")])
    ∈ processBody
        (encode_body (js "XYZ") [FieldPart (js "__proto__") (bytes "x")])
        (js "XYZ")
  ∧ fd_own (spec_formData [FieldPart (js "__proto__") (bytes "x")])
      !! js "__proto__" = None.
Proof.
  assert (CallOk (spec_formData [FieldPart (js "__proto__") (bytes "x")])
            ∈ processBody
                (encode_body (js "XYZ") [FieldPart (js "__proto__") (bytes "x")])
                (js "XYZ")) as Hin.
  { vm_compute. apply list_elem_of_singleton. reflexivity. }
  split; [exact Hin|].
  exact (proto_name_is_never_an_entry _ _ _ Hin).
Defined.

Lemma processPart_errors (contents : list Buffer) acc :
  (foldl processPart acc contents).1
    = acc.1 ++ replicate (length (List.filter fails_to_parse contents))
                         (CallErr no_name_error).
Proof.
  revert acc. induction contents as [|content contents IH]; intros acc.
  - simpl. by rewrite app_nil_r.
  - cbn [foldl List.filter]. rewrite IH. unfold processPart, fails_to_parse.
    destruct (parseContent content) as [err|name value] eqn:Hparse; [|done].
    apply parseContent_error in Hparse as ->.
    cbn [fst length replicate]. by rewrite <- app_assoc.
Qed.

(** X10: the callback is called with the error once for every part that
    fails to parse, and then once with the form data. *)
Theorem one_error_call_per_failing_part (buffer : Buffer) (boundary : jsstring) :
  ∃ formData,
    processBody buffer boundary
      = replicate
          (length (List.filter fails_to_parse
                     (splitContentParts buffer boundary)))
          (CallErr no_name_error)
        ++ [CallOk formData].
Proof.
  unfold processBody. rewrite processPart_errors. eauto.
Qed.

(** ** The callback as a function *)

Lemma processPart_formData (contents : list Buffer) calls calls' formData :
  (foldl processPart (calls, formData) contents).2
    = (foldl processPart (calls', formData) contents).2.
Proof.
  revert calls calls' formData.
  induction contents as [|content contents IH]; intros calls calls' formData;
    [done|].
  cbn [foldl]. unfold processPart at 2 4.
  destruct (parseContent content); cbn [fst snd]; apply IH.
Qed.

Lemma run_calls_last {S} (callback : Callback → S → Outcome S) call s :
  run_calls callback [call] s = callback call s.
Proof. simpl. by destruct (callback call s). Qed.

Lemma processParts_calls {S} (callback : Callback → S → Outcome S)
    (contents : list Buffer) formData s :
  processParts callback contents formData s
    = run_calls callback
        ((foldl processPart ([], formData) contents).1
           ++ [CallOk (foldl processPart ([], formData) contents).2]) s.
Proof.
  revert formData s.
  induction contents as [|content contents IH]; intros formData s.
  - cbn [foldl fst snd app processParts]. by rewrite run_calls_last.
  - cbn [processParts foldl]. unfold processPart at 2 4.
    destruct (parseContent content) as [err|name value]; cbn [fst snd app].
    + rewrite processPart_errors.
      rewrite (processPart_formData _ [CallErr err] []).
      cbn [fst app run_calls].
      destruct (callback (CallErr err) s) as [s'|s']; [|done].
      rewrite IH. by rewrite processPart_errors.
    + apply IH.
Qed.

(** X12: [processBody] with any callback does what the callback does on
    the calls of [processBody], in order, up to the first one that
    throws. *)
Theorem callback_runs_on_the_calls {S} (callback : Callback → S → Outcome S)
    (buffer : Buffer) (boundary : jsstring) (s : S) :
  processBody_with callback buffer boundary s
    = run_calls callback (processBody buffer boundary) s.
Proof. apply processParts_calls. Qed.

(** ** The handler [multipart] *)

Section MultipartFacts.
Variable next : Exchange → Outcome Exchange.

Lemma multipart_events_data contentType (chunks' : list Buffer)
    (events : list RequestEvent) (chunks : list Buffer) x :
  multipart_events next contentType (map OnData chunks' ++ events) chunks x
    = multipart_events next contentType events (chunks ++ chunks') x.
Proof.
  revert chunks. induction chunks' as [|chunk chunks' IH]; intros chunks.
  - by rewrite app_nil_r.
  - cbn [map app multipart_events]. rewrite IH. by rewrite <- app_assoc.
Qed.

Lemma multipart_data_end contentType (chunks : list Buffer) x :
  multipart next contentType (map OnData chunks ++ [OnEnd]) x
    = multipart_on_end next contentType chunks x.
Proof.
  unfold multipart. rewrite multipart_events_data, app_nil_l.
  cbn [multipart_events].
  by destruct (multipart_on_end next contentType chunks x).
Qed.
End MultipartFacts.

(** X14: what [multipart] does depends on the bytes of the body, not on
    the chunks they arrive in. *)
Theorem chunking_does_not_matter (next : Exchange → Outcome Exchange)
    (contentType : option jsstring) (chunks chunks' : list Buffer)
    (x : Exchange) :
  concat chunks = concat chunks' →
  multipart next contentType (map OnData chunks ++ [OnEnd]) x
    = multipart next contentType (map OnData chunks' ++ [OnEnd]) x.
Proof.
  intros Hbody. rewrite !multipart_data_end.
  unfold multipart_on_end. by rewrite Hbody.
Qed.

Lemma chunking_does_not_matter_witness :
  concat [bytes "--XY"; bytes "Z"; []] = concat [bytes "--XYZ"]
  ∧ multipart uploadPioneer_next (Some (js "multipart/form-data; boundary=XYZ"))
      (map OnData [bytes "--XY"; bytes "Z"; []] ++ [OnEnd]) Exchange_new
    = multipart uploadPioneer_next (Some (js "multipart/form-data; boundary=XYZ"))
        (map OnData [bytes "--XYZ"] ++ [OnEnd]) Exchange_new.
Proof.
  split; [reflexivity|].
  exact (chunking_does_not_matter uploadPioneer_next _
           [bytes "--XY"; bytes "Z"; []] [bytes "--XYZ"] Exchange_new eq_refl).
Defined.

Lemma boundary_exec_found (s group : jsstring) :
  match_boundary_here s = Some group → boundary_exec s = Some group.
Proof.
  intros Hm. destruct s as [|c s]; [by vm_compute in Hm|].
  cbn [boundary_exec]. by rewrite Hm.
Qed.

Lemma boundary_exec_next c (s : jsstring) :
  match_boundary_here (c :: s) = None →
  boundary_exec (c :: s) = boundary_exec s.
Proof. intros Hm. cbn [boundary_exec]. by rewrite Hm. Qed.

Lemma boundary_exec_absent (s : jsstring) :
  ¬ occurs boundary_literal s → boundary_exec s = None.
Proof.
  assert (∀ t, ¬ occurs boundary_literal t → match_boundary_here t = None)
    as Hhere.
  { intros t Hno. unfold match_boundary_here.
    destruct (starts_with boundary_literal t) eqn:Hs; [|done].
    destruct Hno. apply (starts_with_occurs _ _ 0%nat). by rewrite drop_0. }
  induction s as [|c s IH]; intros Hno.
  - reflexivity.
  - rewrite boundary_exec_next by by apply Hhere.
    apply IH. by eapply not_occurs_tail.
Qed.

Lemma span_line_all (s : jsstring) :
  forallb (λ c, negb (line_terminator c)) s = true → span_line s = s.
Proof.
  induction s as [|c s IH]; [done|]. cbn [forallb span_line].
  intros [Hc Hs]%andb_prop. apply negb_true_iff in Hc. rewrite Hc.
  by rewrite IH.
Qed.

Lemma boundary_exec_here (token : jsstring) :
  token ≠ [] →
  forallb (λ c, negb (line_terminator c)) token = true →
  boundary_exec (boundary_literal ++ token) = Some token.
Proof.
  intros Hne Hline. apply boundary_exec_found. unfold match_boundary_here.
  rewrite starts_with_app, drop_app_length, span_line_all by done.
  by destruct token.
Qed.

Lemma boundary_exec_before (pre rest : jsstring) :
  ¬ occurs boundary_literal (pre ++ removelast boundary_literal) →
  boundary_exec (pre ++ boundary_literal ++ rest)
    = boundary_exec (boundary_literal ++ rest).
Proof.
  induction pre as [|c pre IH]; intros Hno; [done|].
  cbn [app]. rewrite boundary_exec_next.
  - apply IH. by eapply not_occurs_tail.
  - unfold match_boundary_here.
    by rewrite (starts_with_before boundary_literal (c :: pre) rest).
Qed.

(** X13: the token is all that follows the first [boundary=] of the
    header, to its end: a semicolon, a further parameter or quotes after it
    are part of the token. *)
Theorem boundary_token_runs_to_end_of_header (pre token : jsstring) :
  token ≠ [] →
  forallb (λ c, negb (line_terminator c)) token = true →
  ¬ occurs boundary_literal (pre ++ removelast boundary_literal) →
  boundary_exec (pre ++ boundary_literal ++ token) = Some token.
Proof.
  intros Hne Hline Hno. rewrite boundary_exec_before by done.
  by apply boundary_exec_here.
Qed.

Lemma boundary_token_runs_to_end_of_header_witness :
  js "XYZ; charset=utf-8" ≠ []
  ∧ forallb (λ c, negb (line_terminator c)) (js "XYZ; charset=utf-8") = true
  ∧ ¬ occurs boundary_literal
        (js "multipart/form-data; " ++ removelast boundary_literal)
  ∧ boundary_exec
      (js "multipart/form-data; " ++ boundary_literal ++ js "XYZ; charset=utf-8")
    = Some (js "XYZ; charset=utf-8").
Proof.
  assert (js "XYZ; charset=utf-8" ≠ []) as Hne by done.
  assert (¬ occurs boundary_literal
            (js "multipart/form-data; " ++ removelast boundary_literal)) as Hno.
  { apply search_not_occurs; [done|]. vm_compute. reflexivity. }
  split; [exact Hne|]. split; [reflexivity|]. split; [exact Hno|].
  exact (boundary_token_runs_to_end_of_header (js "multipart/form-data; ")
           (js "XYZ; charset=utf-8") Hne eq_refl Hno).
Defined.

(** X15: without the text [boundary=] in the content type, and so without
    a content type, [multipart] does not call [next]: it writes one line to
    the console, sets the status 400 on the request, not on the response,
    and ends the response. *)
Theorem missing_boundary_ends_without_next (next : Exchange → Outcome Exchange)
    (contentType : option jsstring) (chunks : list Buffer) (x : Exchange) :
  ¬ occurs boundary_literal (ToString contentType) →
  ∃ x',
    multipart next contentType (map OnData chunks ++ [OnEnd]) x = Returned x'
    ∧ req_statusCode x' = Some 400
    ∧ req_statusMessage x' = Some (js "Malformed multipart request")
    ∧ res_statusCode x' = res_statusCode x
    ∧ res_statusMessage x' = res_statusMessage x
    ∧ res_end x' = res_end x ++ [None]
    ∧ console x'
      = console x ++ [ConsoleError (js "No multipart boundary defined.")]
    ∧ req_body x' = req_body x
    ∧ fs_writeFile x' = fs_writeFile x.
Proof.
  intros Hno. rewrite multipart_data_end. unfold multipart_on_end.
  rewrite boundary_exec_absent by done.
  eexists. split; [reflexivity|]. done.
Qed.

Lemma missing_boundary_ends_without_next_witness :
  ¬ occurs boundary_literal (ToString None)
  ∧ ∃ x',
      multipart uploadPioneer_next None (map OnData [bytes "abc"] ++ [OnEnd])
        Exchange_new = Returned x'
      ∧ req_statusCode x' = Some 400
      ∧ res_statusCode x' = 200.
Proof.
  assert (¬ occurs boundary_literal (ToString None)) as Hno.
  { apply search_not_occurs; [done|]. vm_compute. reflexivity. }
  split; [exact Hno|].
  destruct (missing_boundary_ends_without_next uploadPioneer_next None [bytes "abc"]
              Exchange_new Hno) as (x' & Hrun & Hcode & _ & Hres & _).
  exists x'. split; [exact Hrun|]. split; [exact Hcode|]. exact Hres.
Defined.

Lemma multipart_header_token (next : Exchange → Outcome Exchange)
    (boundary : jsstring) (chunks : list Buffer) (x : Exchange) :
  boundary ≠ [] →
  forallb (λ c, negb (line_terminator c)) boundary = true →
  multipart next (Some (js "multipart/form-data; boundary=" ++ boundary))
    (map OnData chunks ++ [OnEnd]) x
  = run_calls (multipart_callback next)
      (processBody (concat chunks) boundary) x.
Proof.
  intros Hne Hline. rewrite multipart_data_end. unfold multipart_on_end.
  change (ToString (Some (js "multipart/form-data; boundary=" ++ boundary)))
    with (js "multipart/form-data; " ++ boundary_literal ++ boundary).
  rewrite boundary_exec_before, boundary_exec_here; [|done|done|].
  - destruct boundary as [|c boundary]; [done|].
    apply processParts_calls.
  - apply search_not_occurs; [done|]. vm_compute. reflexivity.
Qed.

Lemma multipart_encoded_body (next : Exchange → Outcome Exchange)
    (boundary : jsstring) (ps : list PartSpec) (chunks : list Buffer)
    (x : Exchange) :
  ascii_token boundary →
  forallb (λ c, negb (line_terminator c)) boundary = true →
  Forall (sendable boundary) ps →
  concat chunks = encode_body boundary ps →
  multipart next (Some (js "multipart/form-data; boundary=" ++ boundary))
    (map OnData chunks ++ [OnEnd]) x
  = run_calls (multipart_callback next) [CallOk (spec_formData ps)] x.
Proof.
  intros Htoken Hline Hall Hbody.
  rewrite multipart_header_token; [|by destruct Htoken|done].
  rewrite Hbody. unfold processBody.
  by rewrite processPart_encode_body.
Qed.

(** X16: a request with a body of well-formed parts, in whatever chunks,
    reaches [next] once, with the form data of these parts as [req.body]
    and nothing else touched.
    The parts are well formed ([wf_part]: names and
    file names not empty, without semicolon, double quote, carriage
    return, colon followed by a space, or surrogate without its partner;
    a content type, when sent, not empty and without the last three), and
    the token holds ASCII characters, is not empty, and stands neither in
    a part as sent nor in the two dashes and the line end that close the
    body ([ascii_token], [sendable]), and holds no line
    terminator, so that the pattern of [multipart] reads it whole. *)
Theorem well_formed_request_reaches_next (next : Exchange → Outcome Exchange)
    (boundary : jsstring) (ps : list PartSpec) (chunks : list Buffer)
    (x : Exchange) :
  ascii_token boundary →
  forallb (λ c, negb (line_terminator c)) boundary = true →
  Forall (sendable boundary) ps →
  concat chunks = encode_body boundary ps →
  multipart next (Some (js "multipart/form-data; boundary=" ++ boundary))
    (map OnData chunks ++ [OnEnd]) x
  = next (set_req_body (Some (spec_formData ps)) x).
Proof.
  intros Htoken Hline Hall Hbody.
  rewrite (multipart_encoded_body _ _ ps) by done.
  apply run_calls_last.
Qed.

Lemma well_formed_request_reaches_next_witness :
  ascii_token (js "XYZ")
  ∧ forallb (λ c, negb (line_terminator c)) (js "XYZ") = true
  ∧ Forall (sendable (js "XYZ")) [FieldPart (js "title") (bytes "Hello")]
  ∧ concat [bytes "--XYZ"; drop 5 sample_title] 
    = encode_body (js "XYZ") [FieldPart (js "title") (bytes "Hello")]
  ∧ multipart uploadPioneer_next
      (Some (js "multipart/form-data; boundary=" ++ js "XYZ"))
      (map OnData [bytes "--XYZ"; drop 5 sample_title] ++ [OnEnd]) Exchange_new
    = uploadPioneer_next
        (set_req_body
           (Some (spec_formData [FieldPart (js "title") (bytes "Hello")]))
           Exchange_new).
Proof.
  assert (ascii_token (js "XYZ")) as Htoken.
  { split_and!; [done|reflexivity|].
    apply search_not_occurs; [done|]. vm_compute. reflexivity. }
  assert (Forall (sendable (js "XYZ")) [FieldPart (js "title") (bytes "Hello")])
    as Hall.
  { repeat constructor.
    apply search_not_occurs; [done|]. vm_compute. reflexivity. }
  assert (concat [bytes "--XYZ"; drop 5 sample_title]
          = encode_body (js "XYZ") [FieldPart (js "title") (bytes "Hello")])
    as Hbody by (vm_compute; reflexivity).
  split; [exact Htoken|]. split; [reflexivity|]. split; [exact Hall|].
  split; [exact Hbody|].
  exact (well_formed_request_reaches_next uploadPioneer_next (js "XYZ") _ _ Exchange_new
           Htoken eq_refl Hall Hbody).
Defined.

(** ** The caller [uploadPioneer] *)

Lemma spec_formData_other (after : list PartSpec) (name : jsstring) formData :
  Forall (λ q, spec_name q ≠ name) after →
  fd_own
    (foldl (λ formData p, FormData_set (spec_name p) (spec_value p) formData)
           formData after) !! name
  = fd_own formData !! name.
Proof.
  intros Hall. revert formData.
  induction Hall as [|q after Hq _ IH]; intros formData; [done|].
  cbn [foldl]. rewrite IH. by apply FormData_set_other.
Qed.

Lemma spec_formData_last (before after : list PartSpec) (p : PartSpec) :
  spec_name p ≠ js "__proto__" →
  Forall (λ q, spec_name q ≠ spec_name p) after →
  fd_own (spec_formData (before ++ p :: after)) !! spec_name p
    = Some (spec_value p).
Proof.
  intros Hname Hafter. unfold spec_formData.
  rewrite foldl_app. cbn [foldl]. rewrite spec_formData_other by done.
  by apply FormData_set_same.
Qed.

(** X17: an upload of well-formed parts whose last part named [image] is
    a file of type [image/jpeg] is written to [images/] followed by the
    file name as sent, with the bytes of the part as they are; no status
    is set and the response is not ended before that.
    The parts are well formed ([wf_part]: names and
    file names not empty, without semicolon, double quote, carriage
    return, colon followed by a space, or surrogate without its partner;
    a content type, when sent, not empty and without the last three), and
    the token holds ASCII characters, is not empty, and stands neither in
    a part as sent nor in the two dashes and the line end that close the
    body ([ascii_token], [sendable]), and holds no line
    terminator, so that the pattern of [multipart] reads it whole. *)
Theorem uploaded_jpeg_is_written_as_sent (boundary filename : jsstring) (body : Buffer)
    (before after : list PartSpec) (chunks : list Buffer) (x : Exchange) :
  ascii_token boundary →
  forallb (λ c, negb (line_terminator c)) boundary = true →
  Forall (sendable boundary)
    (before ++ FilePart (js "image") filename (Some (js "image/jpeg")) body
       :: after) →
  Forall (λ q, spec_name q ≠ js "image") after →
  concat chunks
    = encode_body boundary
        (before ++ FilePart (js "image") filename (Some (js "image/jpeg")) body
           :: after) →
  multipart uploadPioneer_next
    (Some (js "multipart/form-data; boundary=" ++ boundary))
    (map OnData chunks ++ [OnEnd]) x
  = Returned
      (call_fs_writeFile (js "images/" ++ filename) body
         (set_req_body
            (Some (spec_formData
                     (before
                        ++ FilePart (js "image") filename
                             (Some (js "image/jpeg")) body :: after)))
            x)).
Proof.
  intros Htoken Hline Hall Hafter Hbody.
  rewrite (multipart_encoded_body _ _ _ _ _ Htoken Hline Hall Hbody).
  rewrite run_calls_last. cbn [multipart_callback].
  unfold uploadPioneer_next. cbn [req_body set_req_body].
  pose proof (spec_formData_last before after
                (FilePart (js "image") filename (Some (js "image/jpeg")) body)
                ltac:(done) Hafter) as Hlookup.
  cbn [spec_name] in Hlookup. rewrite Hlookup.
  cbn [spec_value default].
  apply Forall_app in Hall as [_ Hall]. apply Forall_cons in Hall as [[Hwf _] _].
  destruct filename as [|c filename].
  { cbn [wf_part] in Hwf.
    apply andb_prop in Hwf as [[_ Hf]%andb_prop _].
    by apply attr_text_spec in Hf as [? _]. }
  by rewrite decide_True.
Qed.

(** X18: the same upload with an image part of another content type, or
    of none, is refused: status 400, the response ended with the message
    that the file must be a JPEG, and no file written.
    The parts are well formed ([wf_part]: names and
    file names not empty, without semicolon, double quote, carriage
    return, colon followed by a space, or surrogate without its partner;
    a content type, when sent, not empty and without the last three), and
    the token holds ASCII characters, is not empty, and stands neither in
    a part as sent nor in the two dashes and the line end that close the
    body ([ascii_token], [sendable]), and holds no line
    terminator, so that the pattern of [multipart] reads it whole. *)
Theorem upload_of_other_type_is_refused (boundary filename : jsstring)
    (contentType : option jsstring) (body : Buffer)
    (before after : list PartSpec) (chunks : list Buffer) (x : Exchange) :
  ascii_token boundary →
  forallb (λ c, negb (line_terminator c)) boundary = true →
  Forall (sendable boundary)
    (before ++ FilePart (js "image") filename contentType body :: after) →
  Forall (λ q, spec_name q ≠ js "image") after →
  contentType ≠ Some (js "image/jpeg") →
  concat chunks
    = encode_body boundary
        (before ++ FilePart (js "image") filename contentType body :: after) →
  multipart uploadPioneer_next
    (Some (js "multipart/form-data; boundary=" ++ boundary))
    (map OnData chunks ++ [OnEnd]) x
  = Returned
      (call_res_end (Some (js "Your image file must be a JPEG"))
         (set_res_status 400 (js "Must be type image/jpeg")
            (set_req_body
               (Some (spec_formData
                        (before
                           ++ FilePart (js "image") filename contentType body
                           :: after)))
               x))).
Proof.
  intros Htoken Hline Hall Hafter Htype Hbody.
  rewrite (multipart_encoded_body _ _ _ _ _ Htoken Hline Hall Hbody).
  rewrite run_calls_last. cbn [multipart_callback].
  unfold uploadPioneer_next. cbn [req_body set_req_body].
  pose proof (spec_formData_last before after
                (FilePart (js "image") filename contentType body)
                ltac:(done) Hafter) as Hlookup.
  cbn [spec_name] in Hlookup. rewrite Hlookup.
  cbn [spec_value].
  apply Forall_app in Hall as [_ Hall]. apply Forall_cons in Hall as [[Hwf _] _].
  destruct filename as [|c filename].
  { cbn [wf_part] in Hwf.
    apply andb_prop in Hwf as [[_ Hf]%andb_prop _].
    by apply attr_text_spec in Hf as [? _]. }
  rewrite decide_False; [done|].
  destruct contentType as [type|]; [|by vm_compute].
  change (default (js "application/octet-stream") (Some type)) with type.
  intros ->. done.
Qed.

Lemma multipart_callback_error (next : Exchange → Outcome Exchange)
    (err : jsstring) (x : Exchange) :
  err ≠ [] →
  multipart_callback next (CallErr err) x
    = next (set_req_body None
             (call_res_end None
               (set_res_status 500 (js "Server error")
                 (write_console (ConsoleLog err) x)))).
Proof. by destruct err. Qed.

(** X19: when a part of an upload fails to parse, the error is logged,
    the status 500 set and the response ended, and then the function of
    [uploadPioneer] throws on [req.body], which is [undefined]: the parts
    after it are not read, no form data is attached and no file written. *)
Theorem malformed_upload_throws (contentType : option jsstring)
    (boundary : jsstring) (chunks : list Buffer) (x : Exchange) :
  boundary_exec (ToString contentType) = Some boundary →
  Exists (λ content, fails_to_parse content = true)
         (splitContentParts (concat chunks) boundary) →
  multipart uploadPioneer_next contentType (map OnData chunks ++ [OnEnd]) x
  = Threw
      (set_req_body None
         (call_res_end None
            (set_res_status 500 (js "Server error")
               (write_console (ConsoleLog no_name_error) x)))).
Proof.
  intros Hexec Hfail. rewrite multipart_data_end. unfold multipart_on_end.
  rewrite Hexec.
  assert (boundary ≠ []) as Hne.
  { intros ->. clear -Hexec.
    induction (ToString contentType) as [|c s IH].
    - by vm_compute in Hexec.
    - cbn [boundary_exec] in Hexec.
      destruct (match_boundary_here (c :: s)) as [group|] eqn:Hm; [|by apply IH].
      injection Hexec as ->. unfold match_boundary_here in Hm.
      destruct (starts_with boundary_literal (c :: s)); [|done].
      by destruct (span_line _). }
  destruct boundary as [|c boundary]; [done|].
  unfold processBody_with. rewrite processParts_calls, processPart_errors.
  cbn [fst app].
  destruct (List.filter fails_to_parse
              (splitContentParts (concat chunks) (c :: boundary)))
    as [|content failing] eqn:Hfilter.
  - exfalso. apply Exists_exists in Hfail as (content & Hin & Hcontent).
    assert (In content (List.filter fails_to_parse
              (splitContentParts (concat chunks) (c :: boundary)))) as Hin'.
    { apply filter_In. split; [by apply list_elem_of_In|done]. }
    by rewrite Hfilter in Hin'.
  - cbn [length replicate app run_calls].
    rewrite multipart_callback_error by done. done.
Qed.

Lemma uploaded_jpeg_is_written_as_sent_witness :
  ascii_token (js "XYZ")
  ∧ forallb (λ c, negb (line_terminator c)) (js "XYZ") = true
  ∧ Forall (sendable (js "XYZ"))
      ([FieldPart (js "name") (bytes "Ada")]
         ++ FilePart (js "image") (js "ada.jpg") (Some (js "image/jpeg"))
              [xff; xd8; x0d; x0a]
         :: [])
  ∧ multipart uploadPioneer_next
      (Some (js "multipart/form-data; boundary=" ++ js "XYZ"))
      (map OnData
         [encode_body (js "XYZ")
            ([FieldPart (js "name") (bytes "Ada")]
               ++ FilePart (js "image") (js "ada.jpg") (Some (js "image/jpeg"))
                    [xff; xd8; x0d; x0a]
               :: [])]
         ++ [OnEnd]) Exchange_new
    = Returned
        (call_fs_writeFile (js "images/" ++ js "ada.jpg") [xff; xd8; x0d; x0a]
           (set_req_body
              (Some (spec_formData
                       ([FieldPart (js "name") (bytes "Ada")]
                          ++ FilePart (js "image") (js "ada.jpg")
                               (Some (js "image/jpeg")) [xff; xd8; x0d; x0a]
                          :: [])))
              Exchange_new)).
Proof.
  assert (ascii_token (js "XYZ")) as Htoken.
  { split_and!; [done|reflexivity|].
    apply search_not_occurs; [done|]. vm_compute. reflexivity. }
  assert (Forall (sendable (js "XYZ"))
            ([FieldPart (js "name") (bytes "Ada")]
               ++ FilePart (js "image") (js "ada.jpg") (Some (js "image/jpeg"))
                    [xff; xd8; x0d; x0a]
               :: [])) as Hall.
  { repeat constructor;
      (apply search_not_occurs; [done|]; vm_compute; reflexivity). }
  split; [exact Htoken|]. split; [reflexivity|]. split; [exact Hall|].
  apply (uploaded_jpeg_is_written_as_sent (js "XYZ") (js "ada.jpg") [xff; xd8; x0d; x0a]
           [FieldPart (js "name") (bytes "Ada")] [] _ Exchange_new
           Htoken eq_refl Hall);
    [constructor|].
  exact (app_nil_r _).
Defined.

Lemma upload_of_other_type_is_refused_witness :
  ascii_token (js "XYZ")
  ∧ forallb (λ c, negb (line_terminator c)) (js "XYZ") = true
  ∧ Forall (sendable (js "XYZ"))
      ([] ++ FilePart (js "image") (js "ada.jpg") None [xff; xd8] :: [])
  ∧ None ≠ Some (js "image/jpeg")
  ∧ multipart uploadPioneer_next
      (Some (js "multipart/form-data; boundary=" ++ js "XYZ"))
      (map OnData
         [encode_body (js "XYZ")
            ([] ++ FilePart (js "image") (js "ada.jpg") None [xff; xd8] :: [])]
         ++ [OnEnd]) Exchange_new
    = Returned
        (call_res_end (Some (js "Your image file must be a JPEG"))
           (set_res_status 400 (js "Must be type image/jpeg")
              (set_req_body
                 (Some (spec_formData
                          ([] ++ FilePart (js "image") (js "ada.jpg") None
                                   [xff; xd8] :: [])))
                 Exchange_new))).
Proof.
  assert (ascii_token (js "XYZ")) as Htoken.
  { split_and!; [done|reflexivity|].
    apply search_not_occurs; [done|]. vm_compute. reflexivity. }
  assert (Forall (sendable (js "XYZ"))
            ([] ++ FilePart (js "image") (js "ada.jpg") None [xff; xd8] :: []))
    as Hall.
  { repeat constructor.
    apply search_not_occurs; [done|]. vm_compute. reflexivity. }
  assert (@None jsstring ≠ Some (js "image/jpeg")) as Htype by done.
  split; [exact Htoken|]. split; [reflexivity|]. split; [exact Hall|].
  split; [exact Htype|].
  apply (upload_of_other_type_is_refused (js "XYZ") (js "ada.jpg") None [xff; xd8]
           [] [] _ Exchange_new Htoken eq_refl Hall);
    [constructor|exact Htype|].
  exact (app_nil_r _).
Defined.

Lemma malformed_upload_throws_witness :
  boundary_exec (ToString (Some (js "multipart/form-data; boundary=XYZ")))
    = Some (js "XYZ")
  ∧ Exists (λ content, fails_to_parse content = true)
      (splitContentParts (concat [sample_second_nameless]) (js "XYZ"))
  ∧ multipart uploadPioneer_next
      (Some (js "multipart/form-data; boundary=XYZ"))
      (map OnData [sample_second_nameless] ++ [OnEnd]) Exchange_new
    = Threw
        (set_req_body None
           (call_res_end None
              (set_res_status 500 (js "Server error")
                 (write_console (ConsoleLog no_name_error) Exchange_new)))).
Proof.
  assert (Exists (λ content, fails_to_parse content = true)
            (splitContentParts (concat [sample_second_nameless]) (js "XYZ")))
    as Hfail.
  { assert (splitContentParts (concat [sample_second_nameless]) (js "XYZ")
            = [raw_part (disposition_line (attr "name" "title")) "Hello";
               raw_part "Content-Disposition: form-data" "World"]) as ->
      by (vm_compute; reflexivity).
    apply Exists_cons_tl, Exists_cons_hd. vm_compute. reflexivity. }
  split; [reflexivity|]. split; [exact Hfail|].
  exact (malformed_upload_throws
           (Some (js "multipart/form-data; boundary=XYZ")) (js "XYZ")
           [sample_second_nameless] Exchange_new eq_refl Hfail).
Defined.

(** X20: an upload of well-formed parts none of which is named [image]
    makes the function of [uploadPioneer] throw on [req.body.image], with
    the form data attached and nothing else done.
    The parts are well formed ([wf_part]: names and
    file names not empty, without semicolon, double quote, carriage
    return, colon followed by a space, or surrogate without its partner;
    a content type, when sent, not empty and without the last three), and
    the token holds ASCII characters, is not empty, and stands neither in
    a part as sent nor in the two dashes and the line end that close the
    body ([ascii_token], [sendable]), and holds no line
    terminator, so that the pattern of [multipart] reads it whole. *)
Theorem upload_without_image_part_throws (boundary : jsstring)
    (ps : list PartSpec) (chunks : list Buffer) (x : Exchange) :
  ascii_token boundary →
  forallb (λ c, negb (line_terminator c)) boundary = true →
  Forall (sendable boundary) ps →
  Forall (λ q, spec_name q ≠ js "image") ps →
  concat chunks = encode_body boundary ps →
  multipart uploadPioneer_next
    (Some (js "multipart/form-data; boundary=" ++ boundary))
    (map OnData chunks ++ [OnEnd]) x
  = Threw (set_req_body (Some (spec_formData ps)) x).
Proof.
  intros Htoken Hline Hall Hnames Hbody.
  rewrite (multipart_encoded_body _ _ _ _ _ Htoken Hline Hall Hbody).
  rewrite run_calls_last. cbn [multipart_callback].
  unfold uploadPioneer_next. cbn [req_body set_req_body].
  unfold spec_formData. rewrite spec_formData_other by done.
  cbn [fd_own FormData_empty]. by rewrite lookup_empty.
Qed.

Lemma upload_without_image_part_throws_witness :
  ascii_token (js "XYZ")
  ∧ forallb (λ c, negb (line_terminator c)) (js "XYZ") = true
  ∧ Forall (sendable (js "XYZ")) [FieldPart (js "title") (bytes "Hello")]
  ∧ Forall (λ q, spec_name q ≠ js "image")
      [FieldPart (js "title") (bytes "Hello")]
  ∧ multipart uploadPioneer_next
      (Some (js "multipart/form-data; boundary=" ++ js "XYZ"))
      (map OnData [sample_title] ++ [OnEnd]) Exchange_new
    = Threw
        (set_req_body
           (Some (spec_formData [FieldPart (js "title") (bytes "Hello")]))
           Exchange_new).
Proof.
  assert (ascii_token (js "XYZ")) as Htoken.
  { split_and!; [done|reflexivity|].
    apply search_not_occurs; [done|]. vm_compute. reflexivity. }
  assert (Forall (sendable (js "XYZ")) [FieldPart (js "title") (bytes "Hello")])
    as Hall.
  { repeat constructor.
    apply search_not_occurs; [done|]. vm_compute. reflexivity. }
  assert (Forall (λ q, spec_name q ≠ js "image")
            [FieldPart (js "title") (bytes "Hello")]) as Hnames
    by (by repeat constructor).
  split; [exact Htoken|]. split; [reflexivity|]. split; [exact Hall|].
  split; [exact Hnames|].
  apply (upload_without_image_part_throws (js "XYZ") _ [sample_title] Exchange_new
           Htoken eq_refl Hall Hnames).
  vm_compute. reflexivity.
Defined.

(** ** Edges *)

Lemma Buffer_indexOf_nil (needle : Buffer) offset :
  0 ≤ offset → Buffer_indexOf [] needle offset ≤ 0.
Proof.
  intros Hoff. unfold Buffer_indexOf. rewrite IndexOfOffset_nonneg by done.
  cbn [length]. change (Z.of_nat 0) with 0.
  repeat match goal with
  | |- context [Z.eqb ?a ?b] => destruct (Z.eqb_spec a b)
  | |- context [Z.leb ?a ?b] => destruct (Z.leb_spec a b)
  | |- context [Z.ltb ?a ?b] => destruct (Z.ltb_spec a b)
  end; try lia.
Qed.

(** X11: an empty body decodes, under any token, to one call with an
    empty form data and no error. *)
Theorem empty_body_decodes_to_empty_form (boundary : jsstring) :
  processBody [] boundary = [CallOk FormData_empty].
Proof.
  unfold processBody.
  assert (splitContentParts [] boundary = []) as ->; [|done].
  destruct (split_init_inv [] boundary) as [Hs He].
  assert (1 ≤ start (split_init [] boundary)) as Hstart.
  { unfold split_init. cbn [start].
    pose proof (Buffer_indexOf_lower []
                  (utf8_encode (js "--" ++ boundary)) 0 ltac:(lia)).
    unfold boundary_length. lia. }
  assert (end_ (split_init [] boundary) ≤ start (split_init [] boundary))
    as Hstop.
  { rewrite He. pose proof (Buffer_indexOf_nil (utf8_encode boundary) _ Hs).
    lia. }
  pose proof (splitContentParts_eq [] boundary) as Heq.
  unfold splitContentParts_fuel in Heq. rewrite split_loop_S in Heq.
  rewrite (proj2 (split_step_None [] boundary _) Hstop) in Heq.
  by injection Heq as <-.
Qed.

Lemma header_line_two_pieces (headers : Headers) (key value : jsstring) :
  ¬ occurs (js ": ") key → ¬ occurs (js ": ") value →
  header_line headers (key ++ js ": " ++ value)
    = Headers_set (toLowerCase key) (Some value) headers.
Proof.
  intros Hkey Hvalue. unfold header_line.
  by rewrite String_split_two_pieces.
Qed.

(** X5: header names are read without regard to case, and of a header
    given twice the later value is read. *)
Theorem repeated_header_last_value (headers : Headers)
    (key key' value value' : jsstring) :
  ¬ occurs (js ": ") key → ¬ occurs (js ": ") value →
  ¬ occurs (js ": ") key' → ¬ occurs (js ": ") value' →
  toLowerCase key = toLowerCase key' →
  toLowerCase key ≠ js "__proto__" →
  Headers_get
    (header_line (header_line headers (key ++ js ": " ++ value))
                 (key' ++ js ": " ++ value'))
    (toLowerCase key)
  = Some value'.
Proof.
  intros Hkey Hvalue Hkey' Hvalue' Hcase Hproto.
  rewrite !header_line_two_pieces by done.
  rewrite <- Hcase. rewrite !Headers_set_insert by done.
  unfold Headers_get. by rewrite lookup_insert_eq.
Qed.

Lemma repeated_header_last_value_witness :
  ¬ occurs (js ": ") (js "Content-Type") ∧ ¬ occurs (js ": ") (js "text/plain")
  ∧ ¬ occurs (js ": ") (js "CONTENT-TYPE") ∧ ¬ occurs (js ": ") (js "image/png")
  ∧ toLowerCase (js "Content-Type") = toLowerCase (js "CONTENT-TYPE")
  ∧ toLowerCase (js "Content-Type") ≠ js "__proto__"
  ∧ Headers_get
      (header_line
         (header_line ∅ (js "Content-Type" ++ js ": " ++ js "text/plain"))
         (js "CONTENT-TYPE" ++ js ": " ++ js "image/png"))
      (toLowerCase (js "Content-Type"))
    = Some (js "image/png").
Proof.
  assert (¬ occurs (js ": ") (js "Content-Type")) as H1.
  { apply search_not_occurs; [done|]. vm_compute. reflexivity. }
  assert (¬ occurs (js ": ") (js "text/plain")) as H2.
  { apply search_not_occurs; [done|]. vm_compute. reflexivity. }
  assert (¬ occurs (js ": ") (js "CONTENT-TYPE")) as H3.
  { apply search_not_occurs; [done|]. vm_compute. reflexivity. }
  assert (¬ occurs (js ": ") (js "image/png")) as H4.
  { apply search_not_occurs; [done|]. vm_compute. reflexivity. }
  assert (toLowerCase (js "Content-Type") ≠ js "__proto__") as H6 by done.
  split; [exact H1|]. split; [exact H2|]. split; [exact H3|].
  split; [exact H4|]. split; [reflexivity|]. split; [exact H6|].
  exact (repeated_header_last_value ∅ _ _ _ _ H1 H2 H3 H4 eq_refl H6).
Defined.

(** ** What the locator and the parser never give *)

Section NoToken.
Variable buffer : Buffer.
Variable boundary : jsstring.

(** The range of a turn of the loop holds the token nowhere: the search
    stops at its first occurrence. *)
Lemma split_step_no_token st :
  split_inv buffer boundary st → start st < end_ st →
  ¬ occurs (utf8_encode boundary)
      (Buffer_slice buffer (start st) (end_ st)).
Proof.
  intros Hinv Hlt (pre & post & Hslice).
  destruct (split_step_found buffer boundary st Hinv Hlt) as [Hn Hfit].
  destruct Hinv as [Hs He].
  assert (utf8_encode boundary ≠ []) as Hne by (intros Hnil; rewrite Hnil in Hn; simpl in Hn; lia).
  rewrite Buffer_slice_inside in Hslice by lia.
  pose proof (f_equal length Hslice) as Hlen.
  rewrite length_take, length_drop, !length_app in Hlen.
  rewrite Buffer_indexOf_search in He; [|done|lia|lia].
  pose proof (search_minimal (utf8_encode boundary)
                (drop (Z.to_nat (start st)) buffer) (start st) (length pre)
                Hs) as Hhit.
  rewrite <- He in Hhit.
  assert (drop (length pre) (drop (Z.to_nat (start st)) buffer)
          = utf8_encode boundary
              ++ post ++ drop (Z.to_nat (end_ st)) buffer) as Hdrop.
  { rewrite <- (take_drop (Z.to_nat (end_ st) - Z.to_nat (start st))
                  (drop (Z.to_nat (start st)) buffer)) at 1.
    rewrite Hslice, <- !app_assoc, drop_app_length.
    rewrite drop_drop. do 3 f_equal. lia. }
  rewrite Hdrop, starts_with_app in Hhit.
  rewrite length_drop in Hhit. lia.
Qed.

Lemma split_loop_no_token fuel st ps :
  split_inv buffer boundary st →
  Forall (λ p, ¬ occurs (utf8_encode boundary) p) (parts st) →
  split_loop buffer boundary fuel st = Some ps →
  Forall (λ p, ¬ occurs (utf8_encode boundary) p) ps.
Proof.
  revert st. induction fuel as [|fuel IH]; intros st Hinv Hall; [done|].
  rewrite split_loop_S.
  destruct (split_step buffer boundary st) as [st'|] eqn:Hstep.
  - apply IH; [by eapply split_step_inv|].
    apply split_step_Some in Hstep as (Hlt & -> & _).
    apply Forall_app. split; [done|]. apply Forall_singleton.
    by apply split_step_no_token.
  - by intros [= <-].
Qed.
End NoToken.

(** X2: no part the locator emits holds the token: a part ends at the
    first occurrence of the token after its start. *)
Theorem emitted_parts_hold_no_token (buffer : Buffer) (boundary : jsstring) :
  Forall (λ p, ¬ occurs (utf8_encode boundary) p)
         (splitContentParts buffer boundary).
Proof.
  eapply split_loop_no_token;
    [apply split_init_inv| |apply splitContentParts_eq]. constructor.
Qed.

Lemma span_attr_run (s : jsstring) :
  Forall (λ c, attr_char c = true) (span_attr s).1.
Proof.
  induction s as [|c s IH]; [constructor|]. cbn [span_attr].
  destruct (attr_char c) eqn:Hc; [|constructor].
  destruct (span_attr s) as [run rest]. cbn [fst] in *. by constructor.
Qed.

Lemma regex_exec_quoted_shape (lit s group : jsstring) :
  regex_exec_quoted lit s = Some group →
  group ≠ [] ∧ Forall (λ c, attr_char c = true) group.
Proof.
  intros [k Hk]%regex_exec_quoted_here. unfold match_quoted_here in Hk.
  destruct (starts_with lit (drop k s)); [|done].
  pose proof (span_attr_run (drop (length lit) (drop k s))) as Hrun.
  destruct (span_attr (drop (length lit) (drop k s))) as [run rest].
  cbn [fst] in Hrun. destruct run as [|c run]; [done|].
  destruct rest as [|q rest]; [done|].
  destruct (q =? 34)%N; [|done]. by injection Hk as <-.
Qed.

(** X4: a name [parseContent] gives is never empty and holds neither a
    semicolon nor a double quote; the same holds of the file name of a
    file, and the content type of a file is never empty. *)
Theorem parsed_names_are_well_shaped (buffer : Buffer) (name : jsstring)
    (value : FormValue) :
  parseContent buffer = ParseOk name value →
  name ≠ [] ∧ Forall (λ c, attr_char c = true) name
  ∧ match value with
    | Field _ => True
    | File filename contentType _ =>
        filename ≠ [] ∧ Forall (λ c, attr_char c = true) filename
        ∧ contentType ≠ []
    end.
Proof.
  unfold parseContent. fold (part_disposition buffer).
  destruct (regex_exec_quoted name_literal (part_disposition buffer))
    as [name'|] eqn:Hname; [|done].
  apply regex_exec_quoted_shape in Hname as [Hne Hall].
  destruct (regex_exec_quoted filename_literal (part_disposition buffer))
    as [filename|] eqn:Hfile.
  - apply regex_exec_quoted_shape in Hfile as [Hfne Hfall].
    intros [= <- <-]. split_and!; try done.
    by destruct (Headers_get _ _) as [[|c type]|].
  - by intros [= <- <-].
Qed.

Lemma parsed_names_are_well_shaped_witness :
  parseContent sample_filename_only
    = ParseOk (js "a.txt")
        (File (js "a.txt") (js "application/octet-stream") (bytes "data"))
  ∧ js "a.txt" ≠ [].
Proof.
  assert (parseContent sample_filename_only
          = ParseOk (js "a.txt")
              (File (js "a.txt") (js "application/octet-stream") (bytes "data")))
    as Hparse by (vm_compute; reflexivity).
  split; [exact Hparse|].
  exact (proj1 (parsed_names_are_well_shaped _ _ _ Hparse)).
Defined.

(** ** Parts of different names *)

Lemma spec_formData_size (ps : list PartSpec) formData :
  NoDup (map spec_name ps) →
  Forall (λ p, spec_name p ≠ js "__proto__") ps →
  Forall (λ p, fd_own formData !! spec_name p = None) ps →
  size (fd_own
          (foldl (λ formData p,
                    FormData_set (spec_name p) (spec_value p) formData)
                 formData ps))
  = (size (fd_own formData) + length ps)%nat.
Proof.
  revert formData. induction ps as [|p ps IH]; intros formData Hdup Hproto Hnew.
  - simpl. lia.
  - cbn [map] in Hdup. apply NoDup_cons in Hdup as [Hp Hdup].
    apply Forall_cons in Hproto as [Hpp Hproto].
    apply Forall_cons in Hnew as [Hpn Hnew].
    cbn [foldl]. rewrite IH; [|done|done|].
    + unfold FormData_set. rewrite decide_False by done. cbn [fd_own].
      rewrite map_size_insert_None by done. simpl. lia.
    + apply Forall_forall. intros q Hq.
      rewrite FormData_set_other; [by eapply Forall_forall in Hnew|].
      intros Heq. apply Hp. rewrite Heq. by apply list_elem_of_fmap_2.
Qed.

(** X7: a body of well-formed parts of different names, none of them
    [__proto__], decodes to a form data of as many entries as parts, each
    name with the value of its part.
    The parts are well formed ([wf_part]: names and
    file names not empty, without semicolon, double quote, carriage
    return, colon followed by a space, or surrogate without its partner;
    a content type, when sent, not empty and without the last three), and
    the token holds ASCII characters, is not empty, and stands neither in
    a part as sent nor in the two dashes and the line end that close the
    body ([ascii_token], [sendable]). *)
Theorem different_names_all_kept (boundary : jsstring) (ps : list PartSpec) :
  ascii_token boundary → Forall (sendable boundary) ps →
  NoDup (map spec_name ps) →
  Forall (λ p, spec_name p ≠ js "__proto__") ps →
  ∃ formData,
    processBody (encode_body boundary ps) boundary = [CallOk formData]
    ∧ size (fd_own formData) = length ps
    ∧ Forall (λ p, fd_own formData !! spec_name p = Some (spec_value p)) ps.
Proof.
  intros Htoken Hall Hdup Hproto. exists (spec_formData ps).
  split; [unfold processBody; by rewrite processPart_encode_body|]. split.
  - unfold spec_formData. rewrite spec_formData_size; [done|done|done|].
    apply Forall_forall. intros p _. apply lookup_empty.
  - apply Forall_forall. intros p Hp.
    apply list_elem_of_split in Hp as (before & after & ->).
    apply spec_formData_last.
    + by apply Forall_app in Hproto as [_ [? _]%Forall_cons].
    + rewrite map_app in Hdup. cbn [map] in Hdup.
      apply NoDup_app in Hdup as (_ & _ & Hdup).
      apply NoDup_cons in Hdup as [Hnotin _].
      apply Forall_forall. intros q Hq Heq. apply Hnotin.
      rewrite <- Heq. by apply list_elem_of_fmap_2.
Qed.

Lemma different_names_all_kept_witness :
  ascii_token (js "XYZ")
  ∧ Forall (sendable (js "XYZ"))
      [FieldPart (js "caption") (bytes "Ada");
       FilePart (js "image") (js "ada.jpg") (Some (js "image/jpeg"))
         [x00; xff; x0d; x0a]]
  ∧ NoDup (map spec_name
             [FieldPart (js "caption") (bytes "Ada");
              FilePart (js "image") (js "ada.jpg") (Some (js "image/jpeg"))
                [x00; xff; x0d; x0a]])
  ∧ ∃ formData,
      processBody
        (encode_body (js "XYZ")
           [FieldPart (js "caption") (bytes "Ada");
            FilePart (js "image") (js "ada.jpg") (Some (js "image/jpeg"))
              [x00; xff; x0d; x0a]])
        (js "XYZ") = [CallOk formData]
      ∧ size (fd_own formData) = 2%nat.
Proof.
  assert (ascii_token (js "XYZ")) as Htoken.
  { split_and!; [done|reflexivity|].
    apply search_not_occurs; [done|]. vm_compute. reflexivity. }
  assert (Forall (sendable (js "XYZ"))
            [FieldPart (js "caption") (bytes "Ada");
             FilePart (js "image") (js "ada.jpg") (Some (js "image/jpeg"))
               [x00; xff; x0d; x0a]]) as Hall.
  { repeat constructor;
      (apply search_not_occurs; [done|]; vm_compute; reflexivity). }
  assert (NoDup (map spec_name
            [FieldPart (js "caption") (bytes "Ada");
             FilePart (js "image") (js "ada.jpg") (Some (js "image/jpeg"))
               [x00; xff; x0d; x0a]])) as Hdup.
  { cbn [map spec_name]. apply NoDup_cons. split; [|apply NoDup_singleton].
    intros Hin%list_elem_of_singleton. by vm_compute in Hin. }
  split; [exact Htoken|]. split; [exact Hall|]. split; [exact Hdup|].
  destruct (different_names_all_kept (js "XYZ") _ Htoken Hall Hdup)
    as (formData & Hrun & Hsize & _).
  { by repeat constructor. }
  exists formData. split; [exact Hrun|exact Hsize].
Defined.

(** ** A part named [__proto__] *)

Lemma FormData_set_proto_kept (key : jsstring) value formData :
  (key ≠ js "__proto__" ∨ ∃ text, value = Field text) →
  fd_proto (FormData_set key value formData) = fd_proto formData.
Proof.
  intros Hcase. unfold FormData_set. case_decide as Hkey; [|done].
  destruct Hcase as [Hne|[text ->]]; done.
Qed.

Lemma processPart_proto_kept (contents : list Buffer) acc :
  Forall (λ content, ∀ filename contentType data,
            parseContent content
              ≠ ParseOk (js "__proto__") (File filename contentType data))
         contents →
  fd_proto (foldl processPart acc contents).2 = fd_proto acc.2.
Proof.
  intros Hall. revert acc.
  induction Hall as [|content contents Hc _ IH]; intros acc; [done|].
  cbn [foldl]. rewrite IH. unfold processPart.
  destruct (parseContent content) as [err|name value] eqn:Hparse; [done|].
  cbn [snd]. apply FormData_set_proto_kept.
  destruct (decide (name = js "__proto__")) as [->|Hne]; [|by left].
  right. destruct value as [text|filename contentType data]; [by eexists|].
  by destruct (Hc filename contentType data).
Qed.

(** X21: a part that parses to a file under the name [__proto__] does
    not become an entry: it becomes the prototype of the form data, and
    stays it unless a later part does the same. *)
Theorem proto_file_becomes_prototype (contents rest : list Buffer)
    (content : Buffer) (filename contentType : jsstring) (data : Buffer) acc :
  parseContent content
    = ParseOk (js "__proto__") (File filename contentType data) →
  Forall (λ later, ∀ filename' contentType' data',
            parseContent later
              ≠ ParseOk (js "__proto__") (File filename' contentType' data'))
         rest →
  fd_proto (foldl processPart acc (contents ++ content :: rest)).2
    = Some (File filename contentType data)
  ∧ fd_own (foldl processPart acc (contents ++ content :: rest)).2
      !! js "__proto__"
    = fd_own acc.2 !! js "__proto__".
Proof.
  intros Hparse Hrest. split; [|apply processPart_proto].
  rewrite foldl_app. cbn [foldl]. rewrite processPart_proto_kept by done.
  unfold processPart at 1. rewrite Hparse. cbn [snd].
  unfold FormData_set. by rewrite decide_True.
Qed.

Lemma proto_file_becomes_prototype_witness :
  parseContent
    (encode_part (FilePart (js "__proto__") (js "a.txt") None (bytes "x")))
    = ParseOk (js "__proto__")
        (File (js "a.txt") (js "application/octet-stream") (bytes "x"))
  ∧ fd_proto
      (foldl processPart ([], FormData_empty)
         ([] ++ encode_part
                  (FilePart (js "__proto__") (js "a.txt") None (bytes "x"))
             :: [])).2
    = Some (File (js "a.txt") (js "application/octet-stream") (bytes "x")).
Proof.
  assert (parseContent
            (encode_part (FilePart (js "__proto__") (js "a.txt") None (bytes "x")))
          = ParseOk (js "__proto__")
              (File (js "a.txt") (js "application/octet-stream") (bytes "x")))
    as Hparse by (vm_compute; reflexivity).
  split; [exact Hparse|].
  exact (proj1 (proto_file_becomes_prototype [] [] _ _ _ _ ([], FormData_empty)
                  Hparse (List.Forall_nil _))).
Defined.
